(** * Portfolio site script: page navigation and contact-form validation

    A shallow embedding of [SCRIPT/script.js].  The script is DOM glue, so
    the embedding consists of

    - JavaScript strings as sequences of UTF-16 code units, with
      [String.prototype.trim] and the three validation regular expressions;
    - the document as a store of elements in tree order, with the DOM
      queries the script uses ([getElementById], [querySelector],
      [querySelectorAll], [closest]) and the mutations it performs
      ([classList.add], [classList.remove], [textContent], [style]);
    - the window: address fragment, session history, timers, focus, scroll;
    - the script's functions and event handlers in a state-and-exception
      monad.

    The definitions for navigation and form validation come first, then
    those for the remaining listeners (clicks anywhere in the document, the
    keyboard, scrolling, resizing, typing), the rate limiters [debounce]
    and [throttle], [isInViewport] and [getCurrentPage]; the properties
    follow in the same order.

    Left out are the parts of the script that touch none of this: the
    intersection observers, lazy image loading, the smooth scrolling of
    anchor links, console output and the performance log.  The HTML is not
    part of the script; the document is a parameter of every property, and
    the structure a property needs of it is stated as a checkable predicate
    ([navOk], [pageIdsOnly], [formOk], [groupsInOrder], [resetOk]). *)

From Stdlib Require Import String Ascii NArith QArith Lqa Lia.
From stdpp Require Import base option list numbers.

Local Open Scope N_scope.

(** ** JavaScript strings *)

(** A JavaScript string is a sequence of UTF-16 code units. *)
Abbreviation jsstring := (list N).

(** String literals of the source, all of which are ASCII. *)
Definition lit (s : string) : jsstring :=
  List.map N_of_ascii (list_ascii_of_string s).
Arguments lit : simpl never.

(** [===] on strings. *)
Definition streq (a b : jsstring) : bool := bool_decide (a = b).

(** ECMAScript [WhiteSpace]: TAB, VT, FF, SP, NBSP, ZWNBSP and the
    Unicode space separators. *)
Definition isWhiteSpace (c : N) : bool :=
  (c =? 0x09) || (c =? 0x0B) || (c =? 0x0C) || (c =? 0x20) || (c =? 0xA0)
  || (c =? 0xFEFF) || (c =? 0x1680) || ((0x2000 <=? c) && (c <=? 0x200A))
  || (c =? 0x202F) || (c =? 0x205F) || (c =? 0x3000).

(** ECMAScript [LineTerminator]: LF, CR, LS, PS. *)
Definition isLineTerminator (c : N) : bool :=
  (c =? 0x0A) || (c =? 0x0D) || (c =? 0x2028) || (c =? 0x2029).

(** What [trim] strips and what the regular-expression class [\s] matches. *)
Definition isSpace (c : N) : bool := isWhiteSpace c || isLineTerminator c.

Fixpoint dropWhile (p : N → bool) (s : jsstring) : jsstring :=
  match s with
  | [] => []
  | c :: s' => if p c then dropWhile p s' else s
  end.

Definition trimStart (s : jsstring) : jsstring := dropWhile isSpace s.
Definition trimEnd (s : jsstring) : jsstring :=
  reverse (dropWhile isSpace (reverse s)).

(** [String.prototype.trim] *)
Definition trim (s : jsstring) : jsstring := trimEnd (trimStart s).

(** [s.slice(1)] *)
Definition slice1 (s : jsstring) : jsstring := drop 1 s.

(** ** Regular expressions

    The three patterns of [validationRules] are anchored at both ends
    ([^] ... [$], no flags) and are sequences of literal characters and
    quantified character classes.  [test] on such a pattern is a
    backtracking match of the whole string. *)

Inductive Piece : Type :=
| Chr (c : N)                                       (* a literal character *)
| Rep (cls : N → bool) (lo : nat) (hi : option nat). (* cls{lo,hi}; cls+ is {1,} *)

Abbreviation Pattern := (list Piece).

Definition mayTake (hi : option nat) : bool :=
  match hi with Some O => false | _ => true end.

Definition decr (hi : option nat) : option nat := Nat.pred <$> hi.

(** Greedy quantifier with continuation [k] for the rest of the pattern. *)
Fixpoint matchRep (cls : N → bool) (lo : nat) (hi : option nat)
    (k : jsstring → bool) (s : jsstring) : bool :=
  match s with
  | [] => Nat.eqb lo 0 && k []
  | c :: s' =>
      (mayTake hi && cls c && matchRep cls (Nat.pred lo) (decr hi) k s')
      || (Nat.eqb lo 0 && k s)
  end.

Fixpoint matchPieces (ps : Pattern) (s : jsstring) : bool :=
  match ps with
  | [] => match s with [] => true | _ => false end
  | Chr c :: ps' =>
      match s with
      | c' :: s' => (c' =? c) && matchPieces ps' s'
      | [] => false
      end
  | Rep cls lo hi :: ps' => matchRep cls lo hi (matchPieces ps') s
  end.

(** [pattern.test(s)] for an anchored pattern. *)
Definition test (p : Pattern) (s : jsstring) : bool := matchPieces p s.

(** Character classes of the source patterns. *)
Definition isAsciiLetter (c : N) : bool :=
  ((0x61 <=? c) && (c <=? 0x7A)) || ((0x41 <=? c) && (c <=? 0x5A)).

(** [[a-zA-Z\s]] *)
Definition clsNameChar (c : N) : bool := isAsciiLetter c || isSpace c.
(** [[^\s@]] *)
Definition clsEmailChar (c : N) : bool := negb (isSpace c || (c =? 0x40)).
(** [.] without the [s] flag *)
Definition clsDot (c : N) : bool := negb (isLineTerminator c).

(** ** Validation rules *)

Record Rule := mkRule { pattern : Pattern; message : jsstring }.

(** [/^[a-zA-Z\s]{2,50}$/] *)
Definition namePattern : Pattern := [Rep clsNameChar 2 (Some 50%nat)].
(** [/^[^\s@]+@[^\s@]+\.[^\s@]+$/] *)
Definition emailPattern : Pattern :=
  [Rep clsEmailChar 1 None; Chr 0x40; Rep clsEmailChar 1 None; Chr 0x2E;
   Rep clsEmailChar 1 None].
(** [/^.{10,500}$/] *)
Definition messagePattern : Pattern := [Rep clsDot 10 (Some 500%nat)].

Definition nameRule : Rule :=
  mkRule namePattern
    (lit "Name must be 2-50 characters and contain only letters").
Definition emailRule : Rule :=
  mkRule emailPattern (lit "Please enter a valid email address").
Definition messageRule : Rule :=
  mkRule messagePattern (lit "Message must be between 10 and 500 characters").

(** What the property read [validationRules[fieldName]] evaluates to.  The
    object literal inherits from [Object.prototype], so a key such as
    [constructor] yields an inherited value, which is truthy and has no
    [pattern]. *)
Inductive RuleLookup : Type :=
| OwnRule (r : Rule)
| Inherited
| NoRule.

Definition objectPrototypeKeys : list jsstring :=
  lit <$> ["constructor"; "__defineGetter__"; "__defineSetter__";
           "hasOwnProperty"; "__lookupGetter__"; "__lookupSetter__";
           "isPrototypeOf"; "propertyIsEnumerable"; "toString"; "valueOf";
           "__proto__"; "toLocaleString"]%string.

Definition validationRules (fieldName : jsstring) : RuleLookup :=
  if streq fieldName (lit "name") then OwnRule nameRule
  else if streq fieldName (lit "email") then OwnRule emailRule
  else if streq fieldName (lit "message") then OwnRule messageRule
  else if bool_decide (fieldName ∈ objectPrototypeKeys) then Inherited
  else NoRule.

(** ** The document

    Elements live in a store in tree order (an element's index is its
    position in document order); [el_parent] is the index of the parent
    element and element [0] is the document element.  A node reference of
    the script is an index into the store; the store never grows or
    shrinks, so references stay valid. *)

Record Element := mkElement {
  el_tag : jsstring;                 (* local name, lower case *)
  el_parent : option nat;
  el_id : option jsstring;           (* the [id] attribute *)
  el_name : jsstring;                (* the [name] property of a control *)
  el_class : list jsstring;          (* [classList] *)
  el_dataPage : option jsstring;     (* the [data-page] attribute *)
  el_dataProgress : option jsstring; (* the [data-progress] attribute *)
  el_value : jsstring;               (* [value] of a control *)
  el_defaultValue : jsstring;        (* what [form.reset()] restores *)
  el_text : jsstring;                (* text of a text-only element *)
  el_display : jsstring;             (* last assignment to [style.display] *)
  el_width : jsstring;               (* last assignment to [style.width] *)
}.

Abbreviation Document := (list Element).

Definition setParent (p : option nat) (e : Element) : Element :=
  mkElement (el_tag e) p (el_id e) (el_name e) (el_class e) (el_dataPage e)
    (el_dataProgress e) (el_value e) (el_defaultValue e) (el_text e)
    (el_display e) (el_width e).
Definition setClass (c : list jsstring) (e : Element) : Element :=
  mkElement (el_tag e) (el_parent e) (el_id e) (el_name e) c (el_dataPage e)
    (el_dataProgress e) (el_value e) (el_defaultValue e) (el_text e)
    (el_display e) (el_width e).
Definition setValue (v : jsstring) (e : Element) : Element :=
  mkElement (el_tag e) (el_parent e) (el_id e) (el_name e) (el_class e)
    (el_dataPage e) (el_dataProgress e) v (el_defaultValue e) (el_text e)
    (el_display e) (el_width e).
Definition setText (t : jsstring) (e : Element) : Element :=
  mkElement (el_tag e) (el_parent e) (el_id e) (el_name e) (el_class e)
    (el_dataPage e) (el_dataProgress e) (el_value e) (el_defaultValue e) t
    (el_display e) (el_width e).
Definition setDisplay (v : jsstring) (e : Element) : Element :=
  mkElement (el_tag e) (el_parent e) (el_id e) (el_name e) (el_class e)
    (el_dataPage e) (el_dataProgress e) (el_value e) (el_defaultValue e)
    (el_text e) v (el_width e).
Definition setWidth (v : jsstring) (e : Element) : Element :=
  mkElement (el_tag e) (el_parent e) (el_id e) (el_name e) (el_class e)
    (el_dataPage e) (el_dataProgress e) (el_value e) (el_defaultValue e)
    (el_text e) (el_display e) v.

(** Property reads through a node reference. *)
Definition tagOf (d : Document) (n : nat) : jsstring :=
  from_option el_tag [] (d !! n).
Definition nameOf (d : Document) (n : nat) : jsstring :=
  from_option el_name [] (d !! n).
Definition valueOf (d : Document) (n : nat) : jsstring :=
  from_option el_value [] (d !! n).
Definition defaultValueOf (d : Document) (n : nat) : jsstring :=
  from_option el_defaultValue [] (d !! n).
Definition textOf (d : Document) (n : nat) : jsstring :=
  from_option el_text [] (d !! n).
Definition displayOf (d : Document) (n : nat) : jsstring :=
  from_option el_display [] (d !! n).
Definition idOf (d : Document) (n : nat) : option jsstring :=
  d !! n ≫= el_id.
Definition dataPageOf (d : Document) (n : nat) : option jsstring :=
  d !! n ≫= el_dataPage.
Definition parentOf (d : Document) (n : nat) : option nat :=
  d !! n ≫= el_parent.

(** [classList.contains] *)
Definition hasClass (c : jsstring) (d : Document) (n : nat) : bool :=
  from_option (λ e, bool_decide (c ∈ el_class e)) false (d !! n).

(** *** Tree structure *)

(** Proper ancestors of [n], nearest first. *)
Fixpoint ancestorsUpTo (fuel : nat) (d : Document) (n : nat) : list nat :=
  match fuel with
  | O => []
  | S fuel' =>
      match parentOf d n with
      | Some p => p :: ancestorsUpTo fuel' d p
      | None => []
      end
  end.

Definition ancestors (d : Document) (n : nat) : list nat :=
  ancestorsUpTo (length d) d n.

(** [n] is in the document tree: it is the document element or descends
    from it.  Elements removed from their parent are not. *)
Definition isConnected (d : Document) (n : nat) : bool :=
  bool_decide (n = O) || bool_decide (O ∈ ancestors d n).

(** [n] is a proper descendant of [root]. *)
Definition isDescendant (d : Document) (root n : nat) : bool :=
  bool_decide (root ∈ ancestors d n).

(** All node references, in document order. *)
Definition nodes (d : Document) : list nat := seq 0 (length d).

(** *** Selectors *)

Inductive Selector : Type :=
| SelTag (t : jsstring)             (* [input] *)
| SelClass (c : jsstring)           (* [.page] *)
| SelDataPage (v : jsstring)        (* [[data-page="v"]] *)
| SelAnd (a b : Selector)           (* compound: [.form-group.error] *)
| SelOr (a b : Selector).           (* list: [input, textarea] *)

Fixpoint matchesElement (sel : Selector) (e : Element) : bool :=
  match sel with
  | SelTag t => streq (el_tag e) t
  | SelClass c => bool_decide (c ∈ el_class e)
  | SelDataPage v => bool_decide (el_dataPage e = Some v)
  | SelAnd a b => matchesElement a e && matchesElement b e
  | SelOr a b => matchesElement a e || matchesElement b e
  end.

Definition matchesAt (d : Document) (sel : Selector) (n : nat) : bool :=
  from_option (matchesElement sel) false (d !! n).

(** [document.querySelectorAll(sel)] *)
Definition documentQuerySelectorAll (sel : Selector) (d : Document) : list nat :=
  filter (λ n, isConnected d n && matchesAt d sel n) (nodes d).

(** [document.querySelector(sel)] *)
Definition documentQuerySelector (sel : Selector) (d : Document) : option nat :=
  head (documentQuerySelectorAll sel d).

(** [root.querySelectorAll(sel)] *)
Definition elementQuerySelectorAll (root : nat) (sel : Selector) (d : Document)
    : list nat :=
  filter (λ n, isDescendant d root n && matchesAt d sel n) (nodes d).

(** [root.querySelector(sel)] *)
Definition elementQuerySelector (root : nat) (sel : Selector) (d : Document)
    : option nat :=
  head (elementQuerySelectorAll root sel d).

(** [n.closest(sel)]: [n] itself or its nearest matching ancestor. *)
Definition closest (sel : Selector) (d : Document) (n : nat) : option nat :=
  head (filter (λ a, matchesAt d sel a) (n :: ancestors d n)).

(** [document.getElementById(x)]: the first element in tree order whose
    id is [x]; an empty id is no id. *)
Definition hasId (x : jsstring) (e : Element) : bool :=
  bool_decide (el_id e = Some x) && negb (streq x []).

Definition getElementById (x : jsstring) (d : Document) : option nat :=
  head (filter (λ n, isConnected d n && from_option (hasId x) false (d !! n))
          (nodes d)).

Arguments documentQuerySelectorAll : simpl never.
Arguments documentQuerySelector : simpl never.
Arguments elementQuerySelectorAll : simpl never.
Arguments elementQuerySelector : simpl never.
Arguments closest : simpl never.
Arguments getElementById : simpl never.

(** *** Mutation *)

(** A class list is an ordered set of tokens. *)
Definition addToken (c : jsstring) (cl : list jsstring) : list jsstring :=
  if bool_decide (c ∈ cl) then cl else cl ++ [c].
Definition removeToken (c : jsstring) (cl : list jsstring) : list jsstring :=
  filter (λ c', c' ≠ c) cl.

(** [n.classList.add(c)] *)
Definition classListAdd (c : jsstring) (n : nat) (d : Document) : Document :=
  alter (λ e, setClass (addToken c (el_class e)) e) n d.

(** [n.classList.remove(c)] *)
Definition classListRemove (c : jsstring) (n : nat) (d : Document) : Document :=
  alter (λ e, setClass (removeToken c (el_class e)) e) n d.

(** [n.classList.toggle(c)] *)
Definition classListToggle (c : jsstring) (n : nat) (d : Document) : Document :=
  if hasClass c d n then classListRemove c n d else classListAdd c n d.

(** [n.textContent = t]: every child of [n] is removed from it and [t]
    becomes its only content. *)
Definition detachChildren (n : nat) (d : Document) : Document :=
  (λ e, if bool_decide (el_parent e = Some n) then setParent None e else e) <$> d.

Definition setTextContent (t : jsstring) (n : nat) (d : Document) : Document :=
  alter (setText t) n (detachChildren n d).

(** [ns.forEach(n => f(n))] for a mutation [f] that cannot fail. *)
Definition forEachNode (f : nat → Document → Document) (ns : list nat)
    (d : Document) : Document :=
  foldl (λ d' n, f n d') d ns.
Arguments forEachNode : simpl never.

(** *** Interpolated selectors

    [`[data-page="${v}"]`] splices [v] into selector text, which the
    browser then parses.  [parseSelector] covers the part of the selector
    grammar that the splice can be followed through: a value free of
    quotes, backslashes, line breaks, NUL and surrogates gives the intended
    attribute selector; a line break inside the quoted value, or a second
    string directly after it, is a syntax error.  Other texts are outside
    the covered grammar. *)

Inductive SelectorParse : Type :=
| Parsed (sel : Selector)
| Invalid
| Uncovered.

Definition isCssNewline (c : N) : bool :=
  (c =? 0x0A) || (c =? 0x0D) || (c =? 0x0C).

Definition isPlainChar (c : N) : bool :=
  negb ((c =? 0x22) || (c =? 0x5C) || isCssNewline c || (c =? 0)
        || ((0xD800 <=? c) && (c <=? 0xDFFF))).

Definition isPlain (v : jsstring) : bool := forallb isPlainChar v.

Fixpoint spanPlain (s : jsstring) : jsstring * jsstring :=
  match s with
  | [] => ([], [])
  | c :: s' =>
      if isPlainChar c then let '(a, b) := spanPlain s' in (c :: a, b)
      else ([], s)
  end.

Fixpoint stripPrefix (p s : jsstring) : option jsstring :=
  match p, s with
  | [], _ => Some s
  | a :: p', b :: s' => if a =? b then stripPrefix p' s' else None
  | _ :: _, [] => None
  end.

Definition parseSelector (text : jsstring) : SelectorParse :=
  match stripPrefix (lit "[data-page=" ++ [0x22]) text with
  | None => Uncovered
  | Some body =>
      let '(v, rest) := spanPlain body in
      match rest with
      | [0x22; 0x5D] => Parsed (SelDataPage v)
      | 0x22 :: 0x22 :: _ => Invalid
      | c :: _ => if isCssNewline c then Invalid else Uncovered
      | [] => Uncovered
      end
  end.

(** The template literal [`[data-page="${v}"]`]. *)
Definition dataPageSelectorText (v : jsstring) : jsstring :=
  lit "[data-page=" ++ [0x22] ++ v ++ [0x22; 0x5D].
Arguments parseSelector : simpl never.
Arguments dataPageSelectorText : simpl never.

(** ** The window *)

(** *** Address fragment

    [history.pushState(null, null, '#' + v)] runs the URL parser on
    ['#' + v]: trailing C0 controls and spaces are stripped, tabs and
    newlines are removed, and each remaining code point is UTF-8
    percent-encoded with the fragment percent-encode set. *)

Definition isC0OrSpace (c : N) : bool := c <=? 0x20.
Definition isTabOrNewline (c : N) : bool :=
  (c =? 0x09) || (c =? 0x0A) || (c =? 0x0D).

Definition inFragmentEncodeSet (cp : N) : bool :=
  (cp <=? 0x1F) || (0x7E <? cp) || (cp =? 0x20) || (cp =? 0x22)
  || (cp =? 0x3C) || (cp =? 0x3E) || (cp =? 0x60).

Definition hexDigit (n : N) : N :=
  if n <? 10 then 0x30 + n else 0x41 + (n - 10).

Definition percentByte (b : N) : jsstring :=
  [0x25; hexDigit (b / 16); hexDigit (b mod 16)].

Definition utf8 (cp : N) : list N :=
  if cp <? 0x80 then [cp]
  else if cp <? 0x800 then [0xC0 + cp / 64; 0x80 + cp mod 64]
  else if cp <? 0x10000 then
    [0xE0 + cp / 4096; 0x80 + (cp / 64) mod 64; 0x80 + cp mod 64]
  else
    [0xF0 + cp / 262144; 0x80 + (cp / 4096) mod 64; 0x80 + (cp / 64) mod 64;
     0x80 + cp mod 64].

Definition isHighSurrogate (c : N) : bool := (0xD800 <=? c) && (c <=? 0xDBFF).
Definition isLowSurrogate (c : N) : bool := (0xDC00 <=? c) && (c <=? 0xDFFF).

(** Code units to scalar values; a lone surrogate becomes U+FFFD. *)
Fixpoint codePoints (s : jsstring) : list N :=
  match s with
  | [] => []
  | c :: s' =>
      if isHighSurrogate c then
        match s' with
        | l :: s'' =>
            if isLowSurrogate l
            then (0x10000 + (c - 0xD800) * 1024 + (l - 0xDC00)) :: codePoints s''
            else 0xFFFD :: codePoints s'
        | [] => [0xFFFD]
        end
      else if isLowSurrogate c then 0xFFFD :: codePoints s'
      else c :: codePoints s'
  end.

Definition encodeFragmentPoint (cp : N) : jsstring :=
  if inFragmentEncodeSet cp then concat (percentByte <$> utf8 cp) else [cp].

Definition stripTrailing (p : N → bool) (s : jsstring) : jsstring :=
  reverse (dropWhile p (reverse s)).

(** The fragment of the URL that ['#' + v] parses to. *)
Definition urlFragment (v : jsstring) : jsstring :=
  concat (encodeFragmentPoint <$>
    codePoints (filter (λ c, negb (isTabOrNewline c))
                  (stripTrailing isC0OrSpace v))).

(** *** State *)

Inductive Block := BlockCenter | BlockStart.

(** The last scroll request made by the script. *)
Inductive ScrollRequest : Type :=
| ScrollToTop                              (* [window.scrollTo({top: 0})] *)
| ScrollIntoView (n : nat) (block : Block).

(** Callbacks handed to [setTimeout]. *)
Inductive Task : Type :=
| AnimateSkills                            (* [animateSkills] *)
| SetBarWidth (bar : nat) (w : jsstring)   (* the inner callback of [animateSkills] *)
| ResetForm                                (* the callback of the submit handler *)
| FadeInBody.                              (* the callback of the load handler *)

Record State := mkState {
  doc : Document;
  (* element references taken when the script starts *)
  mobileToggle : option nat;
  navMenu : option nat;
  navLinks : list nat;
  pages : list nat;
  header : option nat;
  contactForm : option nat;
  formSuccess : option nat;
  blurTargets : list nat;        (* the fields given a [blur] listener *)
  (* window *)
  fragment : jsstring;           (* URL fragment, without the [#] *)
  historyEntries : list jsstring;
  historyIndex : nat;
  scroll : option ScrollRequest;
  focused : option nat;
  clock : N;                     (* milliseconds *)
  timers : list (N * Task);      (* due time and callback *)
}.

Definition setDoc (d : Document) (s : State) : State :=
  mkState d (mobileToggle s) (navMenu s) (navLinks s) (pages s) (header s)
    (contactForm s) (formSuccess s) (blurTargets s) (fragment s)
    (historyEntries s) (historyIndex s) (scroll s) (focused s) (clock s)
    (timers s).
Definition setLocation (f : jsstring) (h : list jsstring) (i : nat) (s : State)
    : State :=
  mkState (doc s) (mobileToggle s) (navMenu s) (navLinks s) (pages s)
    (header s) (contactForm s) (formSuccess s) (blurTargets s) f h i
    (scroll s) (focused s) (clock s) (timers s).
Definition setScroll (r : option ScrollRequest) (s : State) : State :=
  mkState (doc s) (mobileToggle s) (navMenu s) (navLinks s) (pages s)
    (header s) (contactForm s) (formSuccess s) (blurTargets s) (fragment s)
    (historyEntries s) (historyIndex s) r (focused s) (clock s) (timers s).
Definition setFocused (f : option nat) (s : State) : State :=
  mkState (doc s) (mobileToggle s) (navMenu s) (navLinks s) (pages s)
    (header s) (contactForm s) (formSuccess s) (blurTargets s) (fragment s)
    (historyEntries s) (historyIndex s) (scroll s) f (clock s) (timers s).
Definition setTimers (c : N) (ts : list (N * Task)) (s : State) : State :=
  mkState (doc s) (mobileToggle s) (navMenu s) (navLinks s) (pages s)
    (header s) (contactForm s) (formSuccess s) (blurTargets s) (fragment s)
    (historyEntries s) (historyIndex s) (scroll s) (focused s) c ts.

(** *** Computations

    A call either returns, or throws with the mutations made so far in
    place, or runs into selector text outside the covered grammar. *)

Inductive Exn := SyntaxError | TypeError.

Inductive Completion (A : Type) : Type :=
| Normal (a : A) (s : State)
| Thrown (e : Exn) (s : State)
| OutOfModel.
Arguments Normal {A} a s.
Arguments Thrown {A} e s.
Arguments OutOfModel {A}.

Definition M (A : Type) : Type := State → Completion A.

Definition ret {A} (a : A) : M A := λ s, Normal a s.
Definition bind {A B} (m : M A) (k : A → M B) : M B :=
  λ s, match m s with
       | Normal a s' => k a s'
       | Thrown e s' => Thrown e s'
       | OutOfModel => OutOfModel
       end.
Definition throw {A} (e : Exn) : M A := λ s, Thrown e s.
Definition gets {A} (f : State → A) : M A := λ s, Normal (f s) s.
Definition modify (f : State → State) : M unit := λ s, Normal tt (f s).
Definition modifyDoc (f : Document → Document) : M unit :=
  modify (λ s, setDoc (f (doc s)) s).
Definition when (b : bool) (m : M unit) : M unit := if b then m else ret tt.
Definition whenSome {A} (o : option A) (m : A → M unit) : M unit :=
  match o with Some a => m a | None => ret tt end.

Notation "'let*' x := m 'in' k" := (bind m (λ x, k))
  (at level 10, x name, m at level 100, k at level 200).
Notation "m1 >> m2" := (bind m1 (λ _, m2))
  (at level 100, m2 at level 200, right associativity).

(** [location.hash] *)
Definition locationHash (s : State) : jsstring :=
  match fragment s with [] => [] | f => 0x23 :: f end.

(** [history.pushState(null, null, '#' + v)]: entries after the current one
    are dropped and a new entry becomes the current one. *)
Definition pushState (v : jsstring) : M unit :=
  modify (λ s, setLocation (urlFragment v)
                 (take (S (historyIndex s)) (historyEntries s) ++ [urlFragment v])
                 (S (historyIndex s)) s).

(** [setTimeout(task, delay)] *)
Definition setTimeout (t : Task) (delay : N) : M unit :=
  modify (λ s, setTimers (clock s) (timers s ++ [(clock s + delay, t)]) s).

(** [document.querySelector(text)] for selector text built at run time. *)
Definition querySelectorText (text : jsstring) : M (option nat) :=
  match parseSelector text with
  | Parsed sel => gets (λ s, documentQuerySelector sel (doc s))
  | Invalid => throw SyntaxError
  | Uncovered => λ _, OutOfModel
  end.

(** ** The script *)

(** *** Page navigation *)

(** The common start of [navigateToPage] (lines 31-34) and of the
    [popstate] and [DOMContentLoaded] listeners (lines 386-387, 438-439):
    [pages.forEach(page => page.classList.remove('active'))] and the same
    for [navLinks]. *)
Definition deactivateAll : M unit :=
  let* ps := gets pages in
  modifyDoc (forEachNode (classListRemove (lit "active")) ps) >>
  let* ls := gets navLinks in
  modifyDoc (forEachNode (classListRemove (lit "active")) ls).

(** [animateSkills] (lines 127-141): each bar is reset to [0%] and, 100ms
    later, set to its [data-progress] (a missing attribute reads as
    [null]). *)
Fixpoint animateBars (bars : list nat) : M unit :=
  match bars with
  | [] => ret tt
  | bar :: bars' =>
      let* progress := gets (λ s, default (lit "null")
                                    (doc s !! bar ≫= el_dataProgress)) in
      modifyDoc (alter (setWidth (lit "0%")) bar) >>
      setTimeout (SetBarWidth bar (progress ++ lit "%")) 100 >>
      animateBars bars'
  end.

Definition animateSkills : M unit :=
  let* skillBars :=
    gets (λ s, documentQuerySelectorAll (SelClass (lit "skill-progress")) (doc s)) in
  animateBars skillBars.

(** [navigateToPage] (lines 29-66). *)
Definition navigateToPage (pageId : jsstring) : M unit :=
  deactivateAll >>
  let* targetPage := gets (λ s, getElementById pageId (doc s)) in
  whenSome targetPage (λ p, modifyDoc (classListAdd (lit "active") p)) >>
  let* activeLink := querySelectorText (dataPageSelectorText pageId) in
  whenSome activeLink (λ l, modifyDoc (classListAdd (lit "active") l)) >>
  let* toggle := gets mobileToggle in
  let* menu := gets navMenu in
  match toggle, menu with
  | Some t, Some m =>
      modifyDoc (classListRemove (lit "active") t) >>
      modifyDoc (classListRemove (lit "active") m)
  | _, _ => ret tt
  end >>
  modify (setScroll (Some ScrollToTop)) >>
  let* hash := gets locationHash in
  when (negb (streq (slice1 hash) pageId)) (pushState pageId) >>
  when (streq pageId (lit "about")) (setTimeout AnimateSkills 300).

(** The [click] listener of the menu toggle (lines 17-22); it is registered
    only when the toggle and the menu exist. *)
Definition onToggleClick : M unit :=
  let* toggle := gets mobileToggle in
  let* menu := gets navMenu in
  match toggle, menu with
  | Some t, Some m =>
      modifyDoc (classListToggle (lit "active") t) >>
      modifyDoc (classListToggle (lit "active") m)
  | _, _ => ret tt
  end.

(** The [click] listener of a navigation link (lines 69-77): the page id
    is the link's [data-page] value, and nothing happens when that is
    missing or empty. *)
Definition onNavLinkClick (link : nat) : M unit :=
  let* pageId := gets (λ s, dataPageOf (doc s) link) in
  match pageId with
  | Some (c :: v) => navigateToPage (c :: v)
  | _ => ret tt
  end.

(** [hash.slice(1) || 'home'] *)
Definition hashOrHome (s : State) : jsstring :=
  match slice1 (locationHash s) with [] => lit "home" | h => h end.

(** The [popstate] listener (lines 382-406).  The browser has already
    moved to the history entry; the listener reads the fragment from the
    address. *)
Definition onPopState : M unit :=
  let* hash := gets hashOrHome in
  deactivateAll >>
  let* targetPage := gets (λ s, getElementById hash (doc s)) in
  whenSome targetPage (λ p, modifyDoc (classListAdd (lit "active") p)) >>
  let* activeLink := querySelectorText (dataPageSelectorText hash) in
  whenSome activeLink (λ l, modifyDoc (classListAdd (lit "active") l)) >>
  when (streq hash (lit "about")) (setTimeout AnimateSkills 300) >>
  modify (setScroll (Some ScrollToTop)).

(** [x.classList.add('active')] on the result of a lookup that the source
    does not check: [null.classList] is a [TypeError]. *)
Definition activateOrThrow (o : option nat) : M unit :=
  match o with
  | Some n => modifyDoc (classListAdd (lit "active") n)
  | None => throw TypeError
  end.

(** The [DOMContentLoaded] listener (lines 433-473).  [initScrollAnimations],
    [lazyLoadImages] and the body fade-in only write inline styles and image
    sources of elements, which the store does not hold; their timers are
    kept. *)
Definition onDOMContentLoaded : M unit :=
  let* hash := gets hashOrHome in
  deactivateAll >>
  let* initialPage := gets (λ s, getElementById hash (doc s)) in
  match initialPage with
  | Some p => modifyDoc (classListAdd (lit "active") p)
  | None =>
      let* home := gets (λ s, getElementById (lit "home") (doc s)) in
      activateOrThrow home
  end >>
  let* initialLink := querySelectorText (dataPageSelectorText hash) in
  match initialLink with
  | Some l => modifyDoc (classListAdd (lit "active") l)
  | None =>
      let* homeLink :=
        gets (λ s, documentQuerySelector (SelDataPage (lit "home")) (doc s)) in
      activateOrThrow homeLink
  end >>
  setTimeout FadeInBody 100 >>
  when (streq hash (lit "about")) (setTimeout AnimateSkills 500).

(** The [keydown] listener for the keys [1] to [4] (lines 367-375). *)
Definition pageMap : list jsstring :=
  [lit "home"; lit "about"; lit "projects"; lit "contact"].

Definition onDigitKey (pageIndex : nat) : M unit :=
  match pageMap !! pageIndex with
  | Some pageId => navigateToPage pageId
  | None => ret tt
  end.

(** *** Form validation *)

Definition formGroupSel : Selector := SelClass (lit "form-group").
Definition fieldSel : Selector := SelOr (SelTag (lit "input")) (SelTag (lit "textarea")).

Definition markInvalid (formGroup errorElement : nat) (msg : jsstring) : M bool :=
  modifyDoc (classListAdd (lit "error") formGroup) >>
  modifyDoc (setTextContent msg errorElement) >>
  ret false.

Definition markValid (formGroup errorElement : nat) : M bool :=
  modifyDoc (classListRemove (lit "error") formGroup) >>
  modifyDoc (setTextContent [] errorElement) >>
  ret true.

(** [validateField] (lines 167-194). *)
Definition validateField (field : nat) : M bool :=
  let* fieldName := gets (λ s, nameOf (doc s) field) in
  let* fieldValue := gets (λ s, trim (valueOf (doc s) field)) in
  let* formGroup := gets (λ s, closest formGroupSel (doc s) field) in
  let* errorElement :=
    gets (λ s, getElementById (fieldName ++ lit "Error") (doc s)) in
  match formGroup, errorElement with
  | Some g, Some e =>
      match fieldValue with
      | [] => markInvalid g e (lit "This field is required")
      | _ =>
          match validationRules fieldName with
          | OwnRule rule =>
              if negb (test (pattern rule) fieldValue)
              then markInvalid g e (message rule)
              else markValid g e
          | Inherited => throw TypeError   (* [rule.pattern] is [undefined] *)
          | NoRule => markValid g e
          end
      end
  | _, _ => ret false
  end.

Arguments validateField : simpl never.

Fixpoint validateFields (formFields : list nat) (isValid : bool) : M bool :=
  match formFields with
  | [] => ret isValid
  | field :: rest =>
      let* ok := validateField field in
      validateFields rest (if ok then isValid else false)
  end.

(** [validateForm] (lines 200-211): every field is validated, in document
    order, whatever the results so far. *)
Definition validateForm : M bool :=
  let* form := gets contactForm in
  match form with
  | None => throw TypeError            (* [contactForm.querySelectorAll] *)
  | Some f =>
      let* formFields := gets (λ s, elementQuerySelectorAll f fieldSel (doc s)) in
      validateFields formFields true
  end.

Arguments validateForm : simpl never.

(** *** Focus

    [n.focus()] moves the focus; the element losing it receives [blur], and
    the fields of the contact form answer [blur] with [validateField].  An
    exception inside a listener is reported, not propagated. *)

Definition dispatch {A} (listener : M A) : M unit :=
  λ s, match listener s with
       | Normal _ s' => Normal tt s'
       | Thrown _ s' => Normal tt s'
       | OutOfModel => OutOfModel
       end.

Definition focus (n : nat) : M unit :=
  let* old := gets focused in
  if bool_decide (old = Some n) then ret tt
  else
    let* listeners := gets blurTargets in
    match old with
    | Some o => when (bool_decide (o ∈ listeners)) (dispatch (validateField o))
    | None => ret tt
    end >>
    modify (setFocused (Some n)).

Arguments focus : simpl never.

(** *** Form submission *)

(** [contactForm.reset()]: every [input] and [textarea] inside the form
    returns to its default value. *)
Definition resetControls (form : nat) (d : Document) : Document :=
  forEachNode (λ n d', alter (λ e, setValue (el_defaultValue e) e) n d')
    (elementQuerySelectorAll form fieldSel d) d.

(** [new FormData(contactForm)] and [contactForm.reset()] need a [form]
    element. *)
Definition requireForm (form : nat) : M unit :=
  let* tag := gets (λ s, tagOf (doc s) form) in
  if streq tag (lit "form") then ret tt else throw TypeError.

(** The callback scheduled by a successful submission (lines 256-272). *)
Definition resetFormCallback : M unit :=
  let* form := gets contactForm in
  whenSome form (λ f,
    requireForm f >>
    modifyDoc (resetControls f) >>
    modifyDoc (alter (setDisplay (lit "flex")) f) >>
    let* success := gets formSuccess in
    whenSome success (λ b, modifyDoc (classListAdd (lit "hidden") b)) >>
    let* groups :=
      gets (λ s, documentQuerySelectorAll formGroupSel (doc s)) in
    modifyDoc (forEachNode (classListRemove (lit "error")) groups) >>
    let* errors :=
      gets (λ s, documentQuerySelectorAll (SelClass (lit "error-message")) (doc s)) in
    modifyDoc (forEachNode (setTextContent []) errors)).

Arguments resetFormCallback : simpl never.

(** The [submit] listener (lines 233-289); it is registered only when
    [contactForm] exists.  The [console.log] lines leave no trace in the
    state. *)
Definition onSubmit : M unit :=
  let* form := gets contactForm in
  whenSome form (λ f,
    let* ok := validateForm in
    if ok then
      requireForm f >>
      modifyDoc (alter (setDisplay (lit "none")) f) >>
      let* success := gets formSuccess in
      whenSome success (λ b, modifyDoc (classListRemove (lit "hidden") b)) >>
      setTimeout ResetForm 3000
    else
      let* firstError :=
        gets (λ s, elementQuerySelector f
                     (SelAnd formGroupSel (SelClass (lit "error"))) (doc s)) in
      whenSome firstError (λ g,
        modify (setScroll (Some (ScrollIntoView g BlockCenter))) >>
        let* errorInput := gets (λ s, elementQuerySelector g fieldSel (doc s)) in
        whenSome errorInput focus)).

(** *** Timers *)

Definition runTask (t : Task) : M unit :=
  match t with
  | AnimateSkills => animateSkills
  | SetBarWidth bar w => modifyDoc (alter (setWidth w) bar)
  | ResetForm => resetFormCallback
  | FadeInBody => ret tt
  end.

(** Position of the timer that fires next: the earliest due time, and
    among equals the one set first. *)
Fixpoint nextTimer (ts : list (N * Task)) : option nat :=
  match ts with
  | [] => None
  | (due, _) :: ts' =>
      match nextTimer ts' with
      | Some i =>
          match ts' !! i with
          | Some (due', _) => if due' <? due then Some (S i) else Some O
          | None => Some O
          end
      | None => Some O
      end
  end.

(** Time passes until the next timer is due and its callback runs. *)
Definition fireNextTimer : M unit :=
  let* ts := gets timers in
  match nextTimer ts with
  | None => ret tt
  | Some i =>
      match ts !! i with
      | None => ret tt
      | Some (due, task) =>
          modify (λ s, setTimers (N.max (clock s) due) (delete i ts) s) >>
          dispatch (runTask task)
      end
  end.

(** *** Script start

    The top-level statements: the element references are taken from the
    document as it is when the script runs, and the blur listeners are
    attached. *)
Definition load (d : Document) (frag : jsstring) : State :=
  let form := getElementById (lit "contactForm") d in
  {| doc := d;
     mobileToggle := getElementById (lit "mobileToggle") d;
     navMenu := getElementById (lit "navMenu") d;
     navLinks := documentQuerySelectorAll (SelClass (lit "nav-link")) d;
     pages := documentQuerySelectorAll (SelClass (lit "page")) d;
     header := getElementById (lit "header") d;
     contactForm := form;
     formSuccess := getElementById (lit "formSuccess") d;
     blurTargets :=
       match form with
       | Some f => elementQuerySelectorAll f fieldSel d
       | None => []
       end;
     fragment := frag;
     historyEntries := [frag];
     historyIndex := 0;
     scroll := None;
     focused := None;
     clock := 0;
     timers := [] |}.

(** ** A sample document

    A page with the structure the script expects: a header with the menu
    toggle and four navigation links, four page sections, a call-to-action
    link on the home page, a skill bar, and the contact form with three
    groups of control and error text, followed by the success notice. *)

Definition node (tag : string) (parent : nat) (classes : list string)
    : Element :=
  {| el_tag := lit tag; el_parent := Some parent; el_id := None;
     el_name := []; el_class := lit <$> classes; el_dataPage := None;
     el_dataProgress := None; el_value := []; el_defaultValue := [];
     el_text := []; el_display := []; el_width := [] |}.
Arguments node tag%_string parent%_nat classes.

Definition identified (id : string) (e : Element) : Element :=
  mkElement (el_tag e) (el_parent e) (Some (lit id)) (el_name e) (el_class e)
    (el_dataPage e) (el_dataProgress e) (el_value e) (el_defaultValue e)
    (el_text e) (el_display e) (el_width e).
Arguments identified id%_string e.

Definition linkTo (page : string) (e : Element) : Element :=
  mkElement (el_tag e) (el_parent e) (el_id e) (el_name e) (el_class e)
    (Some (lit page)) (el_dataProgress e) (el_value e) (el_defaultValue e)
    (el_text e) (el_display e) (el_width e).
Arguments linkTo page%_string e.

Definition control (name : string) (value : jsstring) (e : Element) : Element :=
  mkElement (el_tag e) (el_parent e) (el_id e) (lit name) (el_class e)
    (el_dataPage e) (el_dataProgress e) value (el_defaultValue e)
    (el_text e) (el_display e) (el_width e).
Arguments control name%_string value e.

Definition progress (p : string) (e : Element) : Element :=
  mkElement (el_tag e) (el_parent e) (el_id e) (el_name e) (el_class e)
    (el_dataPage e) (Some (lit p)) (el_value e) (el_defaultValue e)
    (el_text e) (el_display e) (el_width e).
Arguments progress p%_string e.

(** The sample page with the given contents of the three controls. *)
Definition samplePage (name email msg : jsstring) : Document :=
  [ setParent None (node "html" 0 []);                                   (* 0 *)
    node "body" 0 [];                                                    (* 1 *)
    identified "header" (node "header" 1 ["header"]);                    (* 2 *)
    identified "mobileToggle" (node "button" 2 ["mobile-toggle"]);       (* 3 *)
    identified "navMenu" (node "ul" 2 ["nav-menu"]);                     (* 4 *)
    linkTo "home" (node "a" 4 ["nav-link"; "active"]);                   (* 5 *)
    linkTo "about" (node "a" 4 ["nav-link"]);                            (* 6 *)
    linkTo "projects" (node "a" 4 ["nav-link"]);                         (* 7 *)
    linkTo "contact" (node "a" 4 ["nav-link"]);                          (* 8 *)
    identified "home" (node "section" 1 ["page"; "active"]);             (* 9 *)
    linkTo "projects" (node "a" 9 ["btn"]);                              (* 10 *)
    identified "about" (node "section" 1 ["page"]);                      (* 11 *)
    progress "90" (node "div" 11 ["skill-progress"]);                    (* 12 *)
    identified "projects" (node "section" 1 ["page"]);                   (* 13 *)
    identified "contact" (node "section" 1 ["page"]);                    (* 14 *)
    identified "contactForm" (node "form" 14 ["contact-form"]);          (* 15 *)
    node "div" 15 ["form-group"];                                        (* 16 *)
    control "name" name (identified "name" (node "input" 16 []));        (* 17 *)
    identified "nameError" (node "span" 16 ["error-message"]);           (* 18 *)
    node "div" 15 ["form-group"];                                        (* 19 *)
    control "email" email (identified "email" (node "input" 19 []));     (* 20 *)
    identified "emailError" (node "span" 19 ["error-message"]);          (* 21 *)
    node "div" 15 ["form-group"];                                        (* 22 *)
    control "message" msg (identified "message" (node "textarea" 22 [])); (* 23 *)
    identified "messageError" (node "span" 22 ["error-message"]);        (* 24 *)
    node "button" 15 ["btn"];                                            (* 25 *)
    identified "formSuccess" (node "div" 14 ["form-success"; "hidden"])  (* 26 *)
  ]%string.

(** The state right after the script has started on the sample page. *)
Definition sampleState (name email msg : jsstring) : State :=
  load (samplePage name email msg) [].

(** A form whose only control has neither a form group nor an error
    element. *)
Definition bareForm (name : jsstring) : Document :=
  [ setParent None (node "html" 0 []);
    identified "contactForm" (node "form" 0 []);
    control "name" name (node "input" 1 [])
  ]%string.

(** ** Vocabulary of the properties *)

(** The pages and navigation links that carry the [active] class. *)
Definition activePages (s : State) : list nat :=
  filter (λ n, hasClass (lit "active") (doc s) n) (pages s).
Definition activeLinks (s : State) : list nat :=
  filter (λ n, hasClass (lit "active") (doc s) n) (navLinks s).

(** The steps of an activation on the document. *)
Definition deactivated (s : State) : Document :=
  forEachNode (classListRemove (lit "active")) (navLinks s)
    (forEachNode (classListRemove (lit "active")) (pages s) (doc s)).
Definition addActive (o : option nat) (d : Document) : Document :=
  from_option (λ n, classListAdd (lit "active") n d) d o.
Definition closeMenu (s : State) (d : Document) : Document :=
  match mobileToggle s, navMenu s with
  | Some t, Some m =>
      classListRemove (lit "active") m (classListRemove (lit "active") t d)
  | _, _ => d
  end.

(** What the queries for an id or a [data-page] value depend on. *)
Definition skeleton (e : Element)
    : jsstring * option nat * option jsstring * jsstring * option jsstring :=
  (el_tag e, el_parent e, el_id e, el_name e, el_dataPage e).

Definition sameSkeleton (d d' : Document) : Prop :=
  skeleton <$> d = skeleton <$> d'.

Definition inPageMap (o : option jsstring) : bool :=
  from_option (λ x, bool_decide (x ∈ pageMap)) true o.

(** The document has the navigation structure the script is written for:
    - [pages] and [navLinks] are duplicate-free and disjoint, and neither
      the menu toggle nor the menu is among them;
    - for each of the four page ids, [getElementById] finds a page and
      the [data-page] selector finds a navigation link. *)
Definition navOk (s : State) : bool :=
  let d := doc s in
  let targets := pages s ++ navLinks s in
  bool_decide (NoDup (pages s)) && bool_decide (NoDup (navLinks s))
  && forallb (λ n, bool_decide (n ∉ navLinks s)) (pages s)
  && forallb (λ n, bool_decide (mobileToggle s ≠ Some n)
                   && bool_decide (navMenu s ≠ Some n)) targets
  && forallb (λ id,
       from_option (λ p, bool_decide (p ∈ pages s)) false (getElementById id d)
       && from_option (λ l, bool_decide (l ∈ navLinks s)) false
            (documentQuerySelector (SelDataPage id) d)) pageMap.

(** Pages and navigation links carry no id and no [data-page] value other
    than the four page ids. *)
Definition pageIdsOnly (s : State) : bool :=
  forallb (λ n, inPageMap (idOf (doc s) n) && inPageMap (dataPageOf (doc s) n))
    (pages s ++ navLinks s).

(** The state after the browser has moved to an address with fragment
    [f], as it is when [popstate] or [DOMContentLoaded] fires. *)
Definition withFragment (f : jsstring) (s : State) : State :=
  setLocation f (historyEntries s) (historyIndex s) s.

(** Navigation to [id] returns and leaves no page and no link active. *)
Definition leavesNothingActive (id : jsstring) (s : State) : Prop :=
  ∃ s', navigateToPage id s = Normal tt s' ∧
        activePages s' = [] ∧ activeLinks s' = [].

(** Exactly the page with id [id] and the link to it are active. *)
Definition onlyActive (id : jsstring) (s : State) : Prop :=
  ∃ p l, activePages s = [p] ∧ idOf (doc s) p = Some id ∧
         activeLinks s = [l] ∧ dataPageOf (doc s) l = Some id.

(** The form group and the error element that [validateField] works on. *)
Definition groupOf (d : Document) (field : nat) : option nat :=
  closest formGroupSel d field.
Definition errorOf (d : Document) (field : nat) : option nat :=
  getElementById (nameOf d field ++ lit "Error") d.

(** The decision [validateField] takes from the name and the value of a
    field. *)
Inductive Check : Type :=
| Passes
| Fails (msg : jsstring)
| Raises.

Definition check (fieldName fieldValue : jsstring) : Check :=
  match trim fieldValue with
  | [] => Fails (lit "This field is required")
  | v =>
      match validationRules fieldName with
      | OwnRule rule =>
          if test (pattern rule) v then Passes else Fails (message rule)
      | Inherited => Raises
      | NoRule => Passes
      end
  end.

Definition checkField (d : Document) (field : nat) : Check :=
  check (nameOf d field) (valueOf d field).

(** What a run of [validateField] may change in the document: the
    [error] class, the text of elements, and the parent of elements that a
    [textContent] assignment has removed. *)
Definition annotatedElement (e e' : Element) : Prop :=
  el_tag e' = el_tag e ∧ el_id e' = el_id e ∧ el_name e' = el_name e ∧
  el_dataPage e' = el_dataPage e ∧ el_dataProgress e' = el_dataProgress e ∧
  el_value e' = el_value e ∧ el_defaultValue e' = el_defaultValue e ∧
  el_display e' = el_display e ∧ el_width e' = el_width e ∧
  (el_parent e' = el_parent e ∨ el_parent e' = None) ∧
  (∀ c, c ≠ lit "error" → c ∈ el_class e' ↔ c ∈ el_class e).

Definition annotated (d d' : Document) : Prop := Forall2 annotatedElement d d'.

(** Everything but the document is as before. *)
Definition sameWindow (s s' : State) : Prop := s' = setDoc (doc s') s.

(** A message of 25 characters with a line break in it. *)
Definition twoLineMessage : jsstring :=
  lit "Hello there," ++ [0x0A] ++ lit "this is Bob.".

(** The fields of the contact form, as [validateForm] enumerates them. *)
Definition fieldsOf (s : State) : list nat :=
  match contactForm s with
  | Some f => elementQuerySelectorAll f fieldSel (doc s)
  | None => []
  end.

Definition passes (c : Check) : bool :=
  match c with Passes => true | _ => false end.

(** The error text that goes with a decision. *)
Definition errorText (c : Check) : jsstring :=
  match c with Fails msg => msg | _ => [] end.

(** [n] has no child elements. *)
Definition isLeaf (d : Document) (n : nat) : bool :=
  forallb (λ m, negb (bool_decide (parentOf d m = Some n))) (nodes d).

(** A field is equipped for validation: it has a form group and an error
    element, the error element holds text only, and the name of the field
    is not a member of [Object.prototype]. *)
Definition fieldOk (d : Document) (x : nat) : bool :=
  match groupOf d x, errorOf d x with
  | Some _, Some e => isLeaf d e
  | _, _ => false
  end
  && match validationRules (nameOf d x) with Inherited => false | _ => true end.

(** The contact form has the structure the script is written for: the
    form exists, every field is equipped for validation, and no two fields
    share a form group or an error element. *)
Definition formOk (s : State) : bool :=
  bool_decide (is_Some (contactForm s))
  && forallb (fieldOk (doc s)) (fieldsOf s)
  && bool_decide (NoDup (groupOf (doc s) <$> fieldsOf s))
  && bool_decide (NoDup (errorOf (doc s) <$> fieldsOf s)).

(** The document keeps its skeleton and differs by annotations only. *)
Definition unchangedForm (d d' : Document) : Prop :=
  sameSkeleton d d' ∧ annotated d d'.

(** The form groups inside the form come in the order of the fields, one
    per field, and the first control inside a field's group is the field. *)
Definition groupsInOrder (s : State) : bool :=
  match contactForm s with
  | Some f =>
      bool_decide (Some <$> elementQuerySelectorAll f formGroupSel (doc s)
                   = groupOf (doc s) <$> fieldsOf s)
      && forallb (λ x,
           match groupOf (doc s) x with
           | Some g => bool_decide (elementQuerySelector g fieldSel (doc s) = Some x)
           | None => false
           end) (fieldsOf s)
  | None => false
  end.

(** The first field, in document order, that fails its check. *)
Definition firstInvalid (s : State) : option nat :=
  head (filter (λ x, negb (passes (checkField (doc s) x))) (fieldsOf s)).

(** The form can be submitted and reset: [contactForm] is a [form]
    element, its controls have empty default values, and the success
    notice, if there is one, is an element of the document. *)
Definition resetOk (s : State) : bool :=
  match contactForm s with
  | Some f => streq (tagOf (doc s) f) (lit "form")
  | None => false
  end
  && forallb (λ x, streq (defaultValueOf (doc s) x) []) (fieldsOf s)
  && from_option (λ b, bool_decide (b < length (doc s))%nat) true (formSuccess s).

(** The document after the reset callback. *)
Definition resetDocument (f : nat) (success : option nat) (d : Document)
    : Document :=
  let d1 := alter (setDisplay (lit "flex")) f (resetControls f d) in
  let d2 := from_option (λ b, classListAdd (lit "hidden") b d1) d1 success in
  let d3 := forEachNode (classListRemove (lit "error"))
              (documentQuerySelectorAll formGroupSel d2) d2 in
  forEachNode (setTextContent [])
    (documentQuerySelectorAll (SelClass (lit "error-message")) d3) d3.

(** Flags and texts have only been cleared on the way from [d] to [d']. *)
Definition cleared (d d' : Document) : Prop :=
  ∀ n, (hasClass (lit "error") d' n = true → hasClass (lit "error") d n = true) ∧
       (textOf d' n = textOf d n ∨ textOf d' n = []).

(** ** Further listeners and utilities of the script *)

(** *** The mobile menu *)

(** What the [Escape] branch of the [keydown] listener (lines 361-364) and
    the resize handler (lines 596-599) share: the menu is checked for
    [null], the toggle is not. *)
Definition closeOpenMenu : M unit :=
  let* menu := gets navMenu in
  match menu with
  | None => ret tt
  | Some m =>
      let* isOpen := gets (λ s, hasClass (lit "active") (doc s) m) in
      when isOpen
        (let* toggle := gets mobileToggle in
         match toggle with
         | Some t => modifyDoc (classListRemove (lit "active") t)
         | None => throw TypeError       (* [mobileToggle.classList] *)
         end >>
         modifyDoc (classListRemove (lit "active") m))
  end.

(** The function that [handleResize] debounces (lines 593-601). *)
Definition handleResize (innerWidth : N) : M unit :=
  when (768 <? innerWidth) closeOpenMenu.

(** *** Keyboard *)

(** [a <= b] on strings: code units are compared from the left. *)
Fixpoint strle (a b : jsstring) : bool :=
  match a, b with
  | [], _ => true
  | _ :: _, [] => false
  | x :: a', y :: b' => (x <? y) || ((x =? y) && strle a' b')
  end.

(** The value of [c] as a digit in the given radix. *)
Definition digitValue (radix c : N) : option N :=
  let v := if (0x30 <=? c) && (c <=? 0x39) then Some (c - 0x30)
           else if (0x61 <=? c) && (c <=? 0x7A) then Some (c - 0x61 + 10)
           else if (0x41 <=? c) && (c <=? 0x5A) then Some (c - 0x41 + 10)
           else None in
  v ≫= λ n, if n <? radix then Some n else None.

(** The value of the longest prefix of digits. *)
Fixpoint parseDigits (radix acc : N) (s : jsstring) : N :=
  match s with
  | [] => acc
  | c :: s' =>
      match digitValue radix c with
      | Some v => parseDigits radix (acc * radix + v) s'
      | None => acc
      end
  end.

(** [parseInt(s)] without a radix argument; [None] is [NaN].  The result
    is the mathematical value of the digits: the Number it stands for is
    the same integer up to 2^53 and is not below 2^53 beyond. *)
Definition parseInt (s : jsstring) : option Z :=
  let s1 := trimStart s in
  let '(negative, s2) :=
    match s1 with
    | 0x2D :: r => (true, r)
    | 0x2B :: r => (false, r)
    | _ => (false, s1)
    end in
  let '(radix, s3) :=
    match s2 with
    | 0x30 :: x :: r => if (x =? 0x78) || (x =? 0x58) then (16, r) else (10, s2)
    | _ => (10, s2)
    end in
  match s3 with
  | c :: _ =>
      match digitValue radix c with
      | Some _ =>
          let n := Z.of_N (parseDigits radix 0 s3) in
          Some (if negative : bool then (- n)%Z else n)
      | None => None
      end
  | [] => None
  end.

(** The [keydown] listener (lines 358-376).  [pageMap[pageIndex]] is
    [undefined] for a negative index and for [NaN]. *)
Definition onKeyDown (key : jsstring) : M unit :=
  when (streq key (lit "Escape")) closeOpenMenu >>
  when (strle (lit "1") key && strle key (lit "4"))
    match parseInt key with
    | Some n => if (1 <=? n)%Z then onDigitKey (Z.to_nat (n - 1)) else ret tt
    | None => ret tt
    end.

(** *** Clicks anywhere in the document *)

(** [n.closest('[data-page]')] *)
Definition closestWithDataPage (d : Document) (n : nat) : option nat :=
  head (filter (λ a, bool_decide (is_Some (dataPageOf d a))) (n :: ancestors d n)).

Section clicks.

(** The store does not hold the [href] attribute, which the script only
    tests for presence and never changes. *)
Variable hasAttributeHref : nat → bool.

(** The [click] listener of the document (lines 80-87).  Unlike the
    listener of a navigation link it navigates with an empty [data-page]
    value as well. *)
Definition onDocumentClick (target : nat) : M unit :=
  let* found := gets (λ s, closestWithDataPage (doc s) target) in
  match found with
  | Some t =>
      if hasAttributeHref t then
        let* pageId := gets (λ s, default [] (dataPageOf (doc s) t)) in
        navigateToPage pageId
      else ret tt
  | None => ret tt
  end.

(** The listeners of the script that a click on [target] reaches while it
    bubbles: on each element of the path the toggle's listener and the
    navigation link's listener, where registered, and the document's
    listener last.  The listener of the anchor links (lines 330-352) is not
    among them: it returns at once on an element with [data-page] and
    otherwise asks for a scroll only.  What the browser does by default
    with a click that no listener has intercepted is not followed. *)
Definition listenersAt (n : nat) : M unit :=
  let* toggle := gets mobileToggle in
  let* links := gets navLinks in
  when (bool_decide (toggle = Some n)) (dispatch onToggleClick) >>
  when (bool_decide (n ∈ links)) (dispatch (onNavLinkClick n)).

Fixpoint alongPath (path : list nat) : M unit :=
  match path with
  | [] => ret tt
  | n :: path' => listenersAt n >> alongPath path'
  end.

Definition click (target : nat) : M unit :=
  let* path := gets (λ s, target :: ancestors (doc s) target) in
  alongPath path >>
  dispatch (onDocumentClick target).

End clicks.

(** *** Scrolling *)

(** [handleScroll] (lines 95-105), with the value that [window.pageYOffset]
    has when it runs.  [header] is used without a check; [lastScroll] is
    written and never read. *)
Definition handleScroll (pageYOffset : Q) : M unit :=
  let* h := gets header in
  match h with
  | None => throw TypeError             (* [header.classList] *)
  | Some n =>
      if negb (Qle_bool pageYOffset 50)
      then modifyDoc (classListAdd (lit "scrolled") n)
      else modifyDoc (classListRemove (lit "scrolled") n)
  end.

(** [isInViewport] (lines 522-530) on the rectangle that
    [getBoundingClientRect] returns. *)
Record DOMRect := mkDOMRect {
  rect_top : Q; rect_left : Q; rect_bottom : Q; rect_right : Q
}.

(** [a || b] on numbers: [0] is falsy. *)
Definition orElse (a b : Q) : Q := if Qeq_bool a 0 then b else a.

Definition isInViewport (rect : DOMRect)
    (innerHeight innerWidth clientHeight clientWidth : Q) : bool :=
  Qle_bool 0 (rect_top rect) && Qle_bool 0 (rect_left rect)
  && Qle_bool (rect_bottom rect) (orElse innerHeight clientHeight)
  && Qle_bool (rect_right rect) (orElse innerWidth clientWidth).

(** *** Validation while typing *)

(** The [input] listener of a field (lines 224-229): the field is
    validated again only while its group is flagged. *)
Definition onInput (field : nat) : M unit :=
  let* formGroup := gets (λ s, closest formGroupSel (doc s) field) in
  let* flagged :=
    gets (λ s, from_option (hasClass (lit "error") (doc s)) false formGroup) in
  when flagged (let* _ := validateField field in ret tt).

(** *** The current page *)

(** [getCurrentPage] (lines 536-539); the [id] property of an element
    without the attribute is the empty string. *)
Definition getCurrentPage (d : Document) : jsstring :=
  match documentQuerySelector
          (SelAnd (SelClass (lit "page")) (SelClass (lit "active"))) d with
  | Some activePage => default [] (idOf d activePage)
  | None => lit "home"
  end.

(** *** Rate limiting

    [debounce] and [throttle] return closures that keep state between
    calls and set timers of their own.  A wrapper is followed through a
    sequence of calls, each made at a given time with given arguments;
    before a call, and at the end, the timers that have come due fire. *)

Section wrappers.

Context {A : Type}.   (* the arguments of a call *)

(** A timer of a wrapper: the id that [setTimeout] returned, the time it
    is due, and the arguments its callback has captured. *)
Record WrapperTimer := mkWrapperTimer {
  wt_id : nat; wt_due : N; wt_args : A
}.

(** [clearTimeout(id)]; [undefined] clears nothing. *)
Definition clearTimeout (id : option nat) (ts : list WrapperTimer)
    : list WrapperTimer :=
  match id with
  | Some i => filter (λ t, wt_id t ≠ i) ts
  | None => ts
  end.

(** The timer that fires next and the timers that remain: the earliest
    due time, and among equals the one set first. *)
Fixpoint earliest (ts : list WrapperTimer)
    : option (WrapperTimer * list WrapperTimer) :=
  match ts with
  | [] => None
  | t :: ts' =>
      match earliest ts' with
      | Some (u, rest) =>
          if wt_due u <? wt_due t then Some (u, t :: rest) else Some (t, ts')
      | None => Some (t, [])
      end
  end.

(** [debounce(func, wait)] (lines 108-118). *)
Record Debounced := mkDebounced {
  db_timeout : option nat;         (* the variable [timeout] *)
  db_timers : list WrapperTimer;   (* [later] callbacks waiting to run *)
  db_nextId : nat;                 (* what the next [setTimeout] returns *)
  db_calls : list (N * A);         (* calls of [func] so far: time, arguments *)
}.

(** The closure as [debounce] returns it. *)
Definition debounce : Debounced := mkDebounced None [] 0 [].

(** [executedFunction(...args)], called at time [now]. *)
Definition executedFunction (wait now : N) (args : A) (w : Debounced)
    : Debounced :=
  let ts := clearTimeout (db_timeout w) (db_timers w) in
  mkDebounced (Some (db_nextId w))
    (ts ++ [mkWrapperTimer (db_nextId w) (now + wait) args])
    (S (db_nextId w)) (db_calls w).

(** [later], run at time [now] with the arguments it has captured. *)
Definition later (now : N) (args : A) (w : Debounced) : Debounced :=
  mkDebounced (db_timeout w) (clearTimeout (db_timeout w) (db_timers w))
    (db_nextId w) (db_calls w ++ [(now, args)]).

(** Time passes until [now]: the timers due by then fire, each at its due
    time. *)
Fixpoint debouncedUntil (fuel : nat) (now : N) (w : Debounced) : Debounced :=
  match fuel with
  | O => w
  | S fuel' =>
      match earliest (db_timers w) with
      | Some (t, rest) =>
          if wt_due t <=? now then
            debouncedUntil fuel' now
              (later (wt_due t) (wt_args t)
                 (mkDebounced (db_timeout w) rest (db_nextId w) (db_calls w)))
          else w
      | None => w
      end
  end.

Definition debouncedAt (now : N) (w : Debounced) : Debounced :=
  debouncedUntil (length (db_timers w)) now w.

Definition debouncedRun (wait : N) (calls : list (N * A)) (w : Debounced)
    : Debounced :=
  foldl (λ w' c, executedFunction wait c.1 c.2 (debouncedAt c.1 w')) w calls.

(** [throttle(func, limit)] (lines 504-515).  Its timers are never
    cleared, so only their due times matter. *)
Record Throttled := mkThrottled {
  th_inThrottle : bool;            (* the variable [inThrottle] *)
  th_timers : list N;              (* due times of the pending resets *)
  th_calls : list (N * A);         (* calls of [func] so far: time, arguments *)
}.

(** The closure as [throttle] returns it; [undefined] is falsy. *)
Definition throttle : Throttled := mkThrottled false [] [].

(** The returned function, called at time [now]. *)
Definition throttledFunction (limit now : N) (args : A) (w : Throttled)
    : Throttled :=
  if th_inThrottle w then w
  else mkThrottled true (th_timers w ++ [now + limit])
         (th_calls w ++ [(now, args)]).

(** Time passes until [now]: each reset that is due by then runs. *)
Definition throttledAt (now : N) (w : Throttled) : Throttled :=
  match filter (λ due, due ≤ now) (th_timers w) with
  | [] => w
  | _ :: _ =>
      mkThrottled false (filter (λ due, ¬ due ≤ now) (th_timers w)) (th_calls w)
  end.

Definition throttledRun (limit : N) (calls : list (N * A)) (w : Throttled)
    : Throttled :=
  foldl (λ w' c, throttledFunction limit c.1 c.2 (throttledAt c.1 w')) w calls.

End wrappers.

Arguments WrapperTimer : clear implicits.
Arguments Debounced : clear implicits.
Arguments Throttled : clear implicits.

(** *** The browser's part in navigation *)

(** The next [n] timers fire. *)
Fixpoint fireTimers (n : nat) : M unit :=
  match n with
  | O => ret tt
  | S n' => fireNextTimer >> fireTimers n'
  end.

(** The session history is traversed to entry [i]: the address changes
    and [popstate] fires. *)
Definition traverse (i : nat) : M unit :=
  let* entries := gets historyEntries in
  match entries !! i with
  | Some f => modify (setLocation f entries i) >> dispatch onPopState
  | None => ret tt
  end.

(** What the user can do to navigate: click an element, press a key,
    resize the window, scroll, go back or forward.  Resizing and scrolling
    stand for the debounced handler running. *)
Inductive Event : Type :=
| Click (target : nat)
| KeyDown (key : jsstring)
| Resize (innerWidth : N)
| Scroll (pageYOffset : Q)
| Back
| Forward.

Definition handle (hasAttributeHref : nat → bool) (ev : Event) : M unit :=
  match ev with
  | Click target => click hasAttributeHref target
  | KeyDown key => dispatch (onKeyDown key)
  | Resize w => dispatch (handleResize w)
  | Scroll y => dispatch (handleScroll y)
  | Back =>
      let* i := gets historyIndex in
      match i with O => ret tt | S j => traverse j end
  | Forward =>
      let* i := gets historyIndex in
      traverse (S i)
  end.

Fixpoint handleAll (hasAttributeHref : nat → bool) (evs : list Event) : M unit :=
  match evs with
  | [] => ret tt
  | ev :: evs' => handle hasAttributeHref ev >> handleAll hasAttributeHref evs'
  end.

(** ** Vocabulary of the further properties *)

Definition widthOf (d : Document) (n : nat) : jsstring :=
  from_option el_width [] (d !! n).

(** The skill bars, and the width a bar is animated to. *)
Definition skillBars (d : Document) : list nat :=
  documentQuerySelectorAll (SelClass (lit "skill-progress")) d.
Definition barTarget (d : Document) (bar : nat) : jsstring :=
  default (lit "null") (d !! bar ≫= el_dataProgress) ++ lit "%".

(** [pages] is what [.page] selects, as it is from script start on as long
    as no element gains or loses the class. *)
Definition pagesCurrent (s : State) : bool :=
  bool_decide (pages s = documentQuerySelectorAll (SelClass (lit "page")) (doc s)).

(** The time of the first of [calls], or [finish] when there is none. *)
Definition nextTime {A} (calls : list (N * A)) (finish : N) : N :=
  match calls with (t, _) :: _ => t | [] => finish end.

(** What a debounced function calls [func] for: the calls that no other
    call follows within [wait], each [wait] after it was made and with its
    own arguments.  [finish] is the time up to which the timers have run. *)
Fixpoint quietCalls {A} (wait : N) (calls : list (N * A)) (finish : N)
    : list (N * A) :=
  match calls with
  | [] => []
  | (t, a) :: rest =>
      (if t + wait <=? nextTime rest finish then [(t + wait, a)] else [])
      ++ quietCalls wait rest finish
  end.

(** The call of [func] that the pending timers lead to by the time
    [next]. *)
Definition dueCall {A} (ts : list (WrapperTimer A)) (next : N) : list (N * A) :=
  match ts with
  | [t] => if wt_due t <=? next then [(wt_due t, wt_args t)] else []
  | _ => []
  end.

(** The calls that a throttled function lets through: the first one, and
    then each one made [limit] or more after the last that went through. *)
Fixpoint leadingCalls {A} (limit : N) (blockedUntil : option N)
    (calls : list (N * A)) : list (N * A) :=
  match calls with
  | [] => []
  | (t, a) :: rest =>
      if from_option (λ due, due <=? t) true blockedUntil
      then (t, a) :: leadingCalls limit (Some (t + limit)) rest
      else leadingCalls limit blockedUntil rest
  end.

(** Successive times are [gap] or more apart. *)
Fixpoint spaced {A} (gap : N) (calls : list (N * A)) : Prop :=
  match calls with
  | (t, _) :: (((t', _) :: _) as rest) => t + gap ≤ t' ∧ spaced gap rest
  | _ => True
  end.

(** Each call is followed by the next one in less than [wait]. *)
Fixpoint burst {A} (wait : N) (calls : list (N * A)) : bool :=
  match calls with
  | (t, _) :: (((t', _) :: _) as rest) => (t' <? t + wait) && burst wait rest
  | _ => true
  end.

(** The toggle and the menu are two elements of the document. *)
Definition menuRefsOk (s : State) : bool :=
  match mobileToggle s, navMenu s with
  | Some t, Some m =>
      bool_decide (t ≠ m) && bool_decide (t < length (doc s))%nat
      && bool_decide (m < length (doc s))%nat
  | _, _ => true
  end.

(** The toggle and the menu agree on being open. *)
Definition menuInSync (s : State) : bool :=
  match mobileToggle s, navMenu s with
  | Some t, Some m =>
      bool_decide (hasClass (lit "active") (doc s) t
                   = hasClass (lit "active") (doc s) m)
  | _, _ => true
  end.

(** The current history entry is the address, and every entry is the
    empty fragment or a page id. *)
Definition historyOk (s : State) : bool :=
  bool_decide (historyEntries s !! historyIndex s = Some (fragment s))
  && forallb (λ f, bool_decide (f ∈ [] :: pageMap)) (historyEntries s).

(** Every element with an [href] that has a [data-page] value has one of
    the page ids. *)
Definition hrefsOk (hasAttributeHref : nat → bool) (s : State) : bool :=
  forallb (λ n, negb (hasAttributeHref n) || inPageMap (dataPageOf (doc s) n))
    (nodes (doc s)).

(** A field has a form group and an error element that holds text only. *)
Definition equipped (d : Document) (x : nat) : bool :=
  match groupOf d x, errorOf d x with
  | Some _, Some e => isLeaf d e
  | _, _ => false
  end.

(** [n] is the toggle or the menu, where both exist. *)
Definition closedByMenu (s : State) (n : nat) : bool :=
  match mobileToggle s, navMenu s with
  | Some t, Some m => bool_decide (n = t) || bool_decide (n = m)
  | _, _ => false
  end.

(** The user has typed: the control [x] holds the value [v]. *)
Definition typeInto (x : nat) (v : jsstring) (s : State) : State :=
  setDoc (alter (setValue v) x (doc s)) s.

(** At most one [later] is waiting, and [timeout] holds its id. *)
Definition oneTimer {A} (w : Debounced A) : Prop :=
  db_timers w = [] ∨ ∃ t, db_timers w = [t] ∧ db_timeout w = Some (wt_id t).

(** [inThrottle] is set exactly while a reset is waiting, and there is at
    most one. *)
Definition oneReset {A} (w : Throttled A) : Prop :=
  (th_inThrottle w = false ∧ th_timers w = []) ∨
  (th_inThrottle w = true ∧ ∃ due, th_timers w = [due]).

(** The state of a site whose navigation works: the document has the
    navigation structure, the menu toggle and the menu agree, the session
    history holds page ids only, and the page that the address names, with
    its link, is the one that is active. *)
Definition navigationOk (hasAttributeHref : nat → bool) (s : State) : Prop :=
  navOk s = true ∧ pageIdsOnly s = true ∧ hrefsOk hasAttributeHref s = true ∧
  menuRefsOk s = true ∧ menuInSync s = true ∧ historyOk s = true ∧
  onlyActive (hashOrHome s) s.

(** ** Further sample documents *)

(** A page with an open menu and no toggle. *)
Definition menuOnlyPage : Document :=
  [ setParent None (node "html" 0 []);
    identified "navMenu" (node "ul" 0 ["nav-menu"; "active"])
  ]%string.

(** A form with one group, holding a control of the given name and value
    and the error element that goes with the name. *)
Definition singleFieldForm (name : string) (value : jsstring) : Document :=
  [ setParent None (node "html" 0 []);
    identified "contactForm" (node "form" 0 []);
    node "div" 1 ["form-group"];
    control name value (node "input" 2 []);
    identified (name ++ "Error") (node "span" 2 ["error-message"])
  ]%string.

(** The elements of the sample page that carry an [href]: the four
    navigation links and the call-to-action link. *)
Definition sampleHrefs (n : nat) : bool :=
  bool_decide (n ∈ [5; 6; 7; 8; 10]%nat).

(** The state that a computation returns; [s] where it does not return. *)
Definition stateAfter {A} (m : M A) (s : State) : State :=
  match m s with
  | Normal _ s' => s'
  | _ => s
  end.
(** * Properties

    ** Strings and patterns *)

Lemma matchRep_spec cls lo hi k s :
  matchRep cls lo hi k s = true ↔
  ∃ a b, s = a ++ b ∧ forallb cls a = true ∧ (lo ≤ length a)%nat ∧
         (∀ h, hi = Some h → (length a ≤ h)%nat) ∧ k b = true.
Proof.
  revert lo hi. induction s as [|c s IH]; intros lo hi; simpl.
  - rewrite andb_true_iff, Nat.eqb_eq. split.
    + intros [-> Hk]. exists [], []. simpl. repeat split; auto. intros; lia.
    + intros (a & b & Hs & _ & Hlo & _ & Hk).
      symmetry in Hs. apply app_eq_nil in Hs as [-> ->]. simpl in Hlo.
      split; [lia | done].
  - rewrite orb_true_iff, !andb_true_iff, Nat.eqb_eq, IH. split.
    + intros [[[Hm Hc] (a & b & -> & Ha & Hlo & Hhi & Hk)] | [-> Hk]].
      * exists (c :: a), b. simpl. rewrite Hc, Ha. repeat split; auto; try lia.
        intros h ->. destruct h as [|h]; [done|].
        specialize (Hhi h eq_refl). lia.
      * exists [], (c :: s). simpl. repeat split; auto. intros; lia.
    + intros (a & b & Hs & Ha & Hlo & Hhi & Hk). destruct a as [|c' a].
      * simpl in *. subst b. right. split; [lia | done].
      * simpl in *. injection Hs as -> ->.
        apply andb_true_iff in Ha as [Hc Ha]. left. split.
        -- split; [|done]. destruct hi as [[|h]|]; simpl; auto.
           specialize (Hhi 0%nat eq_refl). lia.
        -- exists a, b. repeat split; auto; try lia.
           intros h Hh. destruct hi as [h'|]; simpl in Hh; [|done].
           injection Hh as <-. specialize (Hhi h' eq_refl). lia.
Qed.

(** ** Classes *)

Lemma hasClass_alter_class g c n m (d : Document) :
  hasClass c (alter (λ e, setClass (g (el_class e)) e) n d) m =
  if bool_decide (n = m)
  then from_option (λ e, bool_decide (c ∈ g (el_class e))) false (d !! m)
  else hasClass c d m.
Proof.
  unfold hasClass. case_bool_decide as Hnm.
  - subst m. rewrite list_lookup_alter_eq. by destruct (d !! n).
  - by rewrite list_lookup_alter_ne.
Qed.

Lemma hasClass_add c c' n m (d : Document) :
  hasClass c' (classListAdd c n d) m =
  hasClass c' d m
  || (bool_decide (c' = c) && bool_decide (m = n) && bool_decide (m < length d)%nat).
Proof.
  unfold classListAdd.
  rewrite (hasClass_alter_class (addToken c)).
  unfold hasClass, addToken. case_bool_decide as Hnm.
  - subst m. destruct (d !! n) as [e|] eqn:He; simpl.
    + apply lookup_lt_Some in He.
      rewrite (bool_decide_eq_true_2 (n = n)), (bool_decide_eq_true_2 (n < _)%nat)
        by done.
      rewrite andb_true_r.
      destruct (bool_decide (c ∈ el_class e)) eqn:Hc.
      * apply bool_decide_eq_true in Hc.
        destruct (bool_decide (c' = c)) eqn:Hcc; [|by rewrite orb_false_r].
        apply bool_decide_eq_true in Hcc. subst c'.
        by rewrite bool_decide_eq_true_2.
      * apply eq_true_iff_eq.
        rewrite andb_true_r, orb_true_iff, !bool_decide_eq_true.
        by rewrite elem_of_app, list_elem_of_singleton.
    + apply lookup_ge_None in He.
      rewrite (bool_decide_eq_false_2 (n < _)%nat) by lia.
      by rewrite andb_false_r.
  - rewrite (bool_decide_eq_false_2 (m = n)) by done.
    by rewrite andb_false_r, orb_false_r.
Qed.

Lemma hasClass_remove c c' n m (d : Document) :
  hasClass c' (classListRemove c n d) m =
  hasClass c' d m && negb (bool_decide (c' = c) && bool_decide (m = n)).
Proof.
  unfold classListRemove.
  rewrite (hasClass_alter_class (removeToken c)).
  unfold hasClass, removeToken. case_bool_decide as Hnm.
  - subst m. rewrite (bool_decide_eq_true_2 (n = n)) by done.
    rewrite andb_true_r. destruct (d !! n) as [e|]; simpl; [|done].
    apply eq_true_iff_eq.
    rewrite andb_true_iff, negb_true_iff, !bool_decide_eq_true,
      bool_decide_eq_false, list_elem_of_filter. tauto.
  - rewrite (bool_decide_eq_false_2 (m = n)) by done.
    by rewrite andb_false_r, andb_true_r.
Qed.

Lemma length_classListAdd c n (d : Document) :
  length (classListAdd c n d) = length d.
Proof. apply length_alter. Qed.

Lemma length_classListRemove c n (d : Document) :
  length (classListRemove c n d) = length d.
Proof. apply length_alter. Qed.

Lemma length_forEachNode f ns (d : Document) :
  (∀ n d', length (f n d') = length d') →
  length (forEachNode f ns d) = length d.
Proof.
  intros Hf. revert d. induction ns as [|n ns IH]; intros d; simpl; [done|].
  unfold forEachNode in *. simpl. by rewrite IH, Hf.
Qed.

Lemma hasClass_removeAll c c' ns m (d : Document) :
  hasClass c' (forEachNode (classListRemove c) ns d) m =
  hasClass c' d m && negb (bool_decide (c' = c) && bool_decide (m ∈ ns)).
Proof.
  revert d. induction ns as [|n ns IH]; intros d.
  - unfold forEachNode. simpl. by rewrite andb_false_r, andb_true_r.
  - unfold forEachNode in *. simpl. rewrite IH, hasClass_remove.
    destruct (hasClass c' d m); simpl; [|done].
    destruct (bool_decide (c' = c)); simpl; [|done].
    apply eq_true_iff_eq.
    rewrite andb_true_iff, !negb_true_iff, !bool_decide_eq_false, elem_of_cons.
    tauto.
Qed.

(** ** Queries depend on the skeleton only *)

Lemma skeleton_lookup (d d' : Document) n :
  sameSkeleton d d' → skeleton <$> (d !! n) = skeleton <$> (d' !! n).
Proof. intros H. by rewrite <-!list_lookup_fmap, H. Qed.

Lemma skeleton_length (d d' : Document) :
  sameSkeleton d d' → length d = length d'.
Proof.
  intros H. by rewrite <-(length_fmap skeleton d), H, length_fmap.
Qed.

Lemma skeleton_refl (d : Document) : sameSkeleton d d.
Proof. done. Qed.

Lemma skeleton_trans (d1 d2 d3 : Document) :
  sameSkeleton d1 d2 → sameSkeleton d2 d3 → sameSkeleton d1 d3.
Proof. unfold sameSkeleton. congruence. Qed.

Lemma skeleton_alter f n (d : Document) :
  (∀ e, skeleton (f e) = skeleton e) → sameSkeleton d (alter f n d).
Proof.
  intros Hf. unfold sameSkeleton.
  rewrite (list_fmap_alter skeleton f id)
    by (apply Forall_forall; intros e _; apply Hf).
  by rewrite list_alter_id.
Qed.

Lemma skeleton_classListAdd c n (d : Document) :
  sameSkeleton d (classListAdd c n d).
Proof. unfold classListAdd. by apply skeleton_alter. Qed.

Lemma skeleton_classListRemove c n (d : Document) :
  sameSkeleton d (classListRemove c n d).
Proof. unfold classListRemove. by apply skeleton_alter. Qed.

Lemma skeleton_forEachNode f ns (d : Document) :
  (∀ n d', sameSkeleton d' (f n d')) → sameSkeleton d (forEachNode f ns d).
Proof.
  intros Hf. revert d. induction ns as [|n ns IH]; intros d; [done|].
  unfold forEachNode in *. simpl. eapply skeleton_trans; [apply Hf | apply IH].
Qed.

Section skeleton.
Context (d d' : Document) (Hsk : sameSkeleton d d').

Lemma skeleton_parentOf n : parentOf d n = parentOf d' n.
Proof.
  unfold parentOf. pose proof (skeleton_lookup d d' n Hsk) as H.
  destruct (d !! n), (d' !! n); simpl in *; try done. by injection H.
Qed.

Lemma skeleton_idOf n : idOf d n = idOf d' n.
Proof.
  unfold idOf. pose proof (skeleton_lookup d d' n Hsk) as H.
  destruct (d !! n), (d' !! n); simpl in *; try done. by injection H.
Qed.

Lemma skeleton_dataPageOf n : dataPageOf d n = dataPageOf d' n.
Proof.
  unfold dataPageOf. pose proof (skeleton_lookup d d' n Hsk) as H.
  destruct (d !! n), (d' !! n); simpl in *; try done. by injection H.
Qed.

Lemma skeleton_tagOf n : tagOf d n = tagOf d' n.
Proof.
  unfold tagOf. pose proof (skeleton_lookup d d' n Hsk) as H.
  destruct (d !! n), (d' !! n); simpl in *; try done. by injection H.
Qed.

Lemma skeleton_hasId x n :
  from_option (hasId x) false (d !! n) = from_option (hasId x) false (d' !! n).
Proof.
  pose proof (skeleton_lookup d d' n Hsk) as H. unfold hasId.
  destruct (d !! n) as [e|], (d' !! n) as [e'|]; simpl in *; try done.
  injection H as _ _ -> _ _. done.
Qed.

Lemma skeleton_ancestorsUpTo fuel n :
  ancestorsUpTo fuel d n = ancestorsUpTo fuel d' n.
Proof.
  revert n. induction fuel as [|fuel IH]; intros n; simpl; [done|].
  rewrite skeleton_parentOf. destruct (parentOf d' n); [|done]. by rewrite IH.
Qed.

Lemma skeleton_ancestors n : ancestors d n = ancestors d' n.
Proof.
  unfold ancestors. rewrite (skeleton_length d d' Hsk).
  apply skeleton_ancestorsUpTo.
Qed.

Lemma skeleton_isConnected n : isConnected d n = isConnected d' n.
Proof. unfold isConnected. by rewrite skeleton_ancestors. Qed.

Lemma skeleton_isDescendant r n : isDescendant d r n = isDescendant d' r n.
Proof. unfold isDescendant. by rewrite skeleton_ancestors. Qed.

Lemma skeleton_nodes : nodes d = nodes d'.
Proof. unfold nodes. by rewrite (skeleton_length d d' Hsk). Qed.

Lemma skeleton_getElementById x : getElementById x d = getElementById x d'.
Proof.
  unfold getElementById. rewrite skeleton_nodes. f_equal.
  apply list_filter_iff. intros n.
  by rewrite skeleton_isConnected, skeleton_hasId.
Qed.

(** A query gives the same nodes when the selector matches the same
    elements. *)
Lemma skeleton_documentQuerySelectorAll sel :
  (∀ n, matchesAt d sel n = matchesAt d' sel n) →
  documentQuerySelectorAll sel d = documentQuerySelectorAll sel d'.
Proof.
  intros Hm. unfold documentQuerySelectorAll. rewrite skeleton_nodes.
  apply list_filter_iff. intros n. by rewrite skeleton_isConnected, Hm.
Qed.

Lemma skeleton_elementQuerySelectorAll r sel :
  (∀ n, matchesAt d sel n = matchesAt d' sel n) →
  elementQuerySelectorAll r sel d = elementQuerySelectorAll r sel d'.
Proof.
  intros Hm. unfold elementQuerySelectorAll. rewrite skeleton_nodes.
  apply list_filter_iff. intros n. by rewrite skeleton_isDescendant, Hm.
Qed.

Lemma skeleton_closest sel n :
  (∀ n, matchesAt d sel n = matchesAt d' sel n) →
  closest sel d n = closest sel d' n.
Proof.
  intros Hm. unfold closest. rewrite skeleton_ancestors. f_equal.
  apply list_filter_iff. intros a. by rewrite Hm.
Qed.

Lemma skeleton_matches_dataPage v n :
  matchesAt d (SelDataPage v) n = matchesAt d' (SelDataPage v) n.
Proof.
  unfold matchesAt. pose proof (skeleton_lookup d d' n Hsk) as H.
  destruct (d !! n) as [e|], (d' !! n) as [e'|]; simpl in *; try done.
  injection H as _ _ _ _ ->. done.
Qed.

Lemma skeleton_matches_field n :
  matchesAt d fieldSel n = matchesAt d' fieldSel n.
Proof.
  unfold matchesAt. pose proof (skeleton_lookup d d' n Hsk) as H.
  destruct (d !! n) as [e|], (d' !! n) as [e'|]; simpl in *; try done.
  injection H as -> _ _ _ _. done.
Qed.

Lemma skeleton_querySelector_dataPage v :
  documentQuerySelector (SelDataPage v) d = documentQuerySelector (SelDataPage v) d'.
Proof.
  unfold documentQuerySelector. f_equal.
  apply skeleton_documentQuerySelectorAll, skeleton_matches_dataPage.
Qed.

End skeleton.

(** ** Interpolated selectors *)

Lemma stripPrefix_app p s : stripPrefix p (p ++ s) = Some s.
Proof. induction p as [|a p IH]; simpl; [done|]. by rewrite N.eqb_refl. Qed.

Lemma spanPlain_app v rest :
  isPlain v = true →
  match rest with [] => True | c :: _ => isPlainChar c = false end →
  spanPlain (v ++ rest) = (v, rest).
Proof.
  intros Hv Hrest. induction v as [|c v IH]; simpl.
  - destruct rest as [|c rest]; [done|]. simpl. by rewrite Hrest.
  - simpl in Hv. apply andb_true_iff in Hv as [Hc Hv].
    rewrite Hc, IH; done.
Qed.

(** A plain value gives the attribute selector the template intends. *)
Lemma parseSelector_plain v :
  isPlain v = true →
  parseSelector (dataPageSelectorText v) = Parsed (SelDataPage v).
Proof.
  intros Hv. unfold parseSelector, dataPageSelectorText.
  rewrite app_assoc, stripPrefix_app, spanPlain_app; done.
Qed.

Lemma isPlain_pageMap id : id ∈ pageMap → isPlain id = true.
Proof.
  unfold pageMap. rewrite !elem_of_cons, elem_of_nil.
  intros [->|[->|[->|[->|[]]]]]; reflexivity.
Qed.

(** ** Activation *)

Lemma skeleton_deactivated s : sameSkeleton (doc s) (deactivated s).
Proof.
  unfold deactivated.
  eapply skeleton_trans; apply skeleton_forEachNode;
    intros; apply skeleton_classListRemove.
Qed.

Lemma skeleton_addActive o (d : Document) : sameSkeleton d (addActive o d).
Proof. destruct o; [apply skeleton_classListAdd | done]. Qed.

Lemma skeleton_closeMenu s (d : Document) : sameSkeleton d (closeMenu s d).
Proof.
  unfold closeMenu. destruct (mobileToggle s), (navMenu s); try done.
  eapply skeleton_trans; apply skeleton_classListRemove.
Qed.

Lemma skeleton_activated t l s :
  sameSkeleton (doc s) (addActive l (addActive t (deactivated s))).
Proof.
  eapply skeleton_trans; [apply skeleton_deactivated|].
  eapply skeleton_trans; apply skeleton_addActive.
Qed.

Lemma slice1_locationHash s : slice1 (locationHash s) = fragment s.
Proof. unfold locationHash, slice1. by destruct (fragment s). Qed.

(** What [navigateToPage] does when the selector text is well formed. *)
Lemma navigateToPage_plain id s :
  isPlain id = true →
  ∃ s', navigateToPage id s = Normal tt s' ∧
    doc s' = closeMenu s
               (addActive (documentQuerySelector (SelDataPage id) (doc s))
                  (addActive (getElementById id (doc s)) (deactivated s))) ∧
    pages s' = pages s ∧ navLinks s' = navLinks s ∧
    mobileToggle s' = mobileToggle s ∧ navMenu s' = navMenu s ∧
    scroll s' = Some ScrollToTop ∧
    fragment s' = (if streq (fragment s) id then fragment s else urlFragment id) ∧
    historyEntries s' =
      (if streq (fragment s) id then historyEntries s
       else take (S (historyIndex s)) (historyEntries s) ++ [urlFragment id]) ∧
    historyIndex s' =
      (if streq (fragment s) id then historyIndex s else S (historyIndex s)) ∧
    timers s' =
      (if streq id (lit "about") then timers s ++ [(clock s + 300, AnimateSkills)]
       else timers s).
Proof.
  intros Hp.
  assert (Hq : ∀ t, documentQuerySelector (SelDataPage id)
                       (addActive t (deactivated s))
                     = documentQuerySelector (SelDataPage id) (doc s)).
  { intros t. symmetry. apply skeleton_querySelector_dataPage.
    eapply skeleton_trans; [apply skeleton_deactivated | apply skeleton_addActive]. }
  pose proof (skeleton_getElementById _ _ (skeleton_deactivated s) id) as Hg.
  unfold navigateToPage, deactivateAll, querySelectorText.
  rewrite parseSelector_plain by done.
  unfold bind, gets, modifyDoc, modify, whenSome, when, ret. cbn.
  fold (deactivated s). rewrite <-Hg.
  unfold closeMenu.
  destruct (getElementById id (doc s)) as [p|]; cbn;
  [change (classListAdd (lit "active") p (deactivated s))
      with (addActive (Some p) (deactivated s))
  |change (deactivated s) with (addActive None (deactivated s)) at 1];
  rewrite Hq;
    (destruct (documentQuerySelector (SelDataPage id) (doc s)) as [l|]; cbn;
    destruct (mobileToggle s) as [t|] eqn:Ht, (navMenu s) as [m|] eqn:Hm; cbn;
    rewrite ?slice1_locationHash; cbn;
    destruct (streq (fragment s) id) eqn:Hf; cbn;
    destruct (streq id (lit "about")) eqn:Ha; cbn;
    (eexists; split; [reflexivity|]; cbn; rewrite ?Ht, ?Hm, ?Hf, ?Ha;
     repeat split; done)).
Qed.
(** ** Results of the queries *)

Lemma head_filter_Some {A} (P : A → Prop) `{∀ x, Decision (P x)} l x :
  head (filter P l) = Some x → P x ∧ x ∈ l.
Proof. intros H'. apply head_Some_elem_of in H'. by apply list_elem_of_filter in H'. Qed.

Lemma elem_of_nodes (d : Document) n : n ∈ nodes d ↔ (n < length d)%nat.
Proof. unfold nodes. rewrite elem_of_seq. lia. Qed.

Lemma getElementById_Some x (d : Document) n :
  getElementById x d = Some n → (n < length d)%nat ∧ idOf d n = Some x.
Proof.
  unfold getElementById. intros H. apply head_filter_Some in H as [H Hn].
  apply elem_of_nodes in Hn. split; [done|].
  apply andb_prop_elim in H as [_ H]. unfold idOf.
  destruct (d !! n) as [e|]; simpl in *; [|done].
  unfold hasId in H. apply andb_prop_elim in H as [H _].
  by apply bool_decide_unpack in H.
Qed.

Lemma querySelector_dataPage_Some v (d : Document) n :
  documentQuerySelector (SelDataPage v) d = Some n →
  (n < length d)%nat ∧ dataPageOf d n = Some v.
Proof.
  unfold documentQuerySelector, documentQuerySelectorAll. intros H.
  apply head_filter_Some in H as [H Hn].
  apply elem_of_nodes in Hn. split; [done|].
  apply andb_prop_elim in H as [_ H]. unfold dataPageOf, matchesAt in *.
  destruct (d !! n) as [e|]; simpl in *; [|done].
  by apply bool_decide_unpack in H.
Qed.

(** ** The [active] class after an activation *)

Lemma hasClass_deactivated s n :
  n ∈ pages s ++ navLinks s → hasClass (lit "active") (deactivated s) n = false.
Proof.
  intros Hn. unfold deactivated. rewrite !hasClass_removeAll.
  rewrite !(bool_decide_eq_true_2 (lit "active" = lit "active")) by done.
  apply elem_of_app in Hn as [Hn|Hn].
  - rewrite (bool_decide_eq_true_2 (n ∈ pages s)) by done.
    simpl. by rewrite andb_false_r.
  - rewrite (bool_decide_eq_true_2 (n ∈ navLinks s)) by done.
    simpl. by rewrite andb_false_r.
Qed.

Lemma hasClass_addActive o (d : Document) n :
  (∀ m, o = Some m → (m < length d)%nat) →
  hasClass (lit "active") (addActive o d) n =
  hasClass (lit "active") d n || bool_decide (o = Some n).
Proof.
  intros Hv. destruct o as [m|]; simpl.
  - rewrite hasClass_add. f_equal.
    rewrite (bool_decide_eq_true_2 (lit "active" = lit "active")) by done.
    simpl. destruct (decide (n = m)) as [->|Hne].
    + rewrite !bool_decide_eq_true_2; auto.
    + rewrite (bool_decide_eq_false_2 (n = m)) by done.
      rewrite (bool_decide_eq_false_2 (Some m = Some n)); [done | congruence].
  - by rewrite orb_false_r.
Qed.

Lemma length_addActive o (d : Document) : length (addActive o d) = length d.
Proof. destruct o; [apply length_classListAdd | done]. Qed.

Lemma hasClass_closeMenu s (d : Document) n :
  mobileToggle s ≠ Some n → navMenu s ≠ Some n →
  hasClass (lit "active") (closeMenu s d) n = hasClass (lit "active") d n.
Proof.
  intros Ht Hm. unfold closeMenu.
  destruct (mobileToggle s) as [t|], (navMenu s) as [m|]; try done.
  rewrite !hasClass_remove.
  rewrite (bool_decide_eq_false_2 (n = m)), (bool_decide_eq_false_2 (n = t))
    by congruence.
  by rewrite !andb_false_r, !andb_true_r.
Qed.

(** The pages and links that are active after the three steps. *)
Lemma hasClass_activated t l s n :
  (∀ m, t = Some m → (m < length (doc s))%nat) →
  (∀ m, l = Some m → (m < length (doc s))%nat) →
  n ∈ pages s ++ navLinks s →
  hasClass (lit "active") (addActive l (addActive t (deactivated s))) n =
  bool_decide (t = Some n) || bool_decide (l = Some n).
Proof.
  intros Ht Hl Hn.
  assert (length (deactivated s) = length (doc s)) as Hlen.
  { symmetry. apply skeleton_length, skeleton_deactivated. }
  rewrite !hasClass_addActive, hasClass_deactivated; try done.
  - intros m Hm. rewrite Hlen. auto.
  - intros m Hm. rewrite length_addActive, Hlen. auto.
Qed.

Lemma filter_none {A} (P : A → Prop) `{∀ x, Decision (P x)} (l : list A) :
  (∀ n, n ∈ l → ¬ P n) → filter P l = [].
Proof.
  intros HP. induction l as [|a l IH]; [done|].
  rewrite filter_cons, decide_False by (apply HP; left).
  apply IH. intros n Hn. apply HP. by right.
Qed.

Lemma filter_only {A} (P : A → Prop) `{∀ x, Decision (P x)} (l : list A) p :
  NoDup l → p ∈ l → (∀ n, n ∈ l → P n ↔ n = p) → filter P l = [p].
Proof.
  intros Hnd Hp HP. induction l as [|a l IH]; [by apply elem_of_nil in Hp|].
  pose proof (NoDup_cons_1_1 _ _ Hnd) as Ha.
  pose proof (NoDup_cons_1_2 _ _ Hnd) as Hnd'.
  rewrite filter_cons. destruct (decide (P a)) as [HPa|HPa].
  - assert (a = p) as -> by (apply HP; [left|done]). f_equal.
    apply filter_none. intros n Hn HPn.
    apply HP in HPn; [|by right]. by subst n.
  - assert (a ≠ p) as Hne by (intros ->; apply HPa, HP; [left|done]).
    apply IH; [done| |].
    + apply elem_of_cons in Hp as [->|Hp]; done.
    + intros n Hn. apply HP. by right.
Qed.

Lemma forallb_ext_in {A} (f g : A → bool) l :
  (∀ x, x ∈ l → f x = g x) → forallb f l = forallb g l.
Proof.
  induction l as [|a l IH]; intros H; simpl; [done|].
  rewrite H by left. f_equal. apply IH. intros x Hx. apply H. by right.
Qed.

(** ** The navigation structure *)

Lemma navOk_spec s :
  navOk s = true →
  NoDup (pages s) ∧ NoDup (navLinks s) ∧
  (∀ n, n ∈ pages s → n ∉ navLinks s) ∧
  (∀ n, n ∈ pages s ++ navLinks s →
        mobileToggle s ≠ Some n ∧ navMenu s ≠ Some n) ∧
  (∀ id, id ∈ pageMap →
     ∃ p l, getElementById id (doc s) = Some p ∧ p ∈ pages s ∧
            documentQuerySelector (SelDataPage id) (doc s) = Some l ∧
            l ∈ navLinks s).
Proof.
  unfold navOk. rewrite !andb_true_iff, !bool_decide_eq_true.
  rewrite !forallb_forall.
  intros [[[[H1 H2] H3] H4] H5]. repeat split; try done.
  - intros n Hn. apply list_elem_of_In, H3 in Hn.
    by apply bool_decide_eq_true in Hn.
  - apply list_elem_of_In, H4 in H. apply andb_true_iff in H as [H _].
    by apply bool_decide_eq_true in H.
  - apply list_elem_of_In, H4 in H. apply andb_true_iff in H as [_ H].
    by apply bool_decide_eq_true in H.
  - intros id Hid. apply list_elem_of_In, H5 in Hid.
    apply andb_true_iff in Hid as [Hp Hl].
    destruct (getElementById id (doc s)) as [p|]; [|done].
    destruct (documentQuerySelector (SelDataPage id) (doc s)) as [l|]; [|done].
    simpl in *. apply bool_decide_eq_true in Hp, Hl. by exists p, l.
Qed.

Lemma pageIdsOnly_spec s :
  pageIdsOnly s = true →
  ∀ n x, n ∈ pages s ++ navLinks s →
         idOf (doc s) n = Some x ∨ dataPageOf (doc s) n = Some x →
         x ∈ pageMap.
Proof.
  unfold pageIdsOnly. rewrite forallb_forall.
  intros H n x Hn Hx. apply list_elem_of_In, H in Hn.
  apply andb_true_iff in Hn as [Hi Hd].
  destruct Hx as [Hx|Hx]; rewrite Hx in *; simpl in *;
    by apply bool_decide_eq_true in Hi || apply bool_decide_eq_true in Hd.
Qed.

Lemma navOk_ext s s' :
  sameSkeleton (doc s) (doc s') →
  pages s' = pages s → navLinks s' = navLinks s →
  mobileToggle s' = mobileToggle s → navMenu s' = navMenu s →
  navOk s' = navOk s.
Proof.
  intros Hsk Hp Hl Ht Hm. unfold navOk. rewrite Hp, Hl, Ht, Hm.
  f_equal. apply forallb_ext_in. intros id _.
  by rewrite (skeleton_getElementById _ _ Hsk),
             (skeleton_querySelector_dataPage _ _ Hsk).
Qed.

(** Activation of a page and a link: what is active afterwards. *)
Lemma activated_onlyActive id s s' p l :
  navOk s = true →
  getElementById id (doc s) = Some p → p ∈ pages s →
  documentQuerySelector (SelDataPage id) (doc s) = Some l → l ∈ navLinks s →
  pages s' = pages s → navLinks s' = navLinks s →
  sameSkeleton (doc s) (doc s') →
  (∀ n, n ∈ pages s ++ navLinks s →
        hasClass (lit "active") (doc s') n =
        bool_decide (Some p = Some n) || bool_decide (Some l = Some n)) →
  onlyActive id s'.
Proof.
  intros Hok Hp Hpin Hl Hlin Hpages Hlinks Hsk Hact.
  apply navOk_spec in Hok as (Hnd1 & Hnd2 & Hdisj & _ & _).
  apply getElementById_Some in Hp as [_ Hp].
  apply querySelector_dataPage_Some in Hl as [_ Hl].
  exists p, l. unfold activePages, activeLinks. rewrite Hpages, Hlinks.
  rewrite <-(skeleton_idOf _ _ Hsk), <-(skeleton_dataPageOf _ _ Hsk).
  repeat split; try done.
  - apply filter_only; [done..|]. intros n Hn.
    rewrite Hact by (apply elem_of_app; by left).
    rewrite Is_true_true, orb_true_iff, !bool_decide_eq_true. split.
    + intros [?|?]; [congruence|]. assert (n = l) as -> by congruence.
      by apply Hdisj in Hn.
    + intros ->. by left.
  - apply filter_only; [done..|]. intros n Hn.
    rewrite Hact by (apply elem_of_app; by right).
    rewrite Is_true_true, orb_true_iff, !bool_decide_eq_true. split.
    + intros [?|?]; [|congruence]. assert (n = p) as -> by congruence.
      by apply Hdisj in Hpin.
    + intros ->. by right.
Qed.

(** Activation with lookups that hit neither a page nor a link. *)
Lemma activated_nothingActive s s' t l :
  pages s' = pages s → navLinks s' = navLinks s →
  (∀ n, n ∈ pages s ++ navLinks s →
        hasClass (lit "active") (doc s') n = true → t = Some n ∨ l = Some n) →
  (∀ n, n ∈ pages s ++ navLinks s → t ≠ Some n ∧ l ≠ Some n) →
  activePages s' = [] ∧ activeLinks s' = [].
Proof.
  intros Hpages Hlinks Hact Hmiss. unfold activePages, activeLinks.
  rewrite Hpages, Hlinks.
  split; apply filter_none; intros n Hn Hcl; apply Is_true_true in Hcl;
    (assert (n ∈ pages s ++ navLinks s) as Hn' by (apply elem_of_app; auto));
    destruct (Hmiss n Hn') as [Ht Hl]; destruct (Hact n Hn' Hcl); done.
Qed.

(** Where only page ids address pages and links, a value outside the
    page ids addresses neither a page nor a link. *)
Lemma unknown_id_misses id s n :
  pageIdsOnly s = true → id ∉ pageMap → n ∈ pages s ++ navLinks s →
  getElementById id (doc s) ≠ Some n ∧
  documentQuerySelector (SelDataPage id) (doc s) ≠ Some n.
Proof.
  intros Hok Hid Hn. pose proof (pageIdsOnly_spec s Hok) as Hattr.
  split; intros H.
  - apply getElementById_Some in H as [_ H]. apply Hid. eapply Hattr; eauto.
  - apply querySelector_dataPage_Some in H as [_ H]. apply Hid.
    eapply Hattr; eauto.
Qed.

Lemma query_bounds id (d : Document) :
  (∀ m, getElementById id d = Some m → (m < length d)%nat) ∧
  (∀ m, documentQuerySelector (SelDataPage id) d = Some m → (m < length d)%nat).
Proof.
  split; intros m H.
  - by apply getElementById_Some in H as [? _].
  - by apply querySelector_dataPage_Some in H as [? _].
Qed.

Lemma navigated_hasClass id s s' n :
  navOk s = true →
  doc s' = closeMenu s
             (addActive (documentQuerySelector (SelDataPage id) (doc s))
                (addActive (getElementById id (doc s)) (deactivated s))) →
  n ∈ pages s ++ navLinks s →
  hasClass (lit "active") (doc s') n =
  bool_decide (getElementById id (doc s) = Some n)
  || bool_decide (documentQuerySelector (SelDataPage id) (doc s) = Some n).
Proof.
  intros Hok Hdoc Hn. rewrite Hdoc.
  pose proof Hok as Hok'.
  apply navOk_spec in Hok' as (_ & _ & _ & Hmenu & _).
  destruct (Hmenu n Hn) as [Ht Hm].
  destruct (query_bounds id (doc s)) as [Hb1 Hb2].
  rewrite hasClass_closeMenu by done.
  by apply hasClass_activated.
Qed.

Lemma hasClass_closeMenu_le s (d : Document) c n :
  hasClass c (closeMenu s d) n = true → hasClass c d n = true.
Proof.
  unfold closeMenu. destruct (mobileToggle s), (navMenu s); try done.
  rewrite !hasClass_remove. by intros [[? _]%andb_true_iff _]%andb_true_iff.
Qed.

Lemma navigated_hasClass_le id s s' n :
  doc s' = closeMenu s
             (addActive (documentQuerySelector (SelDataPage id) (doc s))
                (addActive (getElementById id (doc s)) (deactivated s))) →
  n ∈ pages s ++ navLinks s →
  hasClass (lit "active") (doc s') n = true →
  getElementById id (doc s) = Some n ∨
  documentQuerySelector (SelDataPage id) (doc s) = Some n.
Proof.
  intros Hdoc Hn Hcl. rewrite Hdoc in Hcl. apply hasClass_closeMenu_le in Hcl.
  destruct (query_bounds id (doc s)) as [Hb1 Hb2].
  rewrite hasClass_activated in Hcl by done.
  apply orb_true_iff in Hcl.
  destruct Hcl as [H|H]; apply bool_decide_eq_true in H; auto.
Qed.

Lemma navigated_skeleton id s s' :
  doc s' = closeMenu s
             (addActive (documentQuerySelector (SelDataPage id) (doc s))
                (addActive (getElementById id (doc s)) (deactivated s))) →
  sameSkeleton (doc s) (doc s').
Proof.
  intros ->. eapply skeleton_trans; [apply skeleton_activated|].
  apply skeleton_closeMenu.
Qed.

(** C1.  In a document with the expected navigation structure,
    [navigateToPage] with one of the four page ids returns and leaves
    exactly one page and exactly one navigation link active: the page with
    that id and the link whose [data-page] is that id.  The structure
    itself is kept, so the same holds after any further navigation. *)
Theorem navigateToPage_activates_exactly_one id s :
  navOk s = true → id ∈ pageMap →
  ∃ s', navigateToPage id s = Normal tt s' ∧ onlyActive id s' ∧ navOk s' = true.
Proof.
  intros Hok Hid.
  destruct (navigateToPage_plain id s (isPlain_pageMap id Hid))
    as (s' & Hrun & Hdoc & Hpages & Hlinks & Htoggle & Hmenu & _).
  exists s'. split; [done|].
  pose proof (navigated_skeleton id s s' Hdoc) as Hsk.
  pose proof Hok as Hok'.
  apply navOk_spec in Hok' as (_ & _ & _ & _ & Hex).
  destruct (Hex id Hid) as (p & l & Hp & Hpin & Hl & Hlin).
  split.
  - apply (activated_onlyActive id s s' p l); try done.
    intros n Hn. rewrite (navigated_hasClass id s s' n) by done.
    by rewrite Hp, Hl.
  - by rewrite (navOk_ext s s').
Qed.
Lemma urlFragment_pageMap id : id ∈ pageMap → urlFragment id = id.
Proof.
  unfold pageMap. rewrite !elem_of_cons, elem_of_nil.
  intros [->|[->|[->|[->|[]]]]]; reflexivity.
Qed.

(** C5.  After [navigateToPage] with a page id the address fragment reads
    that id.  When the fragment already was that id the session history is
    untouched; otherwise one entry for the id is pushed after the current
    one. *)
Theorem navigateToPage_fragment_roundtrip id s :
  id ∈ pageMap →
  ∃ s', navigateToPage id s = Normal tt s' ∧
    slice1 (locationHash s') = id ∧
    (slice1 (locationHash s) = id →
       historyEntries s' = historyEntries s ∧ historyIndex s' = historyIndex s) ∧
    (slice1 (locationHash s) ≠ id →
       historyEntries s' = take (S (historyIndex s)) (historyEntries s) ++ [id] ∧
       historyIndex s' = S (historyIndex s)).
Proof.
  intros Hid.
  destruct (navigateToPage_plain id s (isPlain_pageMap id Hid))
    as (s' & Hrun & _ & _ & _ & _ & _ & _ & Hfrag & Hent & Hidx & _).
  exists s'. split; [done|]. rewrite !slice1_locationHash.
  rewrite (urlFragment_pageMap id Hid) in *. unfold streq in *.
  case_bool_decide as Heq; rewrite Hfrag, Hent, Hidx; repeat split; try done.
Qed.


(** ** History traversal and page load *)

Lemma hashOrHome_withFragment f s :
  hashOrHome (withFragment f s) = match f with [] => lit "home" | _ => f end.
Proof.
  unfold hashOrHome. rewrite slice1_locationHash. by destruct f.
Qed.

Lemma querySelector_dataPage_activated v t s :
  documentQuerySelector (SelDataPage v) (addActive t (deactivated s))
  = documentQuerySelector (SelDataPage v) (doc s).
Proof.
  symmetry. apply skeleton_querySelector_dataPage.
  eapply skeleton_trans; [apply skeleton_deactivated | apply skeleton_addActive].
Qed.

Lemma deactivated_withFragment f s :
  deactivated (withFragment f s) = deactivated s.
Proof. done. Qed.

Lemma querySelector_dataPage_added v p s :
  documentQuerySelector (SelDataPage v)
    (classListAdd (lit "active") p (deactivated s))
  = documentQuerySelector (SelDataPage v) (doc s).
Proof. apply (querySelector_dataPage_activated v (Some p)). Qed.

(** What the [popstate] listener does when the selector text is well
    formed. *)
Lemma onPopState_plain s :
  isPlain (hashOrHome s) = true →
  ∃ s', onPopState s = Normal tt s' ∧
    doc s' = addActive (documentQuerySelector (SelDataPage (hashOrHome s)) (doc s))
               (addActive (getElementById (hashOrHome s) (doc s)) (deactivated s)) ∧
    pages s' = pages s ∧ navLinks s' = navLinks s ∧
    historyEntries s' = historyEntries s ∧ historyIndex s' = historyIndex s ∧
    fragment s' = fragment s.
Proof.
  intros Hp.
  pose proof (skeleton_getElementById _ _ (skeleton_deactivated s)
                (hashOrHome s)) as Hg.
  unfold onPopState, deactivateAll, querySelectorText.
  unfold bind, gets, modifyDoc, modify, whenSome, when, ret. cbn.
  rewrite parseSelector_plain by done. cbn.
  fold (deactivated s). rewrite <-Hg.
  destruct (getElementById (hashOrHome s) (doc s)) as [p|]; cbn;
  [change (classListAdd (lit "active") p (deactivated s))
      with (addActive (Some p) (deactivated s))
  |change (deactivated s) with (addActive None (deactivated s)) at 1];
  rewrite querySelector_dataPage_activated;
    (destruct (documentQuerySelector (SelDataPage (hashOrHome s)) (doc s))
       as [l|]; cbn;
     destruct (streq (hashOrHome s) (lit "about")); cbn;
     (eexists; split; [reflexivity|]; cbn; repeat split; done)).
Qed.

(** What the [DOMContentLoaded] listener does when the selector text is
    well formed and the home page and its link exist. *)
Lemma onDOMContentLoaded_plain s p l :
  isPlain (hashOrHome s) = true →
  from_option Some (getElementById (lit "home") (doc s))
    (getElementById (hashOrHome s) (doc s)) = Some p →
  from_option Some (documentQuerySelector (SelDataPage (lit "home")) (doc s))
    (documentQuerySelector (SelDataPage (hashOrHome s)) (doc s)) = Some l →
  ∃ s', onDOMContentLoaded s = Normal tt s' ∧
    doc s' = addActive (Some l) (addActive (Some p) (deactivated s)) ∧
    pages s' = pages s ∧ navLinks s' = navLinks s.
Proof.
  intros Hp Htarget Hlink.
  pose proof (skeleton_getElementById _ _ (skeleton_deactivated s)) as Hg.
  unfold onDOMContentLoaded, deactivateAll, querySelectorText.
  unfold bind, gets, modifyDoc, modify, whenSome, when, ret, activateOrThrow.
  cbn. rewrite parseSelector_plain by done. cbn.
  fold (deactivated s). rewrite <-!Hg.
  destruct (getElementById (hashOrHome s) (doc s)) as [p'|]; cbn in *.
  - injection Htarget as ->.
    change (classListAdd (lit "active") p (deactivated s))
      with (addActive (Some p) (deactivated s)).
    rewrite !querySelector_dataPage_activated.
    destruct (documentQuerySelector (SelDataPage (hashOrHome s)) (doc s))
      as [l'|]; cbn in *.
    + injection Hlink as ->.
      destruct (streq (hashOrHome s) (lit "about")); cbn;
        (eexists; split; [reflexivity|]; cbn; repeat split; done).
    + rewrite ?querySelector_dataPage_added, Hlink. cbn.
      destruct (streq (hashOrHome s) (lit "about")); cbn;
        (eexists; split; [reflexivity|]; cbn; repeat split; done).
  - rewrite <-?(Hg (lit "home")), Htarget. cbn.
    change (classListAdd (lit "active") p (deactivated s))
      with (addActive (Some p) (deactivated s)).
    rewrite !querySelector_dataPage_activated.
    destruct (documentQuerySelector (SelDataPage (hashOrHome s)) (doc s))
      as [l'|]; cbn in *.
    + injection Hlink as ->.
      destruct (streq (hashOrHome s) (lit "about")); cbn;
        (eexists; split; [reflexivity|]; cbn; repeat split; done).
    + rewrite ?querySelector_dataPage_added, Hlink. cbn.
      destruct (streq (hashOrHome s) (lit "about")); cbn;
        (eexists; split; [reflexivity|]; cbn; repeat split; done).
Qed.

Lemma home_in_pageMap : lit "home" ∈ pageMap.
Proof. by left. Qed.

(** ** What [validateField] decides *)

Lemma validateField_missing x s :
  groupOf (doc s) x = None ∨ errorOf (doc s) x = None →
  validateField x s = Normal false s.
Proof.
  unfold groupOf, errorOf, validateField, bind, gets. cbn.
  intros [->| ->]; [done|]. by destruct (closest formGroupSel (doc s) x).
Qed.

Lemma validateField_found x s g e :
  groupOf (doc s) x = Some g → errorOf (doc s) x = Some e →
  validateField x s =
  match checkField (doc s) x with
  | Passes =>
      Normal true
        (setDoc (setTextContent [] e (classListRemove (lit "error") g (doc s))) s)
  | Fails msg =>
      Normal false
        (setDoc (setTextContent msg e (classListAdd (lit "error") g (doc s))) s)
  | Raises => Thrown TypeError s
  end.
Proof.
  unfold groupOf, errorOf, checkField, check, validateField, bind, gets. cbn.
  intros -> ->. cbn.
  destruct (trim (valueOf (doc s) x)); [done|].
  destruct (validationRules (nameOf (doc s) x)) as [r| |]; try done.
  by destruct (test (pattern r) (n :: l)).
Qed.

(** [validateField] never leaves the covered fragment. *)
Lemma validateField_covered x s : validateField x s ≠ OutOfModel.
Proof.
  destruct (groupOf (doc s) x) as [g|] eqn:Hg;
    [destruct (errorOf (doc s) x) as [e|] eqn:He|].
  - rewrite (validateField_found x s g e) by done.
    by destruct (checkField (doc s) x).
  - rewrite validateField_missing; auto.
  - rewrite validateField_missing; auto.
Qed.

(** ** Patterns *)

Lemma test_namePattern v :
  test namePattern v = true ↔
  (2 ≤ length v ≤ 50)%nat ∧ forallb clsNameChar v = true.
Proof.
  unfold test, namePattern. simpl. rewrite matchRep_spec. split.
  - intros (a & b & -> & Ha & Hlo & Hhi & Hb). destruct b; [|done].
    rewrite app_nil_r. specialize (Hhi _ eq_refl). done.
  - intros [[Hlo Hhi] Hall]. exists v, []. rewrite app_nil_r.
    repeat split; try done. by intros h [= <-].
Qed.

Lemma test_messagePattern v :
  test messagePattern v = true ↔
  (10 ≤ length v ≤ 500)%nat ∧ forallb clsDot v = true.
Proof.
  unfold test, messagePattern. simpl. rewrite matchRep_spec. split.
  - intros (a & b & -> & Ha & Hlo & Hhi & Hb). destruct b; [|done].
    rewrite app_nil_r. specialize (Hhi _ eq_refl). done.
  - intros [[Hlo Hhi] Hall]. exists v, []. rewrite app_nil_r.
    repeat split; try done. by intros h [= <-].
Qed.

Lemma test_emailPattern v :
  test emailPattern v = true ↔
  ∃ l a b, v = l ++ [0x40] ++ a ++ [0x2E] ++ b ∧
           l ≠ [] ∧ a ≠ [] ∧ b ≠ [] ∧
           forallb clsEmailChar l = true ∧ forallb clsEmailChar a = true ∧
           forallb clsEmailChar b = true.
Proof.
  assert (Hne : ∀ w : jsstring, (1 ≤ length w)%nat ↔ w ≠ []).
  { intros [|c w]; simpl; split; (done || lia). }
  unfold test, emailPattern. simpl. rewrite matchRep_spec. split.
  - intros (l & r & -> & Hl & Hlo & _ & Hk).
    destruct r as [|c r]; [done|].
    apply andb_true_iff in Hk as [Hc Hk]. apply N.eqb_eq in Hc as ->.
    apply matchRep_spec in Hk as (a & r' & -> & Ha & Hlo' & _ & Hk).
    destruct r' as [|c r']; [done|].
    apply andb_true_iff in Hk as [Hc Hk]. apply N.eqb_eq in Hc as ->.
    apply matchRep_spec in Hk as (b & r'' & -> & Hb & Hlo'' & _ & Hk).
    destruct r''; [|done]. rewrite app_nil_r.
    exists l, a, b. rewrite <-!Hne. done.
  - intros (l & a & b & -> & Hl & Ha & Hb & Hcl & Hca & Hcb).
    exists l, ([0x40] ++ a ++ [0x2E] ++ b). rewrite Hne.
    repeat split; try done. simpl.
    apply matchRep_spec. exists a, ([0x2E] ++ b). rewrite Hne.
    repeat split; try done. simpl.
    apply matchRep_spec. exists b, []. rewrite Hne, app_nil_r.
    repeat split; done.
Qed.

(** For a field with its group and error element and a non-empty trimmed
    value, the result is the pattern's verdict on the trimmed value. *)
Lemma validateField_pattern x s g e rule :
  groupOf (doc s) x = Some g → errorOf (doc s) x = Some e →
  validationRules (nameOf (doc s) x) = OwnRule rule →
  trim (valueOf (doc s) x) ≠ [] →
  ∃ s', validateField x s =
        Normal (test (pattern rule) (trim (valueOf (doc s) x))) s'.
Proof.
  intros Hg He Hrule Hv. rewrite (validateField_found x s g e) by done.
  unfold checkField, check. rewrite Hrule.
  destruct (trim (valueOf (doc s) x)) as [|c v]; [done|].
  destruct (test (pattern rule) (c :: v)); eauto.
Qed.

(** C2.  The rule for [message] rejects a message of 25 characters that
    has a line break in it, with the text "Message must be between 10 and
    500 characters". *)
Theorem validateField_rejects_two_line_message :
  let s := sampleState (lit "John Doe") (lit "a@b.c") twoLineMessage in
  nameOf (doc s) 23 = lit "message" ∧
  length (trim (valueOf (doc s) 23)) = 25%nat ∧
  ∃ s', validateField 23 s = Normal false s' ∧
        hasClass (lit "error") (doc s') 22 = true ∧
        textOf (doc s') 24 = lit "Message must be between 10 and 500 characters".
Proof.
  split; [by vm_compute|]. split; [by vm_compute|].
  eexists. split; [by vm_compute|]. split; by vm_compute.
Qed.
(** ** Text and classes under the mutations of [validateField] *)

Lemma lookup_detachChildren e (d : Document) n :
  detachChildren e d !! n =
  (λ el, if bool_decide (el_parent el = Some e) then setParent None el else el)
    <$> d !! n.
Proof. unfold detachChildren. apply list_lookup_fmap. Qed.

Lemma length_setTextContent t e (d : Document) :
  length (setTextContent t e d) = length d.
Proof.
  unfold setTextContent, detachChildren. by rewrite length_alter, length_fmap.
Qed.

Lemma lookup_setTextContent t e (d : Document) n :
  setTextContent t e d !! n =
  (λ el, let el' := if bool_decide (el_parent el = Some e)
                    then setParent None el else el in
         if bool_decide (n = e) then setText t el' else el') <$> d !! n.
Proof.
  unfold setTextContent. case_bool_decide as Hn.
  - subst n. rewrite list_lookup_alter_eq, lookup_detachChildren.
    by destruct (d !! e).
  - rewrite list_lookup_alter_ne by done. by rewrite lookup_detachChildren.
Qed.

Lemma textOf_setTextContent t e (d : Document) n :
  textOf (setTextContent t e d) n =
  if bool_decide (n = e ∧ (e < length d)%nat) then t else textOf d n.
Proof.
  unfold textOf. rewrite lookup_setTextContent.
  destruct (d !! n) as [el|] eqn:Hel; simpl.
  - apply lookup_lt_Some in Hel. case_bool_decide as Hn.
    + subst n. rewrite (bool_decide_eq_true_2 (e = e ∧ _)) by done.
      by destruct (bool_decide (el_parent el = Some e)).
    + rewrite (bool_decide_eq_false_2 (n = e ∧ _)) by tauto.
      by destruct (bool_decide (el_parent el = Some e)).
  - apply lookup_ge_None in Hel.
    rewrite (bool_decide_eq_false_2 (n = e ∧ _)); [done|]. intros [-> ?]. lia.
Qed.

Lemma hasClass_setTextContent c t e (d : Document) n :
  hasClass c (setTextContent t e d) n = hasClass c d n.
Proof.
  unfold hasClass. rewrite lookup_setTextContent.
  destruct (d !! n) as [el|]; simpl; [|done].
  by destruct (bool_decide (el_parent el = Some e)), (bool_decide (n = e)).
Qed.

Lemma textOf_alter_class f n (d : Document) m :
  textOf (alter (λ e, setClass (f (el_class e)) e) n d) m = textOf d m.
Proof.
  unfold textOf. destruct (decide (n = m)) as [->|Hne].
  - rewrite list_lookup_alter_eq. by destruct (d !! m).
  - by rewrite list_lookup_alter_ne.
Qed.

Lemma closest_Some sel (d : Document) n a :
  closest sel d n = Some a → matchesAt d sel a = true ∧ (a < length d)%nat.
Proof.
  unfold closest. intros H. apply head_filter_Some in H as [H _].
  apply Is_true_true in H. split; [done|].
  unfold matchesAt in H. destruct (d !! a) eqn:Ha; [|done].
  by apply lookup_lt_Some in Ha.
Qed.

(** C3.  For a field whose group and error element exist and whose
    trimmed value is empty, [validateField] returns [false], sets the text
    of the error element to "This field is required" and flags the group;
    the name of the field, and with it the rule, plays no part. *)
Theorem validateField_required x s g e :
  groupOf (doc s) x = Some g → errorOf (doc s) x = Some e →
  trim (valueOf (doc s) x) = [] →
  ∃ s', validateField x s = Normal false s' ∧
        textOf (doc s') e = lit "This field is required" ∧
        hasClass (lit "error") (doc s') g = true.
Proof.
  intros Hg He Hv. rewrite (validateField_found x s g e) by done.
  unfold checkField, check. rewrite Hv.
  eexists. split; [done|]. cbn.
  apply closest_Some in Hg as [_ Hg]. apply getElementById_Some in He as [He _].
  split.
  - rewrite textOf_setTextContent, length_classListAdd.
    by rewrite (bool_decide_eq_true_2 (e = e ∧ _)).
  - rewrite hasClass_setTextContent, hasClass_add.
    rewrite !bool_decide_eq_true_2 by done. by rewrite orb_true_r.
Qed.
(** ** The frame of [validateField] *)

Lemma annotatedElement_refl e : annotatedElement e e.
Proof. unfold annotatedElement. repeat split; auto. Qed.

Lemma annotatedElement_trans e1 e2 e3 :
  annotatedElement e1 e2 → annotatedElement e2 e3 → annotatedElement e1 e3.
Proof.
  unfold annotatedElement.
  intros (?&?&?&?&?&?&?&?&?&Hp&Hc) (?&?&?&?&?&?&?&?&?&Hp'&Hc').
  repeat split; try congruence.
  - destruct Hp' as [Hp'|Hp']; [rewrite Hp'; exact Hp | by right].
  - intros Hin. apply Hc, Hc'; done.
  - intros Hin. apply Hc', Hc; done.
Qed.

Lemma annotated_refl (d : Document) : annotated d d.
Proof.
  apply Forall2_same_length_lookup_2; [done|].
  intros i x y Hx Hy. assert (x = y) as -> by congruence.
  apply annotatedElement_refl.
Qed.

Lemma annotated_trans (d1 d2 d3 : Document) :
  annotated d1 d2 → annotated d2 d3 → annotated d1 d3.
Proof.
  intros H12 H23. apply Forall2_same_length_lookup_2.
  - pose proof H12 as Hl12. pose proof H23 as Hl23.
    apply Forall2_length in Hl12, Hl23. congruence.
  - intros i x z Hx Hz.
    destruct (Forall2_lookup_l _ _ _ _ _ H12 Hx) as (y & Hy & Hxy).
    eapply annotatedElement_trans; [done|].
    eapply Forall2_lookup_lr; eauto.
Qed.

Lemma annotated_pointwise (d d' : Document) :
  length d' = length d →
  (∀ n e, d !! n = Some e → ∃ e', d' !! n = Some e' ∧ annotatedElement e e') →
  annotated d d'.
Proof.
  intros Hlen H. apply Forall2_same_length_lookup_2; [done|].
  intros i x y Hx Hy. destruct (H i x Hx) as (y' & Hy' & Hxy). congruence.
Qed.

Lemma annotated_error_class f g (d : Document) :
  (∀ cl c, c ≠ lit "error" → c ∈ f cl ↔ c ∈ cl) →
  annotated d (alter (λ e, setClass (f (el_class e)) e) g d).
Proof.
  intros Hf. apply annotated_pointwise; [apply length_alter|].
  intros n e He. destruct (decide (g = n)) as [->|Hne].
  - rewrite list_lookup_alter_eq, He. eexists. split; [done|].
    unfold annotatedElement. cbn. repeat split; auto; apply Hf; done.
  - rewrite list_lookup_alter_ne by done. exists e. split; [done|].
    apply annotatedElement_refl.
Qed.

Lemma annotated_classListAdd g (d : Document) :
  annotated d (classListAdd (lit "error") g d).
Proof.
  apply annotated_error_class. intros cl c Hc. unfold addToken.
  case_bool_decide; [done|]. rewrite elem_of_app, list_elem_of_singleton. tauto.
Qed.

Lemma annotated_classListRemove g (d : Document) :
  annotated d (classListRemove (lit "error") g d).
Proof.
  apply annotated_error_class. intros cl c Hc. unfold removeToken.
  rewrite list_elem_of_filter. tauto.
Qed.

Lemma annotated_setTextContent t e (d : Document) :
  annotated d (setTextContent t e d).
Proof.
  apply annotated_pointwise; [apply length_setTextContent|].
  intros n el Hel. rewrite lookup_setTextContent, Hel. eexists. split; [done|].
  unfold annotatedElement.
  destruct (bool_decide (el_parent el = Some e)), (bool_decide (n = e)); cbn;
    repeat split; auto.
Qed.

(** [validateField] returns or throws, and changes nothing but
    annotations. *)
Lemma validateField_frame x s :
  ∃ s', (validateField x s = Normal true s' ∨
         validateField x s = Normal false s' ∨
         validateField x s = Thrown TypeError s') ∧
        annotated (doc s) (doc s') ∧ sameWindow s s'.
Proof.
  destruct (groupOf (doc s) x) as [g|] eqn:Hg;
    [destruct (errorOf (doc s) x) as [e|] eqn:He|].
  - rewrite (validateField_found x s g e) by done.
    destruct (checkField (doc s) x).
    + eexists. split; [left; reflexivity|]. cbn. split; [|done].
      eapply annotated_trans;
        [apply annotated_classListRemove | apply annotated_setTextContent].
    + eexists. split; [right; left; reflexivity|]. cbn. split; [|done].
      eapply annotated_trans;
        [apply annotated_classListAdd | apply annotated_setTextContent].
    + eexists. split; [right; right; reflexivity|]. cbn.
      split; [apply annotated_refl | by destruct s].
  - rewrite validateField_missing by auto. exists s.
    split; [auto|]. split; [apply annotated_refl | by destruct s].
  - rewrite validateField_missing by auto. exists s.
    split; [auto|]. split; [apply annotated_refl | by destruct s].
Qed.

Section annotated.
Context (d d' : Document) (Hann : annotated d d').

Lemma annotated_length : length d' = length d.
Proof. pose proof Hann as H. apply Forall2_length in H. done. Qed.

Lemma annotated_lookup n :
  match d !! n, d' !! n with
  | Some e, Some e' => annotatedElement e e'
  | None, None => True
  | _, _ => False
  end.
Proof.
  destruct (d !! n) as [e|] eqn:He.
  - destruct (Forall2_lookup_l _ _ _ _ _ Hann He) as (e' & -> & H). done.
  - apply lookup_ge_None in He. rewrite <-annotated_length in He.
    apply lookup_ge_None in He. by rewrite He.
Qed.

Lemma annotated_nameOf n : nameOf d' n = nameOf d n.
Proof.
  unfold nameOf. pose proof (annotated_lookup n) as H.
  destruct (d !! n), (d' !! n); try done.
  by destruct H as (?&?&?&?&?&?&?&?&?&?&?).
Qed.

Lemma annotated_valueOf n : valueOf d' n = valueOf d n.
Proof.
  unfold valueOf. pose proof (annotated_lookup n) as H.
  destruct (d !! n), (d' !! n); try done.
  by destruct H as (?&?&?&?&?&?&?&?&?&?&?).
Qed.

Lemma annotated_displayOf n : displayOf d' n = displayOf d n.
Proof.
  unfold displayOf. pose proof (annotated_lookup n) as H.
  destruct (d !! n), (d' !! n); try done.
  by destruct H as (?&?&?&?&?&?&?&?&?&?&?).
Qed.

Lemma annotated_defaultValueOf n : defaultValueOf d' n = defaultValueOf d n.
Proof.
  unfold defaultValueOf. pose proof (annotated_lookup n) as H.
  destruct (d !! n), (d' !! n); try done.
  by destruct H as (?&?&?&?&?&?&?&?&?&?&?).
Qed.

Lemma annotated_tagOf n : tagOf d' n = tagOf d n.
Proof.
  unfold tagOf. pose proof (annotated_lookup n) as H.
  destruct (d !! n), (d' !! n); try done.
  by destruct H as (?&?&?&?&?&?&?&?&?&?&?).
Qed.

Lemma annotated_hasClass c n :
  c ≠ lit "error" → hasClass c d' n = hasClass c d n.
Proof.
  intros Hc. unfold hasClass. pose proof (annotated_lookup n) as H.
  destruct (d !! n), (d' !! n); try done.
  destruct H as (?&?&?&?&?&?&?&?&?&?&Hcl).
  simpl. apply bool_decide_ext. by apply Hcl.
Qed.

Lemma annotated_hasId x n :
  from_option (hasId x) false (d' !! n) = from_option (hasId x) false (d !! n).
Proof.
  pose proof (annotated_lookup n) as H.
  destruct (d !! n), (d' !! n); try done. unfold annotatedElement in H.
  simpl. unfold hasId. destruct H as (_ & -> & _). done.
Qed.

Lemma annotated_parentOf n :
  parentOf d' n = parentOf d n ∨ parentOf d' n = None.
Proof.
  unfold parentOf. pose proof (annotated_lookup n) as H.
  destruct (d !! n), (d' !! n); try done; [|by left].
  by destruct H as (?&?&?&?&?&?&?&?&?&?&?).
Qed.

Lemma annotated_ancestorsUpTo fuel n a :
  a ∈ ancestorsUpTo fuel d' n → a ∈ ancestorsUpTo fuel d n.
Proof.
  revert n. induction fuel as [|fuel IH]; intros n; simpl; [done|].
  destruct (annotated_parentOf n) as [-> | ->]; [|by intros ?%elem_of_nil].
  destruct (parentOf d n) as [p|]; [|done].
  rewrite !elem_of_cons. intros [->|H]; [by left | right; by apply IH].
Qed.

Lemma annotated_ancestors n a : a ∈ ancestors d' n → a ∈ ancestors d n.
Proof.
  unfold ancestors. rewrite annotated_length. apply annotated_ancestorsUpTo.
Qed.

Lemma annotated_isConnected n :
  isConnected d' n = true → isConnected d n = true.
Proof.
  unfold isConnected. rewrite !orb_true_iff, !bool_decide_eq_true.
  intros [?|?]; [by left | right; by apply annotated_ancestors].
Qed.

(** A missing form group stays missing. *)
Lemma annotated_groupOf_None x : groupOf d x = None → groupOf d' x = None.
Proof.
  unfold groupOf, closest. rewrite !head_None. intros H.
  apply filter_none. intros a Ha Hm.
  assert (a ∈ x :: ancestors d x) as Ha'.
  { apply elem_of_cons in Ha as [->|Ha]; [by left|].
    right. by apply annotated_ancestors. }
  eapply (filter_nil_not_elem_of _ _ a H); [|done].
  apply Is_true_true in Hm. apply Is_true_true.
  unfold matchesAt, formGroupSel in *. cbn in *.
  change (hasClass (lit "form-group") d a = true).
  rewrite <-annotated_hasClass by done. exact Hm.
Qed.

(** A missing element stays missing. *)
Lemma annotated_getElementById_None y :
  getElementById y d = None → getElementById y d' = None.
Proof.
  unfold getElementById. rewrite !head_None. intros H.
  apply filter_none. intros n Hn Hm.
  apply elem_of_nodes in Hn. rewrite annotated_length in Hn.
  eapply (filter_nil_not_elem_of _ _ n H); [|by apply elem_of_nodes].
  apply andb_prop_elim in Hm as [Hc Hi].
  apply andb_prop_intro. split.
  - apply Is_true_true. apply annotated_isConnected. by apply Is_true_true.
  - by rewrite <-annotated_hasId.
Qed.

Lemma annotated_errorOf_None x : errorOf d x = None → errorOf d' x = None.
Proof.
  unfold errorOf. rewrite annotated_nameOf. apply annotated_getElementById_None.
Qed.

End annotated.
(** ** Validation of the whole form *)

Lemma validateFields_cons y L acc s :
  validateFields (y :: L) acc s =
  match validateField y s with
  | Normal ok s1 => validateFields L (if ok then acc else false) s1
  | Thrown e s1 => Thrown e s1
  | OutOfModel => OutOfModel
  end.
Proof. done. Qed.

Lemma validateFields_false L s b s' :
  validateFields L false s = Normal b s' → b = false.
Proof.
  revert s. induction L as [|y L IH]; intros s.
  - cbn. by intros [= <- _].
  - rewrite validateFields_cons.
    destruct (validateField y s) as [ok s1|e s1|]; try done.
    destruct ok; apply IH.
Qed.

Lemma validateFields_missing L x acc s s' :
  x ∈ L →
  groupOf (doc s) x = None ∨ errorOf (doc s) x = None →
  validateFields L acc s ≠ Normal true s'.
Proof.
  revert acc s. induction L as [|y L IH]; intros acc s Hx Hmiss.
  - by apply elem_of_nil in Hx.
  - rewrite validateFields_cons. apply elem_of_cons in Hx as [<-|Hx].
    + rewrite validateField_missing by done.
      intros H. by apply validateFields_false in H.
    + destruct (validateField_frame y s) as (s1 & Hrun & Hann & _).
      assert (groupOf (doc s1) x = None ∨ errorOf (doc s1) x = None) as Hmiss1.
      { destruct Hmiss as [H|H]; [left | right].
        - by apply (annotated_groupOf_None _ _ Hann).
        - by apply (annotated_errorOf_None _ _ Hann). }
      destruct Hrun as [-> | [-> | ->]]; try done; by apply IH.
Qed.

(** C9.  When the form group or the error element of a field is missing,
    [validateField] returns [false] and leaves the state as it is, whatever
    the value of the field; and [validateForm] does not return [true] for a
    form that has such a field. *)
Theorem validateField_without_group_or_error x s :
  groupOf (doc s) x = None ∨ errorOf (doc s) x = None →
  validateField x s = Normal false s ∧
  ∀ f, contactForm s = Some f →
       x ∈ elementQuerySelectorAll f fieldSel (doc s) →
       ∀ s', validateForm s ≠ Normal true s'.
Proof.
  intros Hmiss. split; [by apply validateField_missing|].
  intros f Hf Hx s'. unfold validateForm, bind, gets. rewrite Hf. cbn.
  by apply (validateFields_missing _ x).
Qed.
(** ** Validation in a well-formed form *)

Lemma isLeaf_spec (d : Document) e :
  isLeaf d e = true ↔ ∀ m, parentOf d m ≠ Some e.
Proof.
  unfold isLeaf. rewrite forallb_forall. split.
  - intros H m Hm.
    destruct (d !! m) as [el|] eqn:Hel.
    + apply lookup_lt_Some in Hel.
      assert (In m (nodes d)) as Hin by (by apply list_elem_of_In, elem_of_nodes).
      apply H in Hin. apply negb_true_iff, bool_decide_eq_false in Hin. done.
    + unfold parentOf in Hm. by rewrite Hel in Hm.
  - intros H m _. apply negb_true_iff, bool_decide_eq_false, H.
Qed.

Lemma detachChildren_leaf (d : Document) e :
  isLeaf d e = true → detachChildren e d = d.
Proof.
  rewrite isLeaf_spec. intros H. apply list_eq. intros n.
  rewrite lookup_detachChildren. destruct (d !! n) as [el|] eqn:Hel; [|done].
  simpl. rewrite bool_decide_eq_false_2; [done|].
  specialize (H n). unfold parentOf in H. by rewrite Hel in H.
Qed.

Lemma skeleton_setTextContent_leaf t e (d : Document) :
  isLeaf d e = true → sameSkeleton d (setTextContent t e d).
Proof.
  intros H. unfold setTextContent. rewrite detachChildren_leaf by done.
  by apply skeleton_alter.
Qed.

Lemma skeleton_isLeaf (d d' : Document) e :
  sameSkeleton d d' → isLeaf d e = isLeaf d' e.
Proof.
  intros Hsk. unfold isLeaf. rewrite (skeleton_nodes _ _ Hsk).
  apply forallb_ext_in. intros m _. by rewrite (skeleton_parentOf _ _ Hsk).
Qed.

Section unchangedForm.
Context (d d' : Document) (Hun : unchangedForm d d').

Lemma unchanged_groupOf x : groupOf d' x = groupOf d x.
Proof.
  destruct Hun as [Hsk Hann]. unfold groupOf. symmetry.
  apply skeleton_closest; [done|]. intros n. unfold matchesAt, formGroupSel.
  change (hasClass (lit "form-group") d n = hasClass (lit "form-group") d' n).
  symmetry. by apply annotated_hasClass.
Qed.

Lemma unchanged_errorOf x : errorOf d' x = errorOf d x.
Proof.
  destruct Hun as [Hsk Hann]. unfold errorOf.
  rewrite (annotated_nameOf _ _ Hann). symmetry.
  by apply skeleton_getElementById.
Qed.

Lemma unchanged_checkField x : checkField d' x = checkField d x.
Proof.
  destruct Hun as [Hsk Hann]. unfold checkField.
  by rewrite (annotated_nameOf _ _ Hann), (annotated_valueOf _ _ Hann).
Qed.

Lemma unchanged_isLeaf e : isLeaf d' e = isLeaf d e.
Proof. destruct Hun as [Hsk Hann]. symmetry. by apply skeleton_isLeaf. Qed.

End unchangedForm.

Lemma unchangedForm_refl (d : Document) : unchangedForm d d.
Proof. split; [apply skeleton_refl | apply annotated_refl]. Qed.

Lemma unchangedForm_trans (d1 d2 d3 : Document) :
  unchangedForm d1 d2 → unchangedForm d2 d3 → unchangedForm d1 d3.
Proof.
  intros [? ?] [? ?].
  split; [by eapply skeleton_trans | by eapply annotated_trans].
Qed.

Lemma sameWindow_trans s1 s2 s3 :
  sameWindow s1 s2 → sameWindow s2 s3 → sameWindow s1 s3.
Proof. unfold sameWindow. intros -> ->. done. Qed.

Lemma sameWindow_refl s : sameWindow s s.
Proof. by destruct s. Qed.

Lemma fieldOk_spec (d : Document) x :
  fieldOk d x = true →
  ∃ g e, groupOf d x = Some g ∧ errorOf d x = Some e ∧ isLeaf d e = true ∧
         checkField d x ≠ Raises.
Proof.
  unfold fieldOk, checkField, check. rewrite andb_true_iff.
  intros [H1 H2].
  destruct (groupOf d x) as [g|], (errorOf d x) as [e|]; try done.
  exists g, e. repeat split; try done.
  destruct (trim (valueOf d x)); [done|].
  destruct (validationRules (nameOf d x)) as [r| |]; try done.
  by destruct (test (pattern r) (n :: l)).
Qed.

(** One field of a well-formed form: the result is the decision, the
    group is flagged accordingly, the error element gets the text, and
    nothing else is annotated. *)
Lemma validateField_ok x s g e :
  groupOf (doc s) x = Some g → errorOf (doc s) x = Some e →
  isLeaf (doc s) e = true → checkField (doc s) x ≠ Raises →
  ∃ s', validateField x s = Normal (passes (checkField (doc s) x)) s' ∧
        sameWindow s s' ∧ unchangedForm (doc s) (doc s') ∧
        hasClass (lit "error") (doc s') g = negb (passes (checkField (doc s) x)) ∧
        textOf (doc s') e = errorText (checkField (doc s) x) ∧
        (∀ n, n ≠ g → hasClass (lit "error") (doc s') n
                      = hasClass (lit "error") (doc s) n) ∧
        (∀ n, n ≠ e → textOf (doc s') n = textOf (doc s) n).
Proof.
  intros Hg He Hleaf Hc. rewrite (validateField_found x s g e) by done.
  pose proof (closest_Some _ _ _ _ Hg) as [_ Hgl].
  pose proof (getElementById_Some _ _ _ He) as [Hel _].
  assert (Htext : ∀ t d1 n, length d1 = length (doc s) →
            textOf (setTextContent t e d1) e = t ∧
            (n ≠ e → textOf (setTextContent t e d1) n = textOf d1 n)).
  { intros t d1 n Hlen. rewrite !textOf_setTextContent, Hlen. split.
    - by rewrite (bool_decide_eq_true_2 (e = e ∧ _)).
    - intros Hn. by rewrite (bool_decide_eq_false_2 (n = e ∧ _)) by tauto. }
  destruct (checkField (doc s) x) as [|msg|]; [| |done]; cbn;
    eexists; (split; [reflexivity|]); cbn; (split; [done|]).
  - split; [split|].
    + eapply skeleton_trans; [apply skeleton_classListRemove|].
      apply skeleton_setTextContent_leaf.
      by rewrite <-(skeleton_isLeaf _ _ _ (skeleton_classListRemove _ _ _)).
    + eapply annotated_trans;
        [apply annotated_classListRemove | apply annotated_setTextContent].
    + rewrite hasClass_setTextContent, hasClass_remove.
      rewrite !bool_decide_eq_true_2 by done. rewrite andb_false_r.
      split; [done|]. split; [apply Htext, length_classListRemove; exact O|].
      split.
      * intros n Hn. rewrite hasClass_setTextContent, hasClass_remove.
        rewrite (bool_decide_eq_false_2 (n = g)) by done.
        by rewrite andb_false_r, andb_true_r.
      * intros n Hn. rewrite (proj2 (Htext _ _ n (length_classListRemove _ _ _)))
          by done.
        apply textOf_alter_class.
  - split; [split|].
    + eapply skeleton_trans; [apply skeleton_classListAdd|].
      apply skeleton_setTextContent_leaf.
      by rewrite <-(skeleton_isLeaf _ _ _ (skeleton_classListAdd _ _ _)).
    + eapply annotated_trans;
        [apply annotated_classListAdd | apply annotated_setTextContent].
    + rewrite hasClass_setTextContent, hasClass_add.
      rewrite !bool_decide_eq_true_2 by done. rewrite orb_true_r.
      split; [done|]. split; [apply Htext, length_classListAdd; exact O|].
      split.
      * intros n Hn. rewrite hasClass_setTextContent, hasClass_add.
        rewrite (bool_decide_eq_false_2 (n = g)) by done.
        by rewrite andb_false_r, orb_false_r.
      * intros n Hn. rewrite (proj2 (Htext _ _ n (length_classListAdd _ _ _)))
          by done.
        apply textOf_alter_class.
Qed.
Lemma validateFields_spec (d : Document) L :
  Forall (λ x, fieldOk d x = true) L →
  NoDup (groupOf d <$> L) → NoDup (errorOf d <$> L) →
  ∀ acc s, unchangedForm d (doc s) →
  ∃ s', validateFields L acc s
        = Normal (acc && forallb (λ x, passes (checkField d x)) L) s' ∧
    sameWindow s s' ∧ unchangedForm d (doc s') ∧
    (∀ x g e, x ∈ L → groupOf d x = Some g → errorOf d x = Some e →
       hasClass (lit "error") (doc s') g = negb (passes (checkField d x)) ∧
       textOf (doc s') e = errorText (checkField d x)) ∧
    (∀ n, Some n ∉ groupOf d <$> L →
       hasClass (lit "error") (doc s') n = hasClass (lit "error") (doc s) n) ∧
    (∀ n, Some n ∉ errorOf d <$> L → textOf (doc s') n = textOf (doc s) n).
Proof.
  induction L as [|y L IH]; intros Hok Hndg Hnde acc s Hun.
  - exists s. cbn. rewrite andb_true_r.
    split; [done|]. split; [apply sameWindow_refl|]. split; [done|].
    split; [|done]. intros x g e Hx. by apply elem_of_nil in Hx.
  - apply Forall_cons_1 in Hok as [Hy Hok].
    rewrite fmap_cons in Hndg, Hnde.
    pose proof (NoDup_cons_1_1 _ _ Hndg) as Hgy.
    pose proof (NoDup_cons_1_2 _ _ Hndg) as Hndg'.
    pose proof (NoDup_cons_1_1 _ _ Hnde) as Hey.
    pose proof (NoDup_cons_1_2 _ _ Hnde) as Hnde'.
    apply fieldOk_spec in Hy as (g & e & Hg & He & Hleaf & Hc).
    destruct (validateField_ok y s g e)
      as (s1 & Hrun & Hw1 & Hun1 & Hflag & Htext & Hflags & Htexts).
    { by rewrite (unchanged_groupOf _ _ Hun). }
    { by rewrite (unchanged_errorOf _ _ Hun). }
    { by rewrite (unchanged_isLeaf _ _ Hun). }
    { by rewrite (unchanged_checkField _ _ Hun). }
    rewrite (unchanged_checkField _ _ Hun) in Hrun, Hflag, Htext.
    assert (Hun1' : unchangedForm d (doc s1)) by (by eapply unchangedForm_trans).
    destruct (IH Hok Hndg' Hnde' (if passes (checkField d y) then acc else false)
                s1 Hun1')
      as (s2 & Hrun2 & Hw2 & Hun2 & Hfields & Hflags2 & Htexts2).
    exists s2. rewrite validateFields_cons, Hrun, Hrun2. split.
    { f_equal. cbn. by destruct (passes (checkField d y)), acc. }
    split; [by eapply sameWindow_trans|]. split; [done|].
    split; [|split].
    + intros x g' e' Hx Hg' He'. apply elem_of_cons in Hx as [->|Hx].
      * assert (g' = g) as -> by congruence.
        assert (e' = e) as -> by congruence.
        rewrite Hflags2, Htexts2; [done|by rewrite <-He|by rewrite <-Hg].
      * by apply Hfields.
    + intros n Hn. rewrite fmap_cons, not_elem_of_cons in Hn.
      destruct Hn as [Hn1 Hn2]. rewrite Hflags2 by done.
      apply Hflags. congruence.
    + intros n Hn. rewrite fmap_cons, not_elem_of_cons in Hn.
      destruct Hn as [Hn1 Hn2]. rewrite Htexts2 by done.
      apply Htexts. congruence.
Qed.

Lemma formOk_spec s :
  formOk s = true →
  (∃ f, contactForm s = Some f) ∧
  Forall (λ x, fieldOk (doc s) x = true) (fieldsOf s) ∧
  NoDup (groupOf (doc s) <$> fieldsOf s) ∧
  NoDup (errorOf (doc s) <$> fieldsOf s).
Proof.
  unfold formOk. rewrite !andb_true_iff, !bool_decide_eq_true, forallb_forall.
  intros [[[[f Hf] H2] H3] H4]. repeat split; try done; [by exists f|].
  apply List.Forall_forall. intros x Hx. by apply H2.
Qed.

(** [validateForm] in a well-formed form: the result, and the
    annotations of every field afterwards. *)
Lemma validateForm_spec s :
  formOk s = true →
  ∃ s', validateForm s
        = Normal (forallb (λ x, passes (checkField (doc s) x)) (fieldsOf s)) s' ∧
    sameWindow s s' ∧ unchangedForm (doc s) (doc s') ∧
    ∀ x g e, x ∈ fieldsOf s →
      groupOf (doc s) x = Some g → errorOf (doc s) x = Some e →
      hasClass (lit "error") (doc s') g = negb (passes (checkField (doc s) x)) ∧
      textOf (doc s') e = errorText (checkField (doc s) x).
Proof.
  intros Hok. apply formOk_spec in Hok as ((f & Hf) & Hfields & Hndg & Hnde).
  destruct (validateFields_spec (doc s) (fieldsOf s) Hfields Hndg Hnde true s
              (unchangedForm_refl _))
    as (s' & Hrun & Hw & Hun & Hres & _).
  exists s'. split; [|done].
  unfold validateForm, bind, gets. rewrite Hf. cbn.
  unfold fieldsOf in *. rewrite Hf in *. exact Hrun.
Qed.

(** C7.  In a well-formed form [validateForm] returns [true] exactly when
    [validateField] returns [true] for every field; no field is skipped:
    after the call every field's group carries the [error] flag exactly
    when [validateField] returns [false] for that field, with the matching
    text in its error element, whatever the results for the other fields. *)
Theorem validateForm_checks_every_field s :
  formOk s = true →
  ∃ s', validateForm s
        = Normal (forallb (λ x, passes (checkField (doc s) x)) (fieldsOf s)) s' ∧
    sameWindow s s' ∧ unchangedForm (doc s) (doc s') ∧
    ∀ x, x ∈ fieldsOf s →
      (∃ sx, validateField x s = Normal (passes (checkField (doc s) x)) sx) ∧
      ∃ g e, groupOf (doc s) x = Some g ∧ errorOf (doc s) x = Some e ∧
        hasClass (lit "error") (doc s') g = negb (passes (checkField (doc s) x)) ∧
        textOf (doc s') e = errorText (checkField (doc s) x).
Proof.
  intros Hok.
  destruct (validateForm_spec s Hok) as (s' & Hrun & Hw & Hun & Hflags).
  exists s'. split; [done|]. split; [done|]. split; [done|].
  intros x Hx. apply formOk_spec in Hok as (_ & Hall & _).
  destruct (fieldOk_spec (doc s) x) as (g & e & Hg & He & Hleaf & Hc).
  { by apply (proj1 (List.Forall_forall _ _) Hall), list_elem_of_In. }
  split.
  - destruct (validateField_ok x s g e Hg He Hleaf Hc) as (sx & Hrunx & _).
    by exists sx.
  - exists g, e. split; [done|]. split; [done|]. by apply Hflags.
Qed.
(** ** Submission of an invalid form *)

Lemma elementQuerySelectorAll_and r a b (d : Document) :
  elementQuerySelectorAll r (SelAnd a b) d
  = filter (λ n, matchesAt d b n) (elementQuerySelectorAll r a d).
Proof.
  unfold elementQuerySelectorAll. rewrite list_filter_filter.
  apply list_filter_iff. intros n. unfold matchesAt.
  destruct (d !! n) as [e|]; simpl.
  - destruct (isDescendant d r n), (matchesElement a e), (matchesElement b e);
      simpl; tauto.
  - destruct (isDescendant d r n); simpl; tauto.
Qed.

Lemma head_filter_aligned (grp : nat → option nat) (p q : nat → bool) F G x g :
  Some <$> G = grp <$> F →
  (∀ x' g', x' ∈ F → grp x' = Some g' → p g' = q x') →
  head (filter (λ y, q y) F) = Some x → grp x = Some g →
  head (filter (λ y, p y) G) = Some g.
Proof.
  revert G. induction F as [|y F IH]; intros G HG Hpq Hx Hg; [done|].
  destruct G as [|gy G]; [done|]. rewrite !fmap_cons in HG.
  injection HG as Hgy HG. rewrite filter_cons in Hx. rewrite filter_cons.
  rewrite (Hpq y gy) by (done || by left).
  destruct (decide (q y)) as [Hq|Hq].
  - cbn in Hx. injection Hx as ->. cbn. congruence.
  - apply IH; try done. intros x' g' Hx'. apply Hpq. by right.
Qed.

(** [focus] moves the focus and may re-validate the field that loses
    it. *)
Lemma focus_spec n s :
  ∃ s', focus n s = Normal tt s' ∧ annotated (doc s) (doc s') ∧
        s' = setFocused (Some n) (setDoc (doc s') s).
Proof.
  unfold focus, bind, gets, when, modify, ret, dispatch. cbn.
  case_bool_decide as Hold.
  - exists s. split; [done|]. split; [apply annotated_refl|].
    destruct s; cbn in *. by rewrite Hold.
  - destruct (focused s) as [o|] eqn:Ho.
    + case_bool_decide.
      * destruct (validateField_frame o s) as (s1 & Hrun & Hann & Hw).
        exists (setFocused (Some n) s1).
        destruct Hrun as [-> | [-> | ->]]; (split; [done|]); (split; [done|]);
          cbn; rewrite Hw; done.
      * exists (setFocused (Some n) s). split; [done|].
        split; [apply annotated_refl | done].
    + exists (setFocused (Some n) s). split; [done|].
      split; [apply annotated_refl | done].
Qed.
Lemma groupsInOrder_spec s f :
  contactForm s = Some f → groupsInOrder s = true →
  Some <$> elementQuerySelectorAll f formGroupSel (doc s)
  = groupOf (doc s) <$> fieldsOf s ∧
  ∀ x g, x ∈ fieldsOf s → groupOf (doc s) x = Some g →
         elementQuerySelector g fieldSel (doc s) = Some x.
Proof.
  unfold groupsInOrder. intros ->.
  rewrite andb_true_iff, bool_decide_eq_true, forallb_forall.
  intros [H1 H2]. split; [done|]. intros x g Hx Hg.
  apply list_elem_of_In, H2 in Hx. rewrite Hg in Hx.
  by apply bool_decide_eq_true in Hx.
Qed.

Lemma unchanged_formGroups (d d' : Document) f :
  unchangedForm d d' →
  elementQuerySelectorAll f formGroupSel d' = elementQuerySelectorAll f formGroupSel d.
Proof.
  intros [Hsk Hann]. symmetry. apply skeleton_elementQuerySelectorAll; [done|].
  intros n. symmetry. apply (annotated_hasClass _ _ Hann). done.
Qed.

Lemma unchanged_fields (d d' : Document) f :
  sameSkeleton d d' →
  elementQuerySelectorAll f fieldSel d' = elementQuerySelectorAll f fieldSel d.
Proof.
  intros Hsk. symmetry. apply skeleton_elementQuerySelectorAll; [done|].
  by apply skeleton_matches_field.
Qed.

Lemma activePages_annotated s s' :
  annotated (doc s) (doc s') → pages s' = pages s →
  activePages s' = activePages s.
Proof.
  intros Hann Hp. unfold activePages. rewrite Hp. apply list_filter_iff.
  intros n. by rewrite (annotated_hasClass _ _ Hann).
Qed.

Lemma activeLinks_annotated s s' :
  annotated (doc s) (doc s') → navLinks s' = navLinks s →
  activeLinks s' = activeLinks s.
Proof.
  intros Hann Hp. unfold activeLinks. rewrite Hp. apply list_filter_iff.
  intros n. by rewrite (annotated_hasClass _ _ Hann).
Qed.

Lemma firstInvalid_fails s x :
  firstInvalid s = Some x →
  forallb (λ x, passes (checkField (doc s) x)) (fieldsOf s) = false.
Proof.
  unfold firstInvalid. intros H. apply head_filter_Some in H as [Hx Hin].
  apply not_true_is_false. rewrite forallb_forall. intros Hall.
  apply list_elem_of_In, Hall in Hin. by rewrite Hin in Hx.
Qed.

(** ** Submission of a valid form and the reset *)

Lemma getter_alter {B} (get : Element → B) (dflt : B) f n (d : Document) m :
  (∀ e, get (f e) = get e) →
  from_option get dflt (alter f n d !! m) = from_option get dflt (d !! m).
Proof.
  intros Hf. destruct (decide (n = m)) as [->|Hne].
  - rewrite list_lookup_alter_eq. destruct (d !! m); simpl; auto.
  - by rewrite list_lookup_alter_ne.
Qed.

Lemma forEachNode_cons f n L (d : Document) :
  forEachNode f (n :: L) d = forEachNode f L (f n d).
Proof. done. Qed.

Lemma resetFormCallback_spec s f :
  contactForm s = Some f → tagOf (doc s) f = lit "form" →
  resetFormCallback s
  = Normal tt (setDoc (resetDocument f (formSuccess s) (doc s)) s).
Proof.
  intros Hf Htag.
  unfold resetFormCallback, requireForm, bind, gets, whenSome, modifyDoc,
    modify, ret. rewrite Hf. cbn. rewrite Htag.
  unfold streq. rewrite bool_decide_eq_true_2 by done. cbn.
  unfold resetDocument. by destruct (formSuccess s).
Qed.

Lemma cleared_refl (d : Document) : cleared d d.
Proof. intros n. auto. Qed.

Lemma cleared_trans (d1 d2 d3 : Document) :
  cleared d1 d2 → cleared d2 d3 → cleared d1 d3.
Proof.
  intros H12 H23 n. destruct (H12 n) as [Hc Ht], (H23 n) as [Hc' Ht'].
  split; [auto|]. destruct Ht' as [->| ->]; auto.
Qed.

Lemma cleared_forEachNode f L (d : Document) :
  (∀ n d', cleared d' (f n d')) → cleared d (forEachNode f L d).
Proof.
  intros Hf. revert d. induction L as [|n L IH]; intros d;
    [apply cleared_refl|].
  rewrite forEachNode_cons. eapply cleared_trans; [apply Hf | apply IH].
Qed.

Lemma annotated_forEachNode f L (d : Document) :
  (∀ n d', annotated d' (f n d')) → annotated d (forEachNode f L d).
Proof.
  intros Hf. revert d. induction L as [|n L IH]; intros d;
    [apply annotated_refl|].
  rewrite forEachNode_cons. eapply annotated_trans; [apply Hf | apply IH].
Qed.

Lemma cleared_classListRemove g (d : Document) :
  cleared d (classListRemove (lit "error") g d).
Proof.
  intros n. split.
  - rewrite hasClass_remove. by intros [? _]%andb_true_iff.
  - left. apply textOf_alter_class.
Qed.

Lemma cleared_setTextContent e (d : Document) :
  cleared d (setTextContent [] e d).
Proof.
  intros n. split.
  - by rewrite hasClass_setTextContent.
  - rewrite textOf_setTextContent. case_bool_decide; auto.
Qed.

Lemma cleared_addHidden b (d : Document) :
  cleared d (classListAdd (lit "hidden") b d).
Proof.
  intros n. split.
  - rewrite hasClass_add.
    rewrite (bool_decide_eq_false_2 (lit "error" = lit "hidden")) by done.
    by rewrite orb_false_r.
  - left. apply textOf_alter_class.
Qed.

Lemma cleared_alter f n (d : Document) :
  (∀ e, el_class (f e) = el_class e) → (∀ e, el_text (f e) = el_text e) →
  cleared d (alter f n d).
Proof.
  intros Hc Ht m. split.
  - unfold hasClass.
    rewrite (getter_alter (λ e, bool_decide (lit "error" ∈ el_class e))); [done|].
    intros e. by rewrite Hc.
  - left. unfold textOf. by apply getter_alter.
Qed.
Lemma length_resetControls f (d : Document) :
  length (resetControls f d) = length d.
Proof.
  unfold resetControls. apply length_forEachNode. intros. apply length_alter.
Qed.

Lemma valueOf_restored L (d : Document) x :
  valueOf (forEachNode (λ n d', alter (λ e, setValue (el_defaultValue e) e) n d')
             L d) x
  = if bool_decide (x ∈ L) then defaultValueOf d x else valueOf d x.
Proof.
  revert d. induction L as [|n L IH]; intros d; [done|].
  rewrite forEachNode_cons, IH.
  assert (Hd : defaultValueOf
                 (alter (λ e, setValue (el_defaultValue e) e) n d) x
               = defaultValueOf d x) by (by apply getter_alter).
  assert (Hv : valueOf (alter (λ e, setValue (el_defaultValue e) e) n d) x
               = if bool_decide (x = n) then defaultValueOf d x else valueOf d x).
  { unfold valueOf, defaultValueOf. destruct (decide (x = n)) as [->|Hxn].
    - rewrite (bool_decide_eq_true_2 (n = n)) by done.
      rewrite list_lookup_alter_eq. by destruct (d !! n).
    - rewrite (bool_decide_eq_false_2 (x = n)) by done.
      by rewrite list_lookup_alter_ne. }
  rewrite Hd, Hv.
  destruct (decide (x = n)) as [->|Hne].
  - rewrite (bool_decide_eq_true_2 (n ∈ n :: L)) by left.
    rewrite (bool_decide_eq_true_2 (n = n)) by done.
    by destruct (bool_decide (n ∈ L)).
  - rewrite (bool_decide_eq_false_2 (x = n)) by done.
    apply (f_equal (λ b : bool, if b then _ else _)). apply bool_decide_ext.
    rewrite elem_of_cons. tauto.
Qed.

Lemma displayOf_setDisplay v f (d : Document) n :
  displayOf (alter (setDisplay v) f d) n =
  if bool_decide (n = f ∧ (f < length d)%nat) then v else displayOf d n.
Proof.
  unfold displayOf. destruct (decide (f = n)) as [->|Hne].
  - rewrite list_lookup_alter_eq. destruct (d !! n) as [e|] eqn:He; simpl.
    + apply lookup_lt_Some in He. by rewrite (bool_decide_eq_true_2 (n = n ∧ _)).
    + apply lookup_ge_None in He.
      rewrite (bool_decide_eq_false_2 (n = n ∧ _)); [done|]. lia.
  - rewrite list_lookup_alter_ne by done.
    rewrite (bool_decide_eq_false_2 (n = f ∧ _)); [done|]. intros [? _]. congruence.
Qed.

(** The document after the reset callback. *)
Lemma resetDocument_spec f success (d : Document) :
  (f < length d)%nat → (∀ b, success = Some b → (b < length d)%nat) →
  displayOf (resetDocument f success d) f = lit "flex" ∧
  (∀ b, success = Some b →
        hasClass (lit "hidden") (resetDocument f success d) b = true) ∧
  (∀ x, x ∈ elementQuerySelectorAll f fieldSel d →
        valueOf (resetDocument f success d) x = defaultValueOf d x) ∧
  cleared d (resetDocument f success d).
Proof.
  intros Hf Hb. unfold resetDocument.
  set (d0 := resetControls f d).
  set (d1 := alter (setDisplay (lit "flex")) f d0).
  set (d2 := from_option (λ b, classListAdd (lit "hidden") b d1) d1 success).
  set (d3 := forEachNode (classListRemove (lit "error"))
               (documentQuerySelectorAll formGroupSel d2) d2).
  set (d4 := forEachNode (setTextContent [])
               (documentQuerySelectorAll (SelClass (lit "error-message")) d3) d3).
  assert (Hl0 : length d0 = length d) by apply length_resetControls.
  assert (Hl1 : length d1 = length d) by (unfold d1; by rewrite length_alter).
  assert (Hann : annotated d2 d4).
  { eapply annotated_trans; apply annotated_forEachNode; intros.
    - apply annotated_classListRemove.
    - apply annotated_setTextContent. }
  assert (Hcl : cleared d d4).
  { eapply cleared_trans with d0.
    { unfold d0, resetControls. apply cleared_forEachNode. intros.
      by apply cleared_alter. }
    eapply cleared_trans with d1. { by apply cleared_alter. }
    eapply cleared_trans with d2.
    { unfold d2. destruct success; [apply cleared_addHidden|apply cleared_refl]. }
    eapply cleared_trans with d3.
    - apply cleared_forEachNode. intros. apply cleared_classListRemove.
    - apply cleared_forEachNode. intros. apply cleared_setTextContent. }
  assert (Hd2 : ∀ n, displayOf d2 n = displayOf d1 n ∧ valueOf d2 n = valueOf d1 n).
  { intros n. unfold d2. destruct success as [b|]; [|done]. simpl.
    split; by apply getter_alter. }
  split; [|split; [|split; [|done]]].
  - rewrite (annotated_displayOf _ _ Hann), (proj1 (Hd2 f)).
    unfold d1. rewrite displayOf_setDisplay, Hl0.
    by rewrite (bool_decide_eq_true_2 (f = f ∧ _)).
  - intros b ->. rewrite (annotated_hasClass _ _ Hann) by done.
    unfold d2. simpl. rewrite hasClass_add, Hl1.
    rewrite !bool_decide_eq_true_2; auto. by rewrite orb_true_r.
  - intros x Hx. rewrite (annotated_valueOf _ _ Hann), (proj2 (Hd2 x)).
    unfold d1. unfold valueOf at 1. rewrite getter_alter by done.
    fold (valueOf d0 x). unfold d0, resetControls.
    rewrite valueOf_restored. by rewrite bool_decide_eq_true_2.
Qed.
Lemma resetOk_spec s f :
  contactForm s = Some f → resetOk s = true →
  tagOf (doc s) f = lit "form" ∧ (f < length (doc s))%nat ∧
  (∀ x, x ∈ fieldsOf s → defaultValueOf (doc s) x = []) ∧
  (∀ b, formSuccess s = Some b → (b < length (doc s))%nat).
Proof.
  unfold resetOk. intros Hf. rewrite Hf.
  rewrite !andb_true_iff, forallb_forall. unfold streq.
  rewrite bool_decide_eq_true. intros [[Htag Hdef] Hb].
  split; [done|]. split; [|split].
  - unfold tagOf in Htag. destruct (doc s !! f) eqn:He; [|done].
    by apply lookup_lt_Some in He.
  - intros x Hx. apply list_elem_of_In, Hdef in Hx.
    by apply bool_decide_eq_true in Hx.
  - intros b Hbs. rewrite Hbs in Hb. by apply bool_decide_eq_true in Hb.
Qed.

(** The document right after a successful submission. *)
Lemma submitted_spec f success (d : Document) :
  (f < length d)%nat →
  let d' := from_option
              (λ b, classListRemove (lit "hidden") b
                      (alter (setDisplay (lit "none")) f d))
              (alter (setDisplay (lit "none")) f d) success in
  length d' = length d ∧ sameSkeleton d d' ∧
  displayOf d' f = lit "none" ∧
  (∀ b, success = Some b → hasClass (lit "hidden") d' b = false) ∧
  (∀ n, hasClass (lit "error") d' n = hasClass (lit "error") d n) ∧
  (∀ n, textOf d' n = textOf d n ∧ valueOf d' n = valueOf d n ∧
        defaultValueOf d' n = defaultValueOf d n).
Proof.
  intros Hf.
  set (d1 := alter (setDisplay (lit "none")) f d).
  assert (Hl1 : length d1 = length d) by apply length_alter.
  assert (Hsk1 : sameSkeleton d d1) by (by apply skeleton_alter).
  assert (Hd1 : displayOf d1 f = lit "none").
  { unfold d1. rewrite displayOf_setDisplay.
    by rewrite (bool_decide_eq_true_2 (f = f ∧ _)). }
  assert (Hc1 : ∀ c n, hasClass c d1 n = hasClass c d n).
  { intros c n. unfold hasClass, d1.
    by rewrite (getter_alter (λ e, bool_decide (c ∈ el_class e))). }
  assert (Hg1 : ∀ n, textOf d1 n = textOf d n ∧ valueOf d1 n = valueOf d n ∧
                     defaultValueOf d1 n = defaultValueOf d n).
  { intros n. repeat split; by apply getter_alter. }
  destruct success as [b|]; simpl.
  - split; [by rewrite length_classListRemove|].
    split; [eapply skeleton_trans; [done|apply skeleton_classListRemove]|].
    split; [rewrite <-Hd1; by apply getter_alter|].
    split.
    { intros ? [= <-]. rewrite hasClass_remove.
      rewrite !bool_decide_eq_true_2 by done. by rewrite andb_false_r. }
    split.
    { intros n. rewrite hasClass_remove.
      rewrite (bool_decide_eq_false_2 (lit "error" = lit "hidden")) by done.
      by rewrite andb_true_r. }
    intros n. destruct (Hg1 n) as (<- & <- & <-).
    repeat split; by apply getter_alter.
  - repeat split; try done; apply Hg1.
Qed.
(** ** The spec's examples *)

Example name_john_doe : test namePattern (lit "John Doe") = true.
Proof. reflexivity. Qed.

Example name_with_digit : test namePattern (lit "J0hn") = false.
Proof. reflexivity. Qed.

Example email_minimal : test emailPattern (lit "a@b.c") = true.
Proof. reflexivity. Qed.

Example email_without_at : test emailPattern (lit "not-an-email") = false.
Proof. reflexivity. Qed.

Example message_lengths :
  test messagePattern (replicate 9 0x61) = false ∧
  test messagePattern (replicate 10 0x61) = true ∧
  test messagePattern (replicate 500 0x61) = true ∧
  test messagePattern (replicate 501 0x61) = false.
Proof. repeat split; by vm_compute. Qed.

Example message_with_line_break :
  length twoLineMessage = 25%nat ∧ test messagePattern twoLineMessage = false.
Proof. split; by vm_compute. Qed.

Example trim_strips_both_ends :
  trim ([0x20; 0x09] ++ lit "a b" ++ [0x0A; 0xA0]) = lit "a b".
Proof. reflexivity. Qed.

Example fragment_is_percent_encoded : urlFragment (lit "a b") = lit "a%20b".
Proof. reflexivity. Qed.

(** ** Instances on the sample page *)

Lemma navigateToPage_activates_exactly_one_witness :
  navOk (sampleState [] [] []) = true ∧ lit "projects" ∈ pageMap ∧
  ∃ s', navigateToPage (lit "projects") (sampleState [] [] []) = Normal tt s' ∧
        onlyActive (lit "projects") s' ∧ navOk s' = true.
Proof.
  assert (H1 : navOk (sampleState [] [] []) = true) by (vm_compute; reflexivity).
  assert (H2 : lit "projects" ∈ pageMap).
  { apply (bool_decide_unpack (lit "projects" ∈ pageMap)). vm_compute. exact I. }
  split; [exact H1|]. split; [exact H2|].
  exact (navigateToPage_activates_exactly_one _ _ H1 H2).
Defined.

Lemma navigateToPage_fragment_roundtrip_witness :
  lit "about" ∈ pageMap ∧
  ∃ s', navigateToPage (lit "about") (sampleState [] [] []) = Normal tt s' ∧
    slice1 (locationHash s') = lit "about" ∧
    (slice1 (locationHash (sampleState [] [] [])) = lit "about" →
       historyEntries s' = historyEntries (sampleState [] [] []) ∧
       historyIndex s' = historyIndex (sampleState [] [] [])) ∧
    (slice1 (locationHash (sampleState [] [] [])) ≠ lit "about" →
       historyEntries s'
       = take (S (historyIndex (sampleState [] [] [])))
           (historyEntries (sampleState [] [] [])) ++ [lit "about"] ∧
       historyIndex s' = S (historyIndex (sampleState [] [] []))).
Proof.
  assert (H : lit "about" ∈ pageMap).
  { apply (bool_decide_unpack (lit "about" ∈ pageMap)). vm_compute. exact I. }
  split; [exact H|].
  exact (navigateToPage_fragment_roundtrip _ (sampleState [] [] []) H).
Defined.



Lemma validateField_required_witness :
  let s := sampleState [0x20; 0x09] (lit "a@b.c") (lit "Hello there, world") in
  groupOf (doc s) 17 = Some 16%nat ∧ errorOf (doc s) 17 = Some 18%nat ∧
  trim (valueOf (doc s) 17) = [] ∧
  ∃ s', validateField 17 s = Normal false s' ∧
        textOf (doc s') 18 = lit "This field is required" ∧
        hasClass (lit "error") (doc s') 16 = true.
Proof.
  intros s.
  assert (H1 : groupOf (doc s) 17 = Some 16%nat) by (vm_compute; reflexivity).
  assert (H2 : errorOf (doc s) 17 = Some 18%nat) by (vm_compute; reflexivity).
  assert (H3 : trim (valueOf (doc s) 17) = []) by (vm_compute; reflexivity).
  split; [exact H1|]. split; [exact H2|]. split; [exact H3|].
  exact (validateField_required 17 s 16 18 H1 H2 H3).
Defined.

Lemma validateField_without_group_or_error_witness :
  let s := load (bareForm (lit "John Doe")) [] in
  (groupOf (doc s) 2 = None ∨ errorOf (doc s) 2 = None) ∧
  validateField 2 s = Normal false s ∧
  ∀ f, contactForm s = Some f →
       2%nat ∈ elementQuerySelectorAll f fieldSel (doc s) →
       ∀ s', validateForm s ≠ Normal true s'.
Proof.
  intros s.
  assert (H : groupOf (doc s) 2 = None ∨ errorOf (doc s) 2 = None).
  { left. vm_compute. reflexivity. }
  split; [exact H|].
  exact (validateField_without_group_or_error 2 s H).
Defined.

Lemma validateForm_checks_every_field_witness :
  let s := sampleState (lit "J0hn") (lit "a@b.c") [] in
  formOk s = true ∧
  ∃ s', validateForm s
        = Normal (forallb (λ x, passes (checkField (doc s) x)) (fieldsOf s)) s' ∧
    sameWindow s s' ∧ unchangedForm (doc s) (doc s') ∧
    ∀ x, x ∈ fieldsOf s →
      (∃ sx, validateField x s = Normal (passes (checkField (doc s) x)) sx) ∧
      ∃ g e, groupOf (doc s) x = Some g ∧ errorOf (doc s) x = Some e ∧
        hasClass (lit "error") (doc s') g = negb (passes (checkField (doc s) x)) ∧
        textOf (doc s') e = errorText (checkField (doc s) x).
Proof.
  intros s.
  assert (H : formOk s = true) by (vm_compute; reflexivity).
  split; [exact H|]. exact (validateForm_checks_every_field s H).
Defined.



(** * Further properties

    ** The menu toggle *)

Ltac bool_hyps :=
  repeat match goal with
  | H : bool_decide _ = true |- _ => apply bool_decide_eq_true in H
  | H : bool_decide _ = false |- _ => apply bool_decide_eq_false in H
  | H : negb _ = true |- _ => apply negb_true_iff in H
  | H : negb _ = false |- _ => apply negb_false_iff in H
  | H : _ && _ = true |- _ => apply andb_true_iff in H as [? ?]
  end.

Lemma hasClass_toggle c c' n m (d : Document) :
  hasClass c' (classListToggle c n d) m =
  xorb (hasClass c' d m)
       (bool_decide (c' = c) && bool_decide (m = n) && bool_decide (m < length d)%nat).
Proof.
  unfold classListToggle. destruct (hasClass c d n) eqn:Hc.
  - rewrite hasClass_remove.
    destruct (decide (c' = c)) as [->|Hne], (decide (m = n)) as [->|Hmn].
    + rewrite Hc. rewrite !bool_decide_eq_true_2 by done. simpl.
      unfold hasClass in Hc. destruct (d !! n) eqn:Hl; [|done].
      apply lookup_lt_Some in Hl. by rewrite bool_decide_eq_true_2.
    + rewrite (bool_decide_eq_false_2 (m = n)) by done.
      by rewrite !andb_false_r, andb_true_r, xorb_false_r.
    + rewrite (bool_decide_eq_false_2 (c' = c)) by done.
      by rewrite andb_true_r, xorb_false_r.
    + rewrite (bool_decide_eq_false_2 (c' = c)) by done.
      by rewrite andb_true_r, xorb_false_r.
  - rewrite hasClass_add.
    destruct (decide (c' = c)) as [->|Hne], (decide (m = n)) as [->|Hmn].
    + rewrite Hc. by rewrite !bool_decide_eq_true_2 by done.
    + rewrite (bool_decide_eq_false_2 (m = n)) by done.
      by rewrite !andb_false_r, orb_false_r, xorb_false_r.
    + rewrite (bool_decide_eq_false_2 (c' = c)) by done.
      by rewrite orb_false_r, xorb_false_r.
    + rewrite (bool_decide_eq_false_2 (c' = c)) by done.
      by rewrite orb_false_r, xorb_false_r.
Qed.

Lemma length_classListToggle c n (d : Document) :
  length (classListToggle c n d) = length d.
Proof.
  unfold classListToggle.
  destruct (hasClass c d n); [apply length_classListRemove | apply length_classListAdd].
Qed.

Lemma skeleton_classListToggle c n (d : Document) :
  sameSkeleton d (classListToggle c n d).
Proof.
  unfold classListToggle.
  destruct (hasClass c d n);
    [apply skeleton_classListRemove | apply skeleton_classListAdd].
Qed.

Lemma onToggleClick_spec s :
  onToggleClick s =
  Normal tt
    (match mobileToggle s, navMenu s with
     | Some t, Some m =>
         setDoc (classListToggle (lit "active") m
                   (classListToggle (lit "active") t (doc s))) s
     | _, _ => s
     end).
Proof.
  unfold onToggleClick, bind, gets, modifyDoc, modify, ret.
  by destruct (mobileToggle s), (navMenu s).
Qed.

(** X1.  One click on the menu toggle flips the [active] class
    of the toggle and of the menu, and changes no other class of any
    element and nothing outside the document. *)
Theorem onToggleClick_flips s t m :
  mobileToggle s = Some t → navMenu s = Some m → menuRefsOk s = true →
  ∃ s', onToggleClick s = Normal tt s' ∧ sameWindow s s' ∧
        sameSkeleton (doc s) (doc s') ∧
        ∀ c n, hasClass c (doc s') n =
               xorb (hasClass c (doc s) n)
                    (bool_decide (c = lit "active")
                     && (bool_decide (n = t) || bool_decide (n = m))).
Proof.
  intros Ht Hm Hok. rewrite onToggleClick_spec, Ht, Hm.
  unfold menuRefsOk in Hok. rewrite Ht, Hm in Hok.
  apply andb_true_iff in Hok as [[Hne Hlt]%andb_true_iff Hlm].
  apply bool_decide_eq_true in Hne, Hlt, Hlm.
  eexists. split; [reflexivity|]. split; [done|]. split.
  { cbn. eapply skeleton_trans; apply skeleton_classListToggle. }
  intros c n. cbn. rewrite !hasClass_toggle, length_classListToggle.
  destruct (bool_decide (n = t)) eqn:E1, (bool_decide (n = m)) eqn:E2,
    (bool_decide (n < length (doc s))%nat) eqn:E3,
    (bool_decide (c = lit "active")), (hasClass c (doc s) n);
    simpl; try done; exfalso;
    bool_hyps; subst; lia || done.
Qed.

(** X2.  Two clicks on the menu toggle restore every class of
    every element, whatever the toggle and the menu are. *)
Theorem onToggleClick_twice s :
  ∃ s1 s2, onToggleClick s = Normal tt s1 ∧ onToggleClick s1 = Normal tt s2 ∧
           sameWindow s s2 ∧ sameSkeleton (doc s) (doc s2) ∧
           ∀ c n, hasClass c (doc s2) n = hasClass c (doc s) n.
Proof.
  destruct (mobileToggle s) as [t|] eqn:Ht, (navMenu s) as [m|] eqn:Hm.
  2-4: exists s, s; rewrite onToggleClick_spec, Ht, ?Hm;
       (split; [done|]); (split; [done|]);
       (split; [by destruct s|]); (split; [apply skeleton_refl | done]).
  eexists. eexists. split; [apply onToggleClick_spec|].
  split; [apply onToggleClick_spec|]. rewrite Ht, Hm. cbn. rewrite Ht, Hm.
  split; [done|]. split.
  { cbn. eapply skeleton_trans; [|apply skeleton_classListToggle].
    eapply skeleton_trans; [|apply skeleton_classListToggle].
    eapply skeleton_trans; apply skeleton_classListToggle. }
  intros c n. cbn. rewrite !hasClass_toggle, !length_classListToggle.
  destruct (hasClass c (doc s) n), (bool_decide (c = lit "active")),
    (bool_decide (n = m)), (bool_decide (n = t)),
    (bool_decide (n < length (doc s))%nat); done.
Qed.

(** ** Classes after a navigation *)

Lemma hasClass_addActive_any c o (d : Document) n :
  (∀ m, o = Some m → (m < length d)%nat) →
  hasClass c (addActive o d) n =
  hasClass c d n || (bool_decide (c = lit "active") && bool_decide (o = Some n)).
Proof.
  intros Hv. destruct o as [m|]; simpl.
  - rewrite hasClass_add. f_equal.
    destruct (decide (n = m)) as [->|Hne].
    + rewrite (bool_decide_eq_true_2 (m = m)), (bool_decide_eq_true_2 (Some m = Some m)),
        (bool_decide_eq_true_2 (m < _)%nat) by auto.
      by rewrite !andb_true_r.
    + rewrite (bool_decide_eq_false_2 (n = m)) by done.
      rewrite (bool_decide_eq_false_2 (Some m = Some n)) by congruence.
      by rewrite !andb_false_r.
  - by rewrite andb_false_r, orb_false_r.
Qed.

Lemma hasClass_closeMenu_any c s (d : Document) n :
  hasClass c (closeMenu s d) n =
  hasClass c d n && negb (bool_decide (c = lit "active") && closedByMenu s n).
Proof.
  unfold closeMenu, closedByMenu.
  destruct (mobileToggle s) as [t|], (navMenu s) as [m|];
    rewrite ?andb_false_r, ?andb_true_r; try done.
  rewrite !hasClass_remove.
  destruct (hasClass c d n), (bool_decide (c = lit "active")),
    (bool_decide (n = t)), (bool_decide (n = m)); done.
Qed.

(** The classes after the steps of [navigateToPage] on the document. *)
Lemma hasClass_navigated c id s n :
  hasClass c
    (closeMenu s
       (addActive (documentQuerySelector (SelDataPage id) (doc s))
          (addActive (getElementById id (doc s)) (deactivated s)))) n =
  if bool_decide (c = lit "active") then
    ((hasClass c (doc s) n
      && negb (bool_decide (n ∈ pages s)) && negb (bool_decide (n ∈ navLinks s)))
     || bool_decide (getElementById id (doc s) = Some n)
     || bool_decide (documentQuerySelector (SelDataPage id) (doc s) = Some n))
    && negb (closedByMenu s n)
  else hasClass c (doc s) n.
Proof.
  destruct (query_bounds id (doc s)) as [Hb1 Hb2].
  assert (length (deactivated s) = length (doc s)) as Hlen.
  { symmetry. apply skeleton_length, skeleton_deactivated. }
  rewrite hasClass_closeMenu_any, !hasClass_addActive_any.
  - unfold deactivated. rewrite !hasClass_removeAll.
    destruct (bool_decide (c = lit "active")); simpl.
    + done.
    + by rewrite !andb_true_r, !orb_false_r.
  - intros m Hm. rewrite Hlen. auto.
  - intros m Hm. rewrite length_addActive, Hlen. auto.
Qed.

(** X3.  Whatever page is asked for, [navigateToPage] leaves
    the mobile menu closed and asks for a scroll to the top. *)
Theorem navigateToPage_closes_menu id s t m :
  isPlain id = true → mobileToggle s = Some t → navMenu s = Some m →
  ∃ s', navigateToPage id s = Normal tt s' ∧
        hasClass (lit "active") (doc s') t = false ∧
        hasClass (lit "active") (doc s') m = false ∧
        scroll s' = Some ScrollToTop.
Proof.
  intros Hp Ht Hm.
  destruct (navigateToPage_plain id s Hp)
    as (s' & Hrun & Hdoc & _ & _ & _ & _ & Hscroll & _).
  exists s'. split; [done|]. rewrite Hdoc, !hasClass_navigated.
  rewrite (bool_decide_eq_true_2 (lit "active" = lit "active")) by done.
  unfold closedByMenu. rewrite Ht, Hm.
  rewrite !(bool_decide_eq_true_2 (t = t)), !(bool_decide_eq_true_2 (m = m)) by done.
  by rewrite orb_true_r, !andb_false_r.
Qed.

(** X4.  A second [navigateToPage] with the same page id changes
    no class of any element and leaves the address and the session history
    as they are; only the skill animation of the about page is scheduled
    once more. *)
Theorem navigateToPage_twice id s :
  id ∈ pageMap →
  ∃ s1 s2, navigateToPage id s = Normal tt s1 ∧
           navigateToPage id s1 = Normal tt s2 ∧
           (∀ c n, hasClass c (doc s2) n = hasClass c (doc s1) n) ∧
           sameSkeleton (doc s1) (doc s2) ∧
           fragment s2 = fragment s1 ∧
           historyEntries s2 = historyEntries s1 ∧
           historyIndex s2 = historyIndex s1 ∧
           timers s2 = (if streq id (lit "about")
                        then timers s1 ++ [(clock s1 + 300, AnimateSkills)]
                        else timers s1).
Proof.
  intros Hid. pose proof (isPlain_pageMap id Hid) as Hp.
  destruct (navigateToPage_plain id s Hp)
    as (s1 & Hrun1 & Hdoc1 & Hpages1 & Hlinks1 & Ht1 & Hm1 & _ & Hf1 & _).
  destruct (navigateToPage_plain id s1 Hp)
    as (s2 & Hrun2 & Hdoc2 & _ & _ & _ & _ & _ & Hf2 & He2 & Hi2 & Htm2).
  exists s1, s2. split; [done|]. split; [done|].
  pose proof (navigated_skeleton id s s1 Hdoc1) as Hsk1.
  pose proof (navigated_skeleton id s1 s2 Hdoc2) as Hsk2.
  assert (fragment s1 = id) as Hfrag.
  { rewrite Hf1, (urlFragment_pageMap id Hid). unfold streq.
    by case_bool_decide. }
  assert (streq (fragment s1) id = true) as Heq
    by (by apply bool_decide_eq_true_2).
  rewrite Heq in Hf2, He2, Hi2.
  repeat split; try done.
  intros c n. rewrite Hdoc2, hasClass_navigated.
  rewrite <-(skeleton_getElementById _ _ Hsk1),
          <-(skeleton_querySelector_dataPage _ _ Hsk1).
  unfold closedByMenu. rewrite Hpages1, Hlinks1, Ht1, Hm1.
  fold (closedByMenu s n).
  rewrite Hdoc1, hasClass_navigated.
  destruct (bool_decide (c = lit "active")); [|done].
  destruct (hasClass c (doc s) n), (bool_decide (n ∈ pages s)),
    (bool_decide (n ∈ navLinks s)),
    (bool_decide (getElementById id (doc s) = Some n)),
    (bool_decide (documentQuerySelector (SelDataPage id) (doc s) = Some n)),
    (closedByMenu s n); done.
Qed.

(** ** Escape, resize and the number keys *)

Lemma closeOpenMenu_spec s :
  closeOpenMenu s =
  match navMenu s with
  | Some m =>
      if hasClass (lit "active") (doc s) m then
        match mobileToggle s with
        | Some t =>
            Normal tt
              (setDoc (classListRemove (lit "active") m
                         (classListRemove (lit "active") t (doc s))) s)
        | None => Thrown TypeError s
        end
      else Normal tt s
  | None => Normal tt s
  end.
Proof.
  unfold closeOpenMenu, bind, gets, when, modifyDoc, modify, ret, throw.
  destruct (navMenu s) as [m|]; [|done].
  destruct (hasClass (lit "active") (doc s) m); [|done].
  by destruct (mobileToggle s).
Qed.

Lemma setDoc_same s : setDoc (doc s) s = s.
Proof. by destruct s. Qed.

(** What a run of [closeOpenMenu] that returns has done. *)
Lemma closeOpenMenu_closes s t m :
  mobileToggle s = Some t → navMenu s = Some m →
  ∃ s', closeOpenMenu s = Normal tt s' ∧ sameWindow s s' ∧
        sameSkeleton (doc s) (doc s') ∧
        ∀ c n, hasClass c (doc s') n =
               hasClass c (doc s) n
               && negb (hasClass (lit "active") (doc s) m
                        && bool_decide (c = lit "active")
                        && (bool_decide (n = t) || bool_decide (n = m))).
Proof.
  intros Ht Hm. rewrite closeOpenMenu_spec, Ht, Hm.
  destruct (hasClass (lit "active") (doc s) m) eqn:Hopen.
  - eexists. split; [reflexivity|]. split; [done|]. cbn. split.
    { eapply skeleton_trans; apply skeleton_classListRemove. }
    intros c n. rewrite !hasClass_remove.
    destruct (hasClass c (doc s) n), (bool_decide (c = lit "active")),
      (bool_decide (n = t)), (bool_decide (n = m)); done.
  - exists s. split; [done|]. split; [by destruct s|].
    split; [apply skeleton_refl|]. intros c n. by rewrite andb_true_r.
Qed.

Lemma onKeyDown_Escape s :
  onKeyDown (lit "Escape") s = closeOpenMenu s.
Proof.
  unfold onKeyDown.
  change (streq (lit "Escape") (lit "Escape")) with true.
  change (strle (lit "1") (lit "Escape") && strle (lit "Escape") (lit "4"))
    with false.
  unfold bind, when, ret. by destruct (closeOpenMenu s) as [[] ?| |].
Qed.


(** X21.  The [Escape] branch and the resize handler check the
    menu but not the toggle: with an open menu and no toggle element each
    of them throws a [TypeError] and the menu stays open. *)
Theorem close_menu_without_toggle s m w :
  navMenu s = Some m → mobileToggle s = None →
  hasClass (lit "active") (doc s) m = true → 768 < w →
  onKeyDown (lit "Escape") s = Thrown TypeError s ∧
  handleResize w s = Thrown TypeError s.
Proof.
  intros Hm Ht Hopen Hw. rewrite onKeyDown_Escape. unfold handleResize.
  rewrite (proj2 (N.ltb_lt _ _) Hw). unfold when.
  by rewrite closeOpenMenu_spec, Hm, Ht, Hopen.
Qed.

(** X30.  A resize to more than 768 pixels closes an open menu; a
    resize to 768 pixels or less changes nothing. *)
Theorem handleResize_closes_menu s t m w :
  mobileToggle s = Some t → navMenu s = Some m →
  ∃ s', handleResize w s = Normal tt s' ∧ sameWindow s s' ∧
        (768 < w → hasClass (lit "active") (doc s') m = false ∧
                   hasClass (lit "active") (doc s') t =
                   hasClass (lit "active") (doc s) t
                   && negb (hasClass (lit "active") (doc s) m)) ∧
        (w ≤ 768 → s' = s).
Proof.
  intros Ht Hm. unfold handleResize.
  destruct (768 <? w) eqn:Hw; unfold when.
  - apply N.ltb_lt in Hw.
    destruct (closeOpenMenu_closes s t m Ht Hm) as (s' & Hrun & Hwin & _ & Hcl).
    exists s'. split; [done|]. split; [done|]. split; [|lia].
    intros _. rewrite !Hcl.
    rewrite (bool_decide_eq_true_2 (lit "active" = lit "active")),
      (bool_decide_eq_true_2 (m = m)), (bool_decide_eq_true_2 (t = t)) by done.
    rewrite orb_true_r. cbn.
    by destruct (hasClass (lit "active") (doc s) m),
      (hasClass (lit "active") (doc s) t).
  - apply N.ltb_ge in Hw. exists s. split; [done|].
    split; [by destruct s|]. split; [lia|done].
Qed.

(** A navigation to a page id in a document with the navigation
    structure. *)
Lemma navigateToPage_page id s :
  navOk s = true → id ∈ pageMap →
  ∃ s', navigateToPage id s = Normal tt s' ∧ onlyActive id s' ∧
        navOk s' = true ∧ sameSkeleton (doc s) (doc s') ∧
        doc s' = closeMenu s
                   (addActive (documentQuerySelector (SelDataPage id) (doc s))
                      (addActive (getElementById id (doc s)) (deactivated s))) ∧
        pages s' = pages s ∧ navLinks s' = navLinks s ∧
        mobileToggle s' = mobileToggle s ∧ navMenu s' = navMenu s ∧
        fragment s' = id ∧
        historyEntries s' =
          (if streq (fragment s) id then historyEntries s
           else take (S (historyIndex s)) (historyEntries s) ++ [id]) ∧
        historyIndex s' =
          (if streq (fragment s) id then historyIndex s else S (historyIndex s)).
Proof.
  intros Hok Hid.
  destruct (navigateToPage_plain id s (isPlain_pageMap id Hid))
    as (s' & Hrun & Hdoc & Hpages & Hlinks & Htoggle & Hmenu & _ & Hf & He & Hi & _).
  exists s'. split; [done|].
  pose proof (navigated_skeleton id s s' Hdoc) as Hsk.
  pose proof Hok as Hok'.
  apply navOk_spec in Hok' as (_ & _ & _ & _ & Hex).
  destruct (Hex id Hid) as (p & l & Hp & Hpin & Hl & Hlin).
  rewrite (urlFragment_pageMap id Hid) in *.
  repeat split; try done.
  - apply (activated_onlyActive id s s' p l); try done.
    intros n Hn. rewrite (navigated_hasClass id s s' n) by done.
    by rewrite Hp, Hl.
  - by rewrite (navOk_ext s s').
  - rewrite Hf. unfold streq. by case_bool_decide.
Qed.

(** X22.  In a document with the navigation structure the keys
    [1] to [4] show the home, about, projects and contact page, whatever
    element has the focus. *)
Theorem onKeyDown_digit s i id :
  navOk s = true → pageMap !! i = Some id →
  ∃ s', onKeyDown [0x31 + N.of_nat i] s = Normal tt s' ∧ onlyActive id s' ∧
        slice1 (locationHash s') = id.
Proof.
  intros Hok Hi.
  assert (id ∈ pageMap) as Hid by (by eapply list_elem_of_lookup_2).
  destruct (navigateToPage_page id s Hok Hid)
    as (s' & Hrun & Hact & _ & _ & _ & _ & _ & _ & _ & Hf & _).
  exists s'. rewrite slice1_locationHash. split; [|done].
  rewrite <-Hrun.
  do 4 (destruct i as [|i]; [injection Hi as <-; reflexivity|]).
  done.
Qed.

(** No key other than [Escape] whose name begins with
    something else than a digit from [1] to [4] has any effect: letters,
    the other digits, and named keys such as [Enter] or [Tab]. *)
Lemma onKeyDown_other_key s c rest :
  c < 0x31 ∨ 0x34 < c → c :: rest ≠ lit "Escape" →
  onKeyDown (c :: rest) s = Normal tt s.
Proof.
  intros Hc Hne. unfold onKeyDown, streq.
  rewrite bool_decide_eq_false_2 by done.
  change (lit "1") with [0x31]. change (lit "4") with [0x34]. cbn [strle].
  replace ((0x31 <? c) || (0x31 =? c) && true) with (0x31 <=? c).
  2:{ rewrite andb_true_r. apply eq_true_iff_eq.
      rewrite orb_true_iff, N.leb_le, N.ltb_lt, N.eqb_eq. lia. }
  destruct Hc as [Hc|Hc].
  - rewrite (proj2 (N.leb_gt _ _)) by lia. done.
  - rewrite (proj2 (N.ltb_ge _ _)), (proj2 (N.eqb_neq _ _)) by lia.
    cbn. by rewrite andb_false_r.
Qed.

(** ** Scrolling *)


(** X7.  [handleScroll] uses [header] unchecked: in a
    document without an element with id [header] every run throws a
    [TypeError] and changes nothing. *)
Theorem handleScroll_without_header s y :
  header s = None → handleScroll y s = Thrown TypeError s.
Proof. intros Hh. unfold handleScroll, bind, gets. by rewrite Hh. Qed.

(** X27.  [isInViewport] asks for the whole rectangle to be inside
    the window, so an element that is taller or wider than the window is
    never in the viewport, wherever it is scrolled to. *)
Theorem isInViewport_oversized rect innerHeight innerWidth clientHeight clientWidth :
  (orElse innerHeight clientHeight < rect_bottom rect - rect_top rect)%Q ∨
  (orElse innerWidth clientWidth < rect_right rect - rect_left rect)%Q →
  isInViewport rect innerHeight innerWidth clientHeight clientWidth = false.
Proof.
  intros Hbig. apply not_true_is_false. unfold isInViewport.
  rewrite !andb_true_iff, !Qle_bool_iff. intros [[[Ht Hl] Hb] Hr].
  destruct Hbig as [Hbig|Hbig]; lra.
Qed.

(** ** The current page *)

Lemma documentQuerySelectorAll_and a b (d : Document) :
  documentQuerySelectorAll (SelAnd a b) d
  = filter (λ n, matchesAt d b n) (documentQuerySelectorAll a d).
Proof.
  unfold documentQuerySelectorAll. rewrite list_filter_filter.
  apply list_filter_iff. intros n. unfold matchesAt.
  destruct (d !! n) as [e|]; simpl.
  - destruct (isConnected d n), (matchesElement a e), (matchesElement b e);
      simpl; tauto.
  - destruct (isConnected d n); simpl; tauto.
Qed.

(** A class query gives the same elements where the tree and the class
    are the same. *)
Lemma documentQuerySelectorAll_class c (d d' : Document) :
  sameSkeleton d d' → (∀ n, hasClass c d' n = hasClass c d n) →
  documentQuerySelectorAll (SelClass c) d' = documentQuerySelectorAll (SelClass c) d.
Proof.
  intros Hsk Hc. symmetry. apply skeleton_documentQuerySelectorAll; [done|].
  intros n. symmetry. apply Hc.
Qed.

Lemma getCurrentPage_pages s :
  pagesCurrent s = true →
  getCurrentPage (doc s) =
  match head (activePages s) with
  | Some p => default [] (idOf (doc s) p)
  | None => lit "home"
  end.
Proof.
  intros Hp. apply bool_decide_eq_true in Hp.
  unfold getCurrentPage, documentQuerySelector, activePages.
  by rewrite documentQuerySelectorAll_and, <-Hp.
Qed.

Lemma pagesCurrent_navigated id s s' :
  pagesCurrent s = true →
  doc s' = closeMenu s
             (addActive (documentQuerySelector (SelDataPage id) (doc s))
                (addActive (getElementById id (doc s)) (deactivated s))) →
  pages s' = pages s →
  pagesCurrent s' = true.
Proof.
  intros Hp Hdoc Hpages. apply bool_decide_eq_true in Hp.
  apply bool_decide_eq_true_2. rewrite Hpages, Hp. symmetry.
  apply documentQuerySelectorAll_class.
  - by eapply navigated_skeleton.
  - intros n. rewrite Hdoc, hasClass_navigated.
    by rewrite (bool_decide_eq_false_2 (lit "page" = lit "active")).
Qed.

(** X28.  After [navigateToPage] with a page id,
    [getCurrentPage] returns that id. *)
Theorem getCurrentPage_after_navigation id s :
  navOk s = true → pagesCurrent s = true → id ∈ pageMap →
  ∃ s', navigateToPage id s = Normal tt s' ∧ getCurrentPage (doc s') = id.
Proof.
  intros Hok Hp Hid.
  destruct (navigateToPage_page id s Hok Hid)
    as (s' & Hrun & (p & l & Hact & Hpid & _) & _ & _ & Hdoc & Hpages & _).
  exists s'. split; [done|].
  rewrite getCurrentPage_pages by (by eapply pagesCurrent_navigated).
  rewrite Hact. simpl. by rewrite Hpid.
Qed.

(** X29.  [getCurrentPage] answers [home] when no page is
    active, as after a navigation to an id that no page has; the home page
    is not shown then. *)
Theorem getCurrentPage_nothing_active id s :
  pageIdsOnly s = true → pagesCurrent s = true →
  id ∉ pageMap → isPlain id = true →
  ∃ s', navigateToPage id s = Normal tt s' ∧ activePages s' = [] ∧
        getCurrentPage (doc s') = lit "home".
Proof.
  intros Hok Hp Hid Hplain.
  destruct (navigateToPage_plain id s Hplain)
    as (s' & Hrun & Hdoc & Hpages & Hlinks & _).
  exists s'. split; [done|].
  destruct (activated_nothingActive s s' (getElementById id (doc s))
             (documentQuerySelector (SelDataPage id) (doc s))) as [Hnone _];
    try done.
  - intros n Hn. by apply navigated_hasClass_le.
  - intros n Hn. by apply unknown_id_misses.
  - split; [done|].
    rewrite getCurrentPage_pages by (by eapply pagesCurrent_navigated).
    by rewrite Hnone.
Qed.

(** ** More on [validateField] *)

Lemma dropWhile_nil p (s : jsstring) : dropWhile p s = [] ↔ forallb p s = true.
Proof.
  induction s as [|c s IH]; simpl; [done|].
  destruct (p c); simpl; [done|]. split; done.
Qed.

Lemma forallb_dropWhile p (s : jsstring) :
  forallb p (dropWhile p s) = true → dropWhile p s = [].
Proof.
  induction s as [|c s IH]; simpl; [done|].
  destruct (p c) eqn:Hc; simpl; [done|]. by rewrite Hc.
Qed.

Lemma forallb_reverse {A} (p : A → bool) (l : list A) :
  forallb p (reverse l) = forallb p l.
Proof.
  induction l as [|a l IH]; [done|].
  rewrite reverse_cons, forallb_app, IH. simpl.
  by rewrite andb_true_r, andb_comm.
Qed.

(** [trim] gives the empty string exactly for strings of white space and
    line terminators. *)
Lemma trim_nil v : trim v = [] ↔ forallb isSpace v = true.
Proof.
  unfold trim, trimEnd, trimStart.
  rewrite <-(reverse_involutive []), (inj_iff reverse). simpl.
  change (reverse []) with (@nil N).
  rewrite dropWhile_nil, forallb_reverse. split.
  - intros H. by apply forallb_dropWhile, dropWhile_nil in H.
  - intros H. apply dropWhile_nil in H. by rewrite H.
Qed.

Lemma validationRules_own name r :
  validationRules name = OwnRule r → r ∈ [nameRule; emailRule; messageRule].
Proof.
  unfold validationRules.
  repeat (destruct (streq name _); [intros [= <-]; rewrite !elem_of_cons; auto|]).
  by destruct (bool_decide _).
Qed.

Lemma validationRules_inherited name :
  name ∈ objectPrototypeKeys → validationRules name = Inherited.
Proof.
  unfold objectPrototypeKeys. simpl. rewrite !elem_of_cons, elem_of_nil.
  intros H. repeat (destruct H as [->|H]; [reflexivity|]). done.
Qed.

Lemma check_raises name v :
  name ∈ objectPrototypeKeys → trim v ≠ [] → check name v = Raises.
Proof.
  intros Hn Hv. unfold check. rewrite (validationRules_inherited _ Hn).
  by destruct (trim v).
Qed.

(** X12.  For a field whose name is a member of
    [Object.prototype], such as [constructor] or [toString], the rule that
    is looked up has no [pattern]: with a value that is not blank
    [validateField] throws a [TypeError] and annotates nothing. *)
Theorem validateField_prototype_name x s g e :
  groupOf (doc s) x = Some g → errorOf (doc s) x = Some e →
  nameOf (doc s) x ∈ objectPrototypeKeys → trim (valueOf (doc s) x) ≠ [] →
  validateField x s = Thrown TypeError s.
Proof.
  intros Hg He Hn Hv. rewrite (validateField_found x s g e) by done.
  unfold checkField. by rewrite check_raises.
Qed.

(** X13.  A field whose name has no entry in
    [validationRules] is valid as soon as its value is not blank. *)
Theorem validateField_no_rule x s g e :
  groupOf (doc s) x = Some g → errorOf (doc s) x = Some e →
  validationRules (nameOf (doc s) x) = NoRule →
  ∃ s', validateField x s
        = Normal (negb (forallb isSpace (valueOf (doc s) x))) s'.
Proof.
  intros Hg He Hr. rewrite (validateField_found x s g e) by done.
  unfold checkField, check. rewrite Hr.
  destruct (trim (valueOf (doc s) x)) as [|c v] eqn:Ht.
  - apply trim_nil in Ht. rewrite Ht. eauto.
  - assert (forallb isSpace (valueOf (doc s) x) = false) as ->; [|eauto].
    apply not_true_is_false. intros H. apply trim_nil in H. congruence.
Qed.

Lemma message_not_required r :
  r ∈ [nameRule; emailRule; messageRule] →
  message r ≠ lit "This field is required".
Proof.
  rewrite !elem_of_cons, elem_of_nil.
  intros [->|[->|[->|[]]]]; by vm_compute.
Qed.

(** X14.  The text "This field is required" is what a field gets
    exactly when its value is blank: empty, or white space and line breaks
    only. *)
Theorem validateField_required_iff_blank x s g e :
  groupOf (doc s) x = Some g → errorOf (doc s) x = Some e →
  checkField (doc s) x ≠ Raises →
  ∃ b s', validateField x s = Normal b s' ∧
          (textOf (doc s') e = lit "This field is required"
           ↔ forallb isSpace (valueOf (doc s) x) = true).
Proof.
  intros Hg He Hc. rewrite (validateField_found x s g e) by done.
  pose proof (getElementById_Some _ _ _ He) as [Hel _].
  assert (Htext : ∀ t d1, length d1 = length (doc s) →
            textOf (setTextContent t e d1) e = t).
  { intros t d1 Hlen. rewrite textOf_setTextContent, Hlen.
    by rewrite (bool_decide_eq_true_2 (e = e ∧ _)). }
  setoid_rewrite <-trim_nil. unfold checkField, check in *.
  destruct (trim (valueOf (doc s) x)) as [|c v] eqn:Ht.
  - eexists _, _. split; [reflexivity|]. cbn.
    by rewrite Htext by apply length_classListAdd.
  - destruct (validationRules (nameOf (doc s) x)) as [r| |] eqn:Hr; [| done |].
    + apply validationRules_own, message_not_required in Hr.
      destruct (test (pattern r) (c :: v)); eexists _, _;
        (split; [reflexivity|]); cbn.
      * rewrite Htext by apply length_classListRemove. split; [|done].
        intros H. by vm_compute in H.
      * rewrite Htext by apply length_classListAdd. split; done.
    + eexists _, _. split; [reflexivity|]. cbn.
      rewrite Htext by apply length_classListRemove. split; [|done].
      intros H. by vm_compute in H.
Qed.

Lemma equipped_spec (d : Document) x :
  equipped d x = true →
  ∃ g e, groupOf d x = Some g ∧ errorOf d x = Some e ∧ isLeaf d e = true.
Proof.
  unfold equipped.
  destruct (groupOf d x) as [g|], (errorOf d x) as [e|]; try done.
  intros H. by exists g, e.
Qed.

Lemma equipped_unchanged (d d' : Document) x :
  unchangedForm d d' → equipped d' x = equipped d x.
Proof.
  intros Hun. unfold equipped.
  rewrite (unchanged_groupOf _ _ Hun), (unchanged_errorOf _ _ Hun).
  destruct (groupOf d x), (errorOf d x); try done.
  apply (unchanged_isLeaf _ _ Hun).
Qed.

(** A field that raises stops the validation of the form. *)
Lemma validateFields_raises (d : Document) L x :
  Forall (λ y, equipped d y = true) L → x ∈ L → checkField d x = Raises →
  ∀ acc s, unchangedForm d (doc s) →
  ∃ s', validateFields L acc s = Thrown TypeError s' ∧
        sameWindow s s' ∧ unchangedForm d (doc s').
Proof.
  induction L as [|y L IH]; intros Heq Hx Hc acc s Hun.
  { by apply elem_of_nil in Hx. }
  apply Forall_cons_1 in Heq as [Hy Heq].
  apply equipped_spec in Hy as (g & e & Hg & He & Hleaf).
  rewrite validateFields_cons.
  assert (checkField d y = Raises ∨ checkField d y ≠ Raises) as [Hr|Hr]
    by (destruct (checkField d y); auto).
  - rewrite (validateField_found y s g e), (unchanged_checkField _ _ Hun), Hr.
    + exists s. split; [done|]. split; [apply sameWindow_refl | done].
    + by rewrite (unchanged_groupOf _ _ Hun).
    + by rewrite (unchanged_errorOf _ _ Hun).
  - destruct (validateField_ok y s g e) as (s1 & Hrun & Hw1 & Hun1 & _).
    { by rewrite (unchanged_groupOf _ _ Hun). }
    { by rewrite (unchanged_errorOf _ _ Hun). }
    { by rewrite (unchanged_isLeaf _ _ Hun). }
    { by rewrite (unchanged_checkField _ _ Hun). }
    rewrite Hrun.
    assert (x ∈ L) as Hx'.
    { apply elem_of_cons in Hx as [->|Hx]; done. }
    assert (Hun1' : unchangedForm d (doc s1)) by (by eapply unchangedForm_trans).
    destruct (IH Heq Hx' Hc (if passes (checkField (doc s) y) then acc else false)
                s1 Hun1') as (s2 & Hrun2 & Hw2 & Hun2).
    exists s2. split; [done|]. split; [by eapply sameWindow_trans | done].
Qed.


(** ** Validation is stable *)

Lemma alter_fixed (g : Element → Element) n (d : Document) :
  (∀ e, d !! n = Some e → g e = e) → alter g n d = d.
Proof.
  intros H. apply list_eq. intros m. destruct (decide (n = m)) as [->|Hne].
  - rewrite list_lookup_alter_eq. destruct (d !! m) as [e|] eqn:He; [|done].
    simpl. by rewrite H.
  - by rewrite list_lookup_alter_ne.
Qed.

Lemma classListAdd_present c n (d : Document) :
  hasClass c d n = true → classListAdd c n d = d.
Proof.
  intros H. apply alter_fixed. intros e He.
  unfold hasClass in H. rewrite He in H. simpl in H.
  unfold addToken. rewrite H. by destruct e.
Qed.

Lemma classListRemove_absent c n (d : Document) :
  hasClass c d n = false → classListRemove c n d = d.
Proof.
  intros H. apply alter_fixed. intros e He.
  unfold hasClass in H. rewrite He in H. simpl in H.
  apply bool_decide_eq_false in H.
  assert (removeToken c (el_class e) = el_class e) as ->; [|by destruct e].
  unfold removeToken. induction (el_class e) as [|a l IH]; [done|].
  rewrite not_elem_of_cons in H. destruct H as [Hne Hl].
  rewrite filter_cons, decide_True by done. by rewrite IH.
Qed.

Lemma setTextContent_same t e (d : Document) :
  isLeaf d e = true → textOf d e = t → (e < length d)%nat →
  setTextContent t e d = d.
Proof.
  intros Hleaf Ht Hlt. unfold setTextContent.
  rewrite detachChildren_leaf by done. apply alter_fixed. intros el Hel.
  unfold textOf in Ht. rewrite Hel in Ht. simpl in Ht. subst t. by destruct el.
Qed.

(** X15.  Validating a field a second time, with nothing
    changed in between, gives the same result and leaves the state as the
    first validation left it. *)
Theorem validateField_twice x s :
  fieldOk (doc s) x = true →
  ∃ b s', validateField x s = Normal b s' ∧ validateField x s' = Normal b s'.
Proof.
  intros Hok. apply fieldOk_spec in Hok as (g & e & Hg & He & Hleaf & Hc).
  destruct (validateField_ok x s g e Hg He Hleaf Hc)
    as (s' & Hrun & Hw & Hun & Hflag & Htext & _).
  exists (passes (checkField (doc s) x)), s'. split; [done|].
  pose proof (closest_Some _ _ _ _ Hg) as [_ Hgl].
  pose proof (getElementById_Some _ _ _ He) as [Hel _].
  destruct Hun as [Hsk Hann].
  assert (Hun : unchangedForm (doc s) (doc s')) by done.
  rewrite (validateField_found x s' g e).
  2:{ by rewrite (unchanged_groupOf _ _ Hun). }
  2:{ by rewrite (unchanged_errorOf _ _ Hun). }
  rewrite (unchanged_checkField _ _ Hun).
  assert (Hleaf' : isLeaf (doc s') e = true)
    by (by rewrite (unchanged_isLeaf _ _ Hun)).
  assert (Hlen : length (doc s') = length (doc s))
    by (symmetry; by apply skeleton_length).
  destruct (checkField (doc s) x) as [|msg|] eqn:Hck; [| |done]; cbn in *.
  - rewrite classListRemove_absent by done.
    rewrite setTextContent_same by (done || lia). by rewrite setDoc_same.
  - rewrite classListAdd_present by done.
    rewrite setTextContent_same by (done || lia). by rewrite setDoc_same.
Qed.

(** ** Validation while typing *)

Lemma onInput_spec x s :
  onInput x s =
  if from_option (hasClass (lit "error") (doc s)) false (groupOf (doc s) x)
  then match validateField x s with
       | Normal _ s' => Normal tt s'
       | Thrown e s' => Thrown e s'
       | OutOfModel => OutOfModel
       end
  else Normal tt s.
Proof.
  unfold onInput, groupOf, bind, gets, when, ret. cbn.
  by destruct (from_option _ _ _).
Qed.

(** X17.  While a field is flagged, every [input] event
    validates it again: the flag and the text follow the value as it is
    typed, and both go away as soon as the value is valid. *)
Theorem onInput_flagged x s g e :
  groupOf (doc s) x = Some g → errorOf (doc s) x = Some e →
  hasClass (lit "error") (doc s) g = true → checkField (doc s) x ≠ Raises →
  ∃ s', onInput x s = Normal tt s' ∧ sameWindow s s' ∧
        hasClass (lit "error") (doc s') g = negb (passes (checkField (doc s) x)) ∧
        textOf (doc s') e = errorText (checkField (doc s) x).
Proof.
  intros Hg He Hflag Hc. rewrite onInput_spec, Hg. simpl. rewrite Hflag.
  rewrite (validateField_found x s g e) by done.
  pose proof (closest_Some _ _ _ _ Hg) as [_ Hgl].
  pose proof (getElementById_Some _ _ _ He) as [Hel _].
  destruct (checkField (doc s) x) as [|msg|]; [| |done];
    eexists; (split; [reflexivity|]); (split; [done|]); cbn;
    rewrite hasClass_setTextContent, textOf_setTextContent.
  - rewrite hasClass_remove, length_classListRemove.
    rewrite !bool_decide_eq_true_2 by done. by rewrite andb_false_r.
  - rewrite hasClass_add, length_classListAdd.
    rewrite !bool_decide_eq_true_2 by done. by rewrite orb_true_r.
Qed.

(** X18.  Once a field has been found valid, typing into it
    shows no error, whatever is typed: the [input] listener leaves a field
    alone whose group is not flagged. *)
Theorem onInput_after_valid x s s' v :
  equipped (doc s) x = true → validateField x s = Normal true s' →
  onInput x (typeInto x v s') = Normal tt (typeInto x v s').
Proof.
  intros Heq Hrun.
  apply equipped_spec in Heq as (g & e & Hg & He & Hleaf).
  assert (checkField (doc s) x = Passes) as Hc.
  { rewrite (validateField_found x s g e) in Hrun by done.
    by destruct (checkField (doc s) x). }
  destruct (validateField_ok x s g e Hg He Hleaf) as (s1 & Hrun1 & _ & Hun & Hflag & _).
  { by rewrite Hc. }
  rewrite Hrun in Hrun1. injection Hrun1 as _ <-.
  rewrite Hc in Hflag. simpl in Hflag.
  rewrite onInput_spec.
  assert (sameSkeleton (doc s') (doc (typeInto x v s'))) as Hsk.
  { cbn. by apply skeleton_alter. }
  assert (groupOf (doc (typeInto x v s')) x = Some g) as ->.
  { rewrite <-Hg, <-(unchanged_groupOf _ _ Hun). unfold groupOf. symmetry.
    apply skeleton_closest; [done|]. intros n. unfold matchesAt. cbn.
    symmetry. by apply getter_alter. }
  simpl. unfold hasClass in *. cbn.
  rewrite (getter_alter (λ e0, bool_decide (lit "error" ∈ el_class e0))) by done.
  by rewrite Hflag.
Qed.

(** ** The reset after a submission *)

Lemma elem_of_documentQuerySelectorAll sel (d : Document) n :
  n ∈ documentQuerySelectorAll sel d ↔
  (n < length d)%nat ∧ isConnected d n = true ∧ matchesAt d sel n = true.
Proof.
  unfold documentQuerySelectorAll.
  rewrite list_elem_of_filter, elem_of_nodes, Is_true_true, andb_true_iff. tauto.
Qed.

Lemma hasClass_forEach_setTextContent c t L (d : Document) n :
  hasClass c (forEachNode (setTextContent t) L d) n = hasClass c d n.
Proof.
  revert d. induction L as [|e L IH]; intros d; [done|].
  by rewrite forEachNode_cons, IH, hasClass_setTextContent.
Qed.

Lemma textOf_forEach_setTextContent t L (d : Document) n :
  n ∈ L → (n < length d)%nat →
  textOf (forEachNode (setTextContent t) L d) n = t.
Proof.
  revert d. induction L as [|e L IH]; intros d Hn Hlt.
  { by apply elem_of_nil in Hn. }
  rewrite forEachNode_cons.
  destruct (decide (n ∈ L)) as [HL|HL].
  - apply IH; [done|]. by rewrite length_setTextContent.
  - apply elem_of_cons in Hn as [->|Hn]; [|done].
    assert (∀ d', textOf (forEachNode (setTextContent t) L d') e = textOf d' e)
      as ->.
    { clear -HL. induction L as [|a L IH]; intros d'; [done|].
      rewrite not_elem_of_cons in HL. destruct HL as [Hne HL].
      rewrite forEachNode_cons, IH by done.
      rewrite textOf_setTextContent.
      rewrite (bool_decide_eq_false_2 (e = a ∧ _)); [done|]. by intros [? _]. }
    rewrite textOf_setTextContent. by rewrite bool_decide_eq_true_2.
Qed.

(** X19.  After the reset callback no form group of the
    document is flagged and no [.error-message] element has text, whatever
    the document looks like and whatever has been typed or validated in
    the three seconds since the submission. *)
Theorem resetFormCallback_clears s f :
  contactForm s = Some f → tagOf (doc s) f = lit "form" →
  ∃ s', resetFormCallback s = Normal tt s' ∧ sameWindow s s' ∧
        (∀ g, g ∈ documentQuerySelectorAll formGroupSel (doc s') →
              hasClass (lit "error") (doc s') g = false) ∧
        (∀ e, e ∈ documentQuerySelectorAll (SelClass (lit "error-message")) (doc s') →
              textOf (doc s') e = []).
Proof.
  intros Hf Htag. rewrite (resetFormCallback_spec s f) by done.
  eexists. split; [reflexivity|]. split; [done|]. cbn.
  unfold resetDocument.
  set (d1 := alter (setDisplay (lit "flex")) f (resetControls f (doc s))).
  set (d2 := from_option (λ b, classListAdd (lit "hidden") b d1) d1 (formSuccess s)).
  set (d3 := forEachNode (classListRemove (lit "error"))
               (documentQuerySelectorAll formGroupSel d2) d2).
  set (L := documentQuerySelectorAll (SelClass (lit "error-message")) d3).
  set (d4 := forEachNode (setTextContent []) L d3).
  assert (Hsk23 : sameSkeleton d2 d3).
  { apply skeleton_forEachNode. intros. apply skeleton_classListRemove. }
  assert (Hann23 : annotated d2 d3).
  { apply annotated_forEachNode. intros. apply annotated_classListRemove. }
  assert (Hann34 : annotated d3 d4).
  { apply annotated_forEachNode. intros. apply annotated_setTextContent. }
  pose proof (annotated_length _ _ Hann34) as Hl34.
  pose proof (annotated_length _ _ Hann23) as Hl23.
  split.
  - intros g (Hlt & Hconn & Hm)%elem_of_documentQuerySelectorAll.
    unfold d4. rewrite hasClass_forEach_setTextContent.
    unfold d3. rewrite hasClass_removeAll.
    rewrite (bool_decide_eq_true_2 (_ ∈ _)), andb_false_r; [done|].
    apply elem_of_documentQuerySelectorAll. split; [lia|]. split.
    + rewrite (skeleton_isConnected _ _ Hsk23).
      by apply (annotated_isConnected _ _ Hann34).
    + etrans; [|exact Hm]. unfold matchesAt, formGroupSel.
      change (hasClass (lit "form-group") d2 g = hasClass (lit "form-group") d4 g).
      rewrite (annotated_hasClass _ _ Hann34), (annotated_hasClass _ _ Hann23);
        done.
  - intros e (Hlt & Hconn & Hm)%elem_of_documentQuerySelectorAll.
    apply textOf_forEach_setTextContent; [|lia].
    apply elem_of_documentQuerySelectorAll. split; [lia|]. split.
    + by apply (annotated_isConnected _ _ Hann34).
    + etrans; [|exact Hm]. unfold matchesAt.
      change (hasClass (lit "error-message") d3 e
              = hasClass (lit "error-message") d4 e).
      by rewrite (annotated_hasClass _ _ Hann34).
Qed.

(** ** The skill bars *)

(** The state that [navigateToPage] returns when the selector text is well
    formed. *)
Lemma navigateToPage_state id s :
  isPlain id = true →
  navigateToPage id s =
  Normal tt
    ((if streq id (lit "about")
      then λ s1, setTimers (clock s1) (timers s1 ++ [(clock s1 + 300, AnimateSkills)]) s1
      else λ s1, s1)
     ((if streq (fragment s) id then λ s1, s1
       else λ s1, setLocation (urlFragment id)
                    (take (S (historyIndex s1)) (historyEntries s1) ++ [urlFragment id])
                    (S (historyIndex s1)) s1)
      (setScroll (Some ScrollToTop)
         (setDoc (closeMenu s
                    (addActive (documentQuerySelector (SelDataPage id) (doc s))
                       (addActive (getElementById id (doc s)) (deactivated s)))) s)))).
Proof.
  intros Hp.
  assert (Hq : ∀ t, documentQuerySelector (SelDataPage id)
                       (addActive t (deactivated s))
                     = documentQuerySelector (SelDataPage id) (doc s)).
  { intros t. apply querySelector_dataPage_activated. }
  pose proof (skeleton_getElementById _ _ (skeleton_deactivated s) id) as Hg.
  unfold navigateToPage, deactivateAll, querySelectorText.
  rewrite parseSelector_plain by done.
  unfold bind, gets, modifyDoc, modify, whenSome, when, ret. cbn.
  fold (deactivated s). rewrite <-Hg.
  unfold closeMenu.
  destruct (getElementById id (doc s)) as [p|]; cbn;
  [change (classListAdd (lit "active") p (deactivated s))
      with (addActive (Some p) (deactivated s))
  |change (deactivated s) with (addActive None (deactivated s)) at 1];
  rewrite Hq;
    (destruct (documentQuerySelector (SelDataPage id) (doc s)) as [l|]; cbn;
    destruct (mobileToggle s) as [t|] eqn:Ht, (navMenu s) as [m|] eqn:Hm; cbn;
    rewrite ?slice1_locationHash; cbn;
    destruct (streq (fragment s) id) eqn:Hf; cbn;
    destruct (streq id (lit "about")) eqn:Ha; cbn;
    rewrite ?Ht, ?Hm; reflexivity).
Qed.

Lemma widthOf_forEach (w : nat → jsstring) L (d : Document) n :
  widthOf (forEachNode (λ b d', alter (setWidth (w b)) b d') L d) n =
  if bool_decide (n ∈ L ∧ (n < length d)%nat) then w n else widthOf d n.
Proof.
  revert d. induction L as [|b L IH]; intros d.
  { rewrite bool_decide_eq_false_2; [done|]. intros [H _]. by apply elem_of_nil in H. }
  rewrite forEachNode_cons, IH, length_alter.
  destruct (decide (n ∈ L ∧ (n < length d)%nat)) as [HL|HL].
  - rewrite !bool_decide_eq_true_2; [done| |done]. split; [right|]; tauto.
  - rewrite (bool_decide_eq_false_2 _ HL). unfold widthOf.
    destruct (decide (b = n)) as [->|Hne].
    + rewrite list_lookup_alter_eq.
      destruct (d !! n) as [e|] eqn:He; simpl.
      * apply lookup_lt_Some in He. rewrite bool_decide_eq_true_2; [done|].
        split; [left|done].
      * apply lookup_ge_None in He. rewrite bool_decide_eq_false_2; [done|]. lia.
    + rewrite list_lookup_alter_ne by done.
      rewrite bool_decide_eq_false_2; [done|].
      rewrite elem_of_cons. intros [[?|?] ?]; [congruence|tauto].
Qed.

Lemma barTarget_setWidth w b (d : Document) n :
  barTarget (alter (setWidth w) b d) n = barTarget d n.
Proof.
  unfold barTarget. do 2 f_equal.
  destruct (decide (b = n)) as [->|Hne].
  - rewrite list_lookup_alter_eq. by destruct (d !! n).
  - by rewrite list_lookup_alter_ne.
Qed.

(** The widths are reset and one timer per bar is set. *)
Lemma animateBars_spec bars s :
  animateBars bars s =
  Normal tt
    (setTimers (clock s)
       (timers s ++ ((λ b, (clock s + 100, SetBarWidth b (barTarget (doc s) b)))
                       <$> bars))
       (setDoc (forEachNode (λ b d', alter (setWidth (lit "0%")) b d') bars (doc s))
          s)).
Proof.
  revert s. induction bars as [|b bars IH]; intros s.
  - cbn. rewrite app_nil_r. by destruct s.
  - cbn [animateBars]. unfold bind, gets, modifyDoc, modify, setTimeout. cbn.
    rewrite IH. cbn. rewrite forEachNode_cons, <-app_assoc. cbn.
    unfold setTimers, setDoc. cbn. unfold barTarget at 2.
    do 4 f_equal. apply list_fmap_ext. intros i n _.
    f_equal. f_equal. apply barTarget_setWidth.
Qed.

Lemma skeleton_setWidths (w : nat → jsstring) L (d : Document) :
  sameSkeleton d (forEachNode (λ b d', alter (setWidth (w b)) b d') L d).
Proof. apply skeleton_forEachNode. intros. by apply skeleton_alter. Qed.

Lemma hasClass_setWidths c (w : nat → jsstring) L (d : Document) n :
  hasClass c (forEachNode (λ b d', alter (setWidth (w b)) b d') L d) n
  = hasClass c d n.
Proof.
  revert d. induction L as [|b L IH]; intros d; [done|].
  rewrite forEachNode_cons, IH. unfold hasClass. by apply getter_alter.
Qed.


(** ** Timers that are due at the same time fire in the order they were set *)

Lemma nextTimer_same_due (ts : list (N * Task)) c :
  Forall (λ t, t.1 = c) ts → ts ≠ [] → nextTimer ts = Some O.
Proof.
  induction ts as [|[due task] ts IH]; intros Hall Hne; [done|].
  apply Forall_cons_1 in Hall as [Hd Hall]. simpl in *. subst due.
  destruct ts as [|t ts]; [done|].
  rewrite IH by done.
  destruct t as [due' task']. apply Forall_cons_1 in Hall as [Hd' _].
  simpl in *. subst due'. by rewrite N.ltb_irrefl.
Qed.

Lemma fire_bar_timers (w : nat → jsstring) c bars s :
  timers s = (λ b, (c, SetBarWidth b (w b))) <$> bars →
  fireTimers (length bars) s =
  Normal tt
    (setTimers (match bars with [] => clock s | _ => N.max (clock s) c end) []
       (setDoc (forEachNode (λ b d', alter (setWidth (w b)) b d') bars (doc s)) s)).
Proof.
  revert s. induction bars as [|b bars IH]; intros s Ht.
  - cbn. unfold ret. destruct s. cbn in *. by subst.
  - cbn [length fireTimers]. unfold bind at 1.
    unfold fireNextTimer, bind, gets. rewrite Ht.
    rewrite (nextTimer_same_due _ c); [|by apply Forall_fmap, Forall_true|done].
    cbn. rewrite IH by done. cbn. rewrite forEachNode_cons.
    unfold setTimers, setDoc. cbn.
    do 2 f_equal. destruct bars; cbn; [done|lia].
Qed.

Lemma progress_alter_class (g : Element → list jsstring) n (d : Document) m :
  alter (λ e, setClass (g e) e) n d !! m ≫= el_dataProgress
  = d !! m ≫= el_dataProgress.
Proof.
  destruct (decide (n = m)) as [->|Hne].
  - rewrite list_lookup_alter_eq. by destruct (d !! m).
  - by rewrite list_lookup_alter_ne.
Qed.

Lemma barTarget_navigated id s b :
  barTarget
    (closeMenu s
       (addActive (documentQuerySelector (SelDataPage id) (doc s))
          (addActive (getElementById id (doc s)) (deactivated s)))) b
  = barTarget (doc s) b.
Proof.
  unfold barTarget. do 2 f_equal.
  assert (Hrem : ∀ L (d : Document),
            forEachNode (classListRemove (lit "active")) L d !! b ≫= el_dataProgress
            = d !! b ≫= el_dataProgress).
  { induction L as [|n L IH]; intros d; [done|].
    rewrite forEachNode_cons, IH. apply progress_alter_class. }
  assert (Hadd : ∀ o (d : Document),
            addActive o d !! b ≫= el_dataProgress = d !! b ≫= el_dataProgress).
  { intros [n|] d; [apply progress_alter_class | done]. }
  unfold closeMenu, deactivated.
  destruct (mobileToggle s), (navMenu s);
    unfold classListRemove; rewrite ?progress_alter_class, !Hadd, !Hrem; done.
Qed.

Lemma skillBars_navigated id s :
  skillBars
    (closeMenu s
       (addActive (documentQuerySelector (SelDataPage id) (doc s))
          (addActive (getElementById id (doc s)) (deactivated s))))
  = skillBars (doc s).
Proof.
  apply documentQuerySelectorAll_class.
  - eapply skeleton_trans; [apply skeleton_activated | apply skeleton_closeMenu].
  - intros n. rewrite hasClass_navigated.
    by rewrite (bool_decide_eq_false_2 (lit "skill-progress" = lit "active")).
Qed.


(** ** Page load and history traversal *)

Lemma hasClass_activated_any c t l s n :
  (∀ m, t = Some m → (m < length (doc s))%nat) →
  (∀ m, l = Some m → (m < length (doc s))%nat) →
  hasClass c (addActive l (addActive t (deactivated s))) n =
  if bool_decide (c = lit "active") then
    (hasClass c (doc s) n
     && negb (bool_decide (n ∈ pages s)) && negb (bool_decide (n ∈ navLinks s)))
    || bool_decide (t = Some n) || bool_decide (l = Some n)
  else hasClass c (doc s) n.
Proof.
  intros Hb1 Hb2.
  assert (length (deactivated s) = length (doc s)) as Hlen.
  { symmetry. apply skeleton_length, skeleton_deactivated. }
  rewrite !hasClass_addActive_any.
  - unfold deactivated. rewrite !hasClass_removeAll.
    destruct (bool_decide (c = lit "active")); simpl; [done|].
    by rewrite !andb_true_r, !orb_false_r.
  - intros m Hm. rewrite Hlen. auto.
  - intros m Hm. rewrite length_addActive, Hlen. auto.
Qed.

Lemma hashOrHome_page f s :
  f ∈ pageMap → hashOrHome (withFragment f s) = f.
Proof.
  intros Hf. rewrite hashOrHome_withFragment. destruct f; [|done].
  unfold pageMap in Hf. rewrite !elem_of_cons, elem_of_nil in Hf.
  by destruct Hf as [?|[?|[?|[?|[]]]]].
Qed.

(** When the page is loaded with the id of a page as the
    fragment of the address, that page and its link are the active ones. *)
Lemma onDOMContentLoaded_page s f :
  navOk s = true → f ∈ pageMap →
  ∃ s', onDOMContentLoaded (withFragment f s) = Normal tt s' ∧ onlyActive f s'.
Proof.
  intros Hok Hf. pose proof Hok as Hok'.
  apply navOk_spec in Hok' as (_ & _ & _ & _ & Hex).
  destruct (Hex f Hf) as (p & l & Hp & Hpin & Hl & Hlin).
  assert (Hhash : hashOrHome (withFragment f s) = f).
  { by apply hashOrHome_page. }
  destruct (query_bounds f (doc s)) as [Hb1 Hb2].
  destruct (onDOMContentLoaded_plain (withFragment f s) p l)
    as (s' & Hrun & Hdoc & Hpages & Hlinks).
  { rewrite Hhash. by apply isPlain_pageMap. }
  { rewrite Hhash. cbn. by rewrite Hp. }
  { rewrite Hhash. cbn. by rewrite Hl. }
  rewrite deactivated_withFragment in Hdoc. cbn in Hdoc, Hpages, Hlinks.
  exists s'. split; [done|].
  apply (activated_onlyActive _ s s' p l); try done.
  - rewrite Hdoc. apply (skeleton_activated (Some p) (Some l)).
  - intros n Hn. rewrite Hdoc.
    apply (hasClass_activated (Some p) (Some l) s); [| |done].
    + intros m [= <-]. by apply Hb1.
    + intros m [= <-]. by apply Hb2.
Qed.

(** X25.  The fallback of the [DOMContentLoaded] listener
    is itself unchecked: when neither the fragment of the address nor
    [home] is the id of an element, the listener throws a [TypeError]
    after it has deactivated every page and every link, so that no page is
    shown. *)
Theorem onDOMContentLoaded_without_home s :
  getElementById (hashOrHome s) (doc s) = None →
  getElementById (lit "home") (doc s) = None →
  ∃ s', onDOMContentLoaded s = Thrown TypeError s' ∧
        activePages s' = [] ∧ activeLinks s' = [] ∧ timers s' = timers s.
Proof.
  intros Hh Hhome.
  pose proof (skeleton_getElementById _ _ (skeleton_deactivated s)) as Hg.
  exists (setDoc (deactivated s) s). split.
  - unfold onDOMContentLoaded, deactivateAll.
    unfold bind, gets, modifyDoc, modify, activateOrThrow. cbn.
    fold (deactivated s). rewrite <-(Hg (hashOrHome s)), Hh. cbn.
    fold (deactivated s). by rewrite <-(Hg (lit "home")), Hhome.
  - unfold activePages, activeLinks. cbn. split; [|split; [|done]];
      apply filter_none; intros n Hn Hact; apply Is_true_true in Hact;
      rewrite hasClass_deactivated in Hact; try done; apply elem_of_app; auto.
Qed.

(** X23.  Going back or forward to an entry whose fragment is
    a page id shows that page and its link, leaves the session history and
    the address as the browser has set them, and, unlike [navigateToPage],
    does not close the mobile menu. *)
Theorem onPopState_page s f :
  navOk s = true → f ∈ pageMap →
  ∃ s', onPopState (withFragment f s) = Normal tt s' ∧ onlyActive f s' ∧
        historyEntries s' = historyEntries s ∧
        historyIndex s' = historyIndex s ∧ fragment s' = f ∧
        ∀ n, mobileToggle s = Some n ∨ navMenu s = Some n →
             hasClass (lit "active") (doc s') n = hasClass (lit "active") (doc s) n.
Proof.
  intros Hok Hf. pose proof Hok as Hok'.
  apply navOk_spec in Hok' as (_ & _ & Hdisj & Hmenu & Hex).
  destruct (Hex f Hf) as (p & l & Hp & Hpin & Hl & Hlin).
  assert (Hhash : hashOrHome (withFragment f s) = f).
  { by apply hashOrHome_page. }
  destruct (query_bounds f (doc s)) as [Hb1 Hb2].
  destruct (onPopState_plain (withFragment f s))
    as (s' & Hrun & Hdoc & Hpages & Hlinks & He & Hi & Hfr).
  { rewrite Hhash. by apply isPlain_pageMap. }
  rewrite Hhash, deactivated_withFragment in Hdoc.
  cbn in Hdoc, Hpages, Hlinks, He, Hi, Hfr.
  exists s'. split; [done|]. split; [|repeat split; try done].
  - apply (activated_onlyActive _ s s' p l); try done.
    + rewrite Hdoc. apply skeleton_activated.
    + intros n Hn. rewrite Hdoc, Hp, Hl.
      apply (hasClass_activated _ _ s); [| |done].
      * intros m [= <-]. by apply Hb1.
      * intros m [= <-]. by apply Hb2.
  - intros n Hn. rewrite Hdoc, hasClass_activated_any by done.
    rewrite (bool_decide_eq_true_2 (lit "active" = lit "active")) by done.
    assert (Hout : ∀ k, k ∈ pages s ++ navLinks s → n ≠ k).
    { intros k Hk ->. destruct (Hmenu k Hk) as [Ht Hm]. by destruct Hn. }
    assert (n ∉ pages s) as H1.
    { intros Hin. apply (Hout n); [apply elem_of_app; auto | done]. }
    assert (n ∉ navLinks s) as H2.
    { intros Hin. apply (Hout n); [apply elem_of_app; auto | done]. }
    assert (n ≠ p) as H3 by (apply Hout, elem_of_app; auto).
    assert (n ≠ l) as H4 by (apply Hout, elem_of_app; auto).
    rewrite Hp, Hl.
    rewrite (bool_decide_eq_false_2 (n ∈ pages s)),
      (bool_decide_eq_false_2 (n ∈ navLinks s)),
      (bool_decide_eq_false_2 (Some p = Some n)),
      (bool_decide_eq_false_2 (Some l = Some n)) by congruence.
    by rewrite !andb_true_r, !orb_false_r.
Qed.

(** ** Debouncing and throttling *)

Section debounce.
Context {A : Type}.
Implicit Types (w : Debounced A) (calls : list (N * A)).

Lemma oneTimer_executedFunction wait now args w :
  oneTimer w →
  oneTimer (executedFunction wait now args w) ∧
  db_timers (executedFunction wait now args w)
    = [mkWrapperTimer (db_nextId w) (now + wait) args] ∧
  db_calls (executedFunction wait now args w) = db_calls w.
Proof.
  intros [Hw|(t & Hw & Hid)]; unfold executedFunction; cbn; rewrite Hw.
  - destruct (db_timeout w); cbn; (split; [right; eauto|done]).
  - rewrite Hid. cbn. rewrite decide_False by (by intros []).
    cbn. split; [right; eauto|done].
Qed.

Lemma debouncedAt_spec now w :
  oneTimer w →
  db_calls (debouncedAt now w) = db_calls w ++ dueCall (db_timers w) now ∧
  db_timers (debouncedAt now w)
    = (if decide (dueCall (db_timers w) now = []) then db_timers w else []) ∧
  db_timeout (debouncedAt now w) = db_timeout w ∧
  db_nextId (debouncedAt now w) = db_nextId w.
Proof.
  intros [Hw|(t & Hw & Hid)]; unfold debouncedAt; rewrite Hw; cbn.
  - by rewrite app_nil_r, Hw.
  - rewrite Hw. cbn. destruct (wt_due t <=? now); cbn.
    + by destruct (db_timeout w).
    + by rewrite app_nil_r.
Qed.

Lemma oneTimer_debouncedAt now w : oneTimer w → oneTimer (debouncedAt now w).
Proof.
  intros Hw. destruct (debouncedAt_spec now w Hw) as (_ & Ht & Hid & _).
  unfold oneTimer. rewrite Ht, Hid. destruct (decide _); [done|by left].
Qed.

Lemma debouncedRun_cons wait c calls w :
  debouncedRun wait (c :: calls) w =
  debouncedRun wait calls (executedFunction wait c.1 c.2 (debouncedAt c.1 w)).
Proof. done. Qed.

Lemma debouncedRun_spec wait finish calls w :
  oneTimer w →
  oneTimer (debouncedRun wait calls w) ∧
  db_calls (debouncedAt finish (debouncedRun wait calls w)) =
  db_calls w ++ dueCall (db_timers w) (nextTime calls finish)
    ++ quietCalls wait calls finish.
Proof.
  revert w. induction calls as [|[t a] calls IH]; intros w Hw.
  - cbn. split; [done|]. rewrite app_nil_r.
    by destruct (debouncedAt_spec finish w Hw) as [-> _].
  - rewrite debouncedRun_cons. cbn [fst snd nextTime quietCalls].
    pose proof (oneTimer_debouncedAt t w Hw) as Hw1.
    destruct (oneTimer_executedFunction wait t a _ Hw1) as (Hw2 & Ht2 & Hc2).
    destruct (IH _ Hw2) as [Hone ->]. split; [done|].
    rewrite Hc2, Ht2.
    destruct (debouncedAt_spec t w Hw) as (-> & _).
    cbn. by rewrite <-!app_assoc.
Qed.

Lemma debounce_calls wait calls finish :
  db_calls (debouncedAt finish (debouncedRun wait calls (@debounce A)))
  = quietCalls wait calls finish ∧
  oneTimer (debouncedRun wait calls (@debounce A)).
Proof.
  destruct (debouncedRun_spec wait finish calls debounce) as [Hone ->];
    [by left|done].
Qed.

(** X8.  A debounced function calls [func] for exactly
    those calls that no other call follows within [wait] milliseconds, each
    time [wait] milliseconds after the call and with the arguments of that
    call; and it never has more than one timer waiting. *)
Theorem debounce_calls_quiet wait calls finish :
  db_calls (debouncedAt finish (debouncedRun wait calls (@debounce A)))
  = quietCalls wait calls finish ∧
  (length (db_timers (debouncedRun wait calls (@debounce A))) ≤ 1)%nat.
Proof.
  destruct (debounce_calls wait calls finish) as [-> Hone].
  split; [done|]. destruct Hone as [->|(t & -> & _)]; simpl; lia.
Qed.

Lemma quietCalls_burst wait calls t a finish :
  burst wait (calls ++ [(t, a)]) = true → t + wait ≤ finish →
  quietCalls wait (calls ++ [(t, a)]) finish = [(t + wait, a)].
Proof.
  intros Hb Hfin. induction calls as [|[t1 a1] calls IH].
  - cbn. by rewrite (proj2 (N.leb_le _ _)).
  - cbn [app quietCalls]. cbn [app] in Hb.
    assert (∃ t2 a2 rest, calls ++ [(t, a)] = (t2, a2) :: rest)
      as (t2 & a2 & rest & Heq).
    { destruct calls as [|[t2 a2] rest]; cbn; eauto. }
    rewrite Heq in *. cbn [burst nextTime] in *.
    apply andb_true_iff in Hb as [Hlt Hb]. apply N.ltb_lt in Hlt.
    rewrite (proj2 (N.leb_gt _ _)) by done. cbn. by apply IH.
Qed.

(** X9.  Of a burst of calls, each less than [wait]
    milliseconds after the one before, a debounced function passes on only
    the last: [func] runs once, [wait] milliseconds after the last call,
    with the arguments of the last call. *)
Theorem debounce_burst wait calls t a finish :
  burst wait (calls ++ [(t, a)]) = true → t + wait ≤ finish →
  db_calls (debouncedAt finish
              (debouncedRun wait (calls ++ [(t, a)]) (@debounce A)))
  = [(t + wait, a)].
Proof.
  intros Hb Hfin.
  destruct (debounce_calls wait (calls ++ [(t, a)]) finish) as [-> _].
  by apply quietCalls_burst.
Qed.

End debounce.

Section throttle.
Context {A : Type}.
Implicit Types (w : Throttled A) (calls : list (N * A)).

Lemma throttledAt_idle now w : th_timers w = [] → throttledAt now w = w.
Proof. intros Ht. unfold throttledAt. by rewrite Ht. Qed.

Lemma throttledAt_pending now w due :
  th_timers w = [due] →
  throttledAt now w =
  if decide (due ≤ now) then mkThrottled false [] (th_calls w) else w.
Proof.
  intros Ht. unfold throttledAt. rewrite Ht, !filter_cons, !filter_nil.
  destruct (decide (due ≤ now)); [|done].
  by rewrite decide_False by tauto.
Qed.

Lemma throttledRun_cons limit c calls w :
  throttledRun limit (c :: calls) w =
  throttledRun limit calls (throttledFunction limit c.1 c.2 (throttledAt c.1 w)).
Proof. done. Qed.

Lemma throttledRun_spec limit calls w :
  oneReset w →
  oneReset (throttledRun limit calls w) ∧
  th_calls (throttledRun limit calls w) =
  th_calls w ++ leadingCalls limit (head (th_timers w)) calls.
Proof.
  revert w. induction calls as [|[t a] calls IH]; intros w Hw.
  - cbn. by rewrite app_nil_r.
  - rewrite throttledRun_cons. cbn [fst snd leadingCalls].
    destruct Hw as [[Hin Ht]|(Hin & due & Ht)].
    + rewrite throttledAt_idle by done. unfold throttledFunction.
      rewrite Hin, Ht. cbn.
      destruct (IH (mkThrottled true [t + limit] (th_calls w ++ [(t, a)])))
        as [Hone ->]; [right; eauto|].
      split; [done|]. cbn. by rewrite <-app_assoc.
    + rewrite (throttledAt_pending t w due) by done. rewrite Ht. cbn.
      destruct (decide (due ≤ t)) as [Hle|Hgt].
      * rewrite (proj2 (N.leb_le _ _)) by done. unfold throttledFunction. cbn.
        destruct (IH (mkThrottled true [t + limit] (th_calls w ++ [(t, a)])))
          as [Hone ->]; [right; eauto|].
        split; [done|]. cbn. by rewrite <-app_assoc.
      * rewrite (proj2 (N.leb_gt _ _)) by lia. unfold throttledFunction.
        rewrite Hin.
        destruct (IH w) as [Hone ->]; [right; eauto|].
        split; [done|]. by rewrite Ht.
Qed.

Lemma leadingCalls_spaced limit b calls :
  spaced limit (leadingCalls limit b calls) ∧
  ∀ t a, head (leadingCalls limit b calls) = Some (t, a) →
         from_option (λ due, due ≤ t) True b.
Proof.
  revert b. induction calls as [|[t a] calls IH]; intros b; [done|].
  cbn [leadingCalls].
  destruct (from_option (λ due, due <=? t) true b) eqn:Hb.
  - destruct (IH (Some (t + limit))) as [Hsp Hhd]. split.
    + cbn [spaced].
      destruct (leadingCalls limit (Some (t + limit)) calls) as [|[t' a'] r] eqn:Hl;
        [done|].
      split; [|done]. by apply (Hhd t' a').
    + intros t' a' [= <- <-]. destruct b as [due|]; cbn in *; [|done].
      by apply N.leb_le.
  - apply IH.
Qed.

Lemma leadingCalls_sublist limit b calls :
  leadingCalls limit b calls `sublist_of` calls.
Proof.
  revert b. induction calls as [|[t a] calls IH]; intros b; [done|].
  cbn [leadingCalls]. destruct (from_option _ _ _).
  - apply sublist_skip, IH.
  - apply sublist_cons, IH.
Qed.

(** X26.  A throttled function passes on the first call at once
    and then only calls made [limit] milliseconds or more after the last
    one it passed on: the calls of [func] are calls that were made, in
    their order and with their own arguments, and any two successive ones
    are at least [limit] milliseconds apart.  Calls in between are
    dropped, the last call of a burst among them. *)
Theorem throttle_spaces_calls limit calls :
  let passed := th_calls (throttledRun limit calls (@throttle A)) in
  passed = leadingCalls limit None calls ∧
  head passed = head calls ∧
  passed `sublist_of` calls ∧
  spaced limit passed.
Proof.
  cbn zeta.
  destruct (throttledRun_spec limit calls throttle) as [_ ->]; [by left|].
  cbn. split; [done|]. split; [by destruct calls as [|[t a] calls]|].
  split; [apply leadingCalls_sublist | apply leadingCalls_spaced].
Qed.

End throttle.

(** ** Navigation as a whole *)

Lemma pageIdsOnly_ext s s' :
  sameSkeleton (doc s) (doc s') →
  pages s' = pages s → navLinks s' = navLinks s →
  pageIdsOnly s' = pageIdsOnly s.
Proof.
  intros Hsk Hp Hl. unfold pageIdsOnly. rewrite Hp, Hl.
  apply forallb_ext_in. intros n _.
  by rewrite (skeleton_idOf _ _ Hsk), (skeleton_dataPageOf _ _ Hsk).
Qed.

Lemma hrefsOk_ext h s s' :
  sameSkeleton (doc s) (doc s') → hrefsOk h s' = hrefsOk h s.
Proof.
  intros Hsk. unfold hrefsOk. rewrite (skeleton_nodes _ _ Hsk).
  apply forallb_ext_in. intros n _. by rewrite (skeleton_dataPageOf _ _ Hsk).
Qed.

Lemma menuRefsOk_ext s s' :
  sameSkeleton (doc s) (doc s') →
  mobileToggle s' = mobileToggle s → navMenu s' = navMenu s →
  menuRefsOk s' = menuRefsOk s.
Proof.
  intros Hsk Ht Hm. unfold menuRefsOk.
  by rewrite Ht, Hm, (skeleton_length _ _ Hsk).
Qed.

Lemma filter_ext_in {A} (P Q : A → Prop) `{∀ x, Decision (P x)}
    `{∀ x, Decision (Q x)} (l : list A) :
  (∀ x, x ∈ l → P x ↔ Q x) → filter P l = filter Q l.
Proof.
  induction l as [|a l IH]; intros HPQ; [done|].
  rewrite !filter_cons, IH by (intros x Hx; apply HPQ; by right).
  destruct (decide (P a)) as [HP|HP], (decide (Q a)) as [HQ|HQ]; try done;
    exfalso; apply (HPQ a) in HP || apply (HPQ a) in HQ; done || by left.
Qed.

Lemma onlyActive_ext id s s' :
  sameSkeleton (doc s) (doc s') →
  pages s' = pages s → navLinks s' = navLinks s →
  (∀ n, n ∈ pages s ++ navLinks s →
        hasClass (lit "active") (doc s') n = hasClass (lit "active") (doc s) n) →
  onlyActive id s → onlyActive id s'.
Proof.
  intros Hsk Hp Hl Hcl (p & l & Hap & Hid & Hal & Hdp).
  exists p, l. unfold activePages, activeLinks in *. rewrite Hp, Hl.
  rewrite <-(skeleton_idOf _ _ Hsk), <-(skeleton_dataPageOf _ _ Hsk).
  repeat split; try done.
  - rewrite <-Hap. apply filter_ext_in. intros n Hn.
    rewrite Hcl; [done|]. apply elem_of_app; auto.
  - rewrite <-Hal. apply filter_ext_in. intros n Hn.
    rewrite Hcl; [done|]. apply elem_of_app; auto.
Qed.

Section navigation.
Variable h : nat → bool.

(** A step that leaves the window, the tree and the [active] class of
    pages and links alone. *)
Lemma navigationOk_frame s s' :
  navigationOk h s → sameWindow s s' → sameSkeleton (doc s) (doc s') →
  (∀ n, n ∈ pages s ++ navLinks s →
        hasClass (lit "active") (doc s') n = hasClass (lit "active") (doc s) n) →
  menuInSync s' = true →
  navigationOk h s'.
Proof.
  intros (Hnav & Hids & Hhref & Hrefs & _ & Hhist & Hact) Hw Hsk Hcl Hsync.
  assert (pages s' = pages s) as Hp by (by rewrite Hw).
  assert (navLinks s' = navLinks s) as Hl by (by rewrite Hw).
  assert (mobileToggle s' = mobileToggle s) as Ht by (by rewrite Hw).
  assert (navMenu s' = navMenu s) as Hm by (by rewrite Hw).
  assert (hashOrHome s' = hashOrHome s) as Hh by (by rewrite Hw).
  assert (historyOk s' = historyOk s) as Hhi by (by rewrite Hw).
  repeat split.
  - by rewrite (navOk_ext s s').
  - by rewrite (pageIdsOnly_ext s s').
  - by rewrite (hrefsOk_ext h s s').
  - by rewrite (menuRefsOk_ext s s').
  - done.
  - by rewrite Hhi.
  - rewrite Hh. by apply (onlyActive_ext _ s s').
Qed.

Lemma historyOk_spec s :
  historyOk s = true →
  historyEntries s !! historyIndex s = Some (fragment s) ∧
  ∀ f, f ∈ historyEntries s → f = [] ∨ f ∈ pageMap.
Proof.
  unfold historyOk. rewrite andb_true_iff, bool_decide_eq_true, forallb_forall.
  intros [H1 H2]. split; [done|]. intros f Hf%list_elem_of_In%H2.
  apply bool_decide_eq_true in Hf. by apply elem_of_cons in Hf.
Qed.

Lemma historyOk_intro s :
  historyEntries s !! historyIndex s = Some (fragment s) →
  (∀ f, f ∈ historyEntries s → f = [] ∨ f ∈ pageMap) →
  historyOk s = true.
Proof.
  intros H1 H2. unfold historyOk.
  rewrite andb_true_iff, bool_decide_eq_true, forallb_forall.
  split; [done|]. intros f Hf%list_elem_of_In%H2.
  apply bool_decide_eq_true. by apply elem_of_cons.
Qed.

Lemma hashOrHome_fragment s id :
  id ∈ pageMap → fragment s = id → hashOrHome s = id.
Proof.
  intros Hid Hf. unfold hashOrHome. rewrite slice1_locationHash, Hf.
  destruct id; [|done]. unfold pageMap in Hid.
  rewrite !elem_of_cons, elem_of_nil in Hid.
  by destruct Hid as [?|[?|[?|[?|[]]]]].
Qed.

(** A navigation to a page id keeps the navigation working. *)
Lemma navigationOk_navigate s id :
  navigationOk h s → id ∈ pageMap →
  ∃ s', navigateToPage id s = Normal tt s' ∧ navigationOk h s'.
Proof.
  intros (Hnav & Hids & Hhref & Hrefs & _ & Hhist & _) Hid.
  destruct (navigateToPage_page id s Hnav Hid)
    as (s' & Hrun & Hact & Hnav' & Hsk & Hdoc & Hp & Hl & Ht & Hm & Hf & He & Hi).
  exists s'. split; [done|]. repeat split.
  - done.
  - by rewrite (pageIdsOnly_ext s s').
  - by rewrite (hrefsOk_ext h s s').
  - by rewrite (menuRefsOk_ext s s').
  - unfold menuInSync. rewrite Ht, Hm.
    destruct (mobileToggle s) as [t|] eqn:Et, (navMenu s) as [m|] eqn:Em;
      try done.
    apply bool_decide_eq_true_2. rewrite Hdoc, !hasClass_navigated.
    rewrite (bool_decide_eq_true_2 (lit "active" = lit "active")) by done.
    unfold closedByMenu. rewrite Et, Em.
    rewrite (bool_decide_eq_true_2 (t = t)), (bool_decide_eq_true_2 (m = m))
      by done.
    by rewrite orb_true_r, !andb_false_r.
  - apply historyOk_spec in Hhist as [Hcur Hall].
    apply historyOk_intro.
    + rewrite He, Hi, Hf.
      unfold streq. case_bool_decide as Heq; [by rewrite Hcur, Heq|].
      apply lookup_lt_Some in Hcur.
      rewrite lookup_app_r by (rewrite length_take; lia).
      rewrite length_take. by replace (_ - _)%nat with O by lia.
    + rewrite He. intros f. destruct (streq (fragment s) id); [apply Hall|].
      rewrite elem_of_app, list_elem_of_singleton.
      intros [Hin%subseteq_take| ->]; auto.
  - by rewrite (hashOrHome_fragment s' id).
Qed.

Lemma navOk_menu_apart s n :
  navOk s = true → n ∈ pages s ++ navLinks s →
  mobileToggle s ≠ Some n ∧ navMenu s ≠ Some n.
Proof. intros Hnav Hn. by apply navOk_spec in Hnav as (_ & _ & _ & H & _); auto. Qed.

Lemma navigationOk_toggle s :
  navigationOk h s →
  ∃ s', onToggleClick s = Normal tt s' ∧ navigationOk h s'.
Proof.
  intros Hok. rewrite onToggleClick_spec. eexists. split; [reflexivity|].
  destruct (mobileToggle s) as [t|] eqn:Et, (navMenu s) as [m|] eqn:Em;
    try done.
  pose proof Hok as (Hnav & _ & _ & Hrefs & Hsync & _).
  unfold menuRefsOk, menuInSync in Hrefs, Hsync. rewrite Et, Em in Hrefs, Hsync.
  bool_hyps.
  apply (navigationOk_frame s); [done|done|..].
  - cbn. eapply skeleton_trans; apply skeleton_classListToggle.
  - intros n Hn. destruct (navOk_menu_apart s n Hnav Hn) as [Ht Hm].
    cbn. rewrite !hasClass_toggle.
    rewrite (bool_decide_eq_false_2 (n = m)), (bool_decide_eq_false_2 (n = t))
      by congruence.
    by rewrite !andb_false_r, !xorb_false_r.
  - unfold menuInSync. cbn. rewrite Et, Em. apply bool_decide_eq_true_2.
    rewrite !hasClass_toggle, !length_classListToggle.
    rewrite !(bool_decide_eq_true_2 (lit "active" = lit "active")) by done.
    rewrite (bool_decide_eq_true_2 (t = t)), (bool_decide_eq_true_2 (m = m)),
      (bool_decide_eq_false_2 (t = m)), (bool_decide_eq_false_2 (m = t)),
      (bool_decide_eq_true_2 (t < _)%nat), (bool_decide_eq_true_2 (m < _)%nat)
      by done.
    cbn. rewrite !xorb_false_r. congruence.
Qed.

Lemma navigationOk_closeOpenMenu s :
  navigationOk h s →
  (∃ s', closeOpenMenu s = Normal tt s' ∧ navigationOk h s') ∨
  closeOpenMenu s = Thrown TypeError s.
Proof.
  intros Hok. rewrite closeOpenMenu_spec.
  destruct (navMenu s) as [m|] eqn:Em; [|left; eauto].
  destruct (hasClass (lit "active") (doc s) m) eqn:Hopen; [|left; eauto].
  destruct (mobileToggle s) as [t|] eqn:Et; [|by right].
  left. eexists. split; [reflexivity|].
  pose proof Hok as (Hnav & _).
  apply (navigationOk_frame s); [done|done|..].
  - cbn. eapply skeleton_trans; apply skeleton_classListRemove.
  - intros n Hn. destruct (navOk_menu_apart s n Hnav Hn) as [Ht Hm].
    cbn. rewrite !hasClass_remove.
    rewrite (bool_decide_eq_false_2 (n = m)), (bool_decide_eq_false_2 (n = t))
      by congruence.
    by rewrite !andb_false_r, !andb_true_r.
  - unfold menuInSync. cbn. rewrite Et, Em. apply bool_decide_eq_true_2.
    rewrite !hasClass_remove.
    rewrite !(bool_decide_eq_true_2 (lit "active" = lit "active")) by done.
    rewrite (bool_decide_eq_true_2 (t = t)), (bool_decide_eq_true_2 (m = m))
      by done.
    cbn. by rewrite !andb_false_r.
Qed.

Lemma navigationOk_onDigitKey i s :
  navigationOk h s →
  ∃ s', onDigitKey i s = Normal tt s' ∧ navigationOk h s'.
Proof.
  intros Hok. unfold onDigitKey.
  destruct (pageMap !! i) as [id|] eqn:Hi; [|by exists s].
  apply navigationOk_navigate; [done|]. by eapply list_elem_of_lookup_2.
Qed.

Lemma navigationOk_onKeyDown key s :
  navigationOk h s →
  ∃ s', dispatch (onKeyDown key) s = Normal tt s' ∧ navigationOk h s'.
Proof.
  intros Hok. unfold dispatch, onKeyDown, bind, when, ret.
  assert (Hfirst : (∃ s1, (if streq key (lit "Escape") then closeOpenMenu
                           else λ s0, Normal tt s0) s = Normal tt s1
                          ∧ navigationOk h s1) ∨
                   (if streq key (lit "Escape") then closeOpenMenu
                    else λ s0, Normal tt s0) s = Thrown TypeError s).
  { destruct (streq key (lit "Escape")); [|left; eauto].
    by apply navigationOk_closeOpenMenu. }
  destruct Hfirst as [(s1 & -> & Hok1)| ->]; [|eauto].
  destruct (strle (lit "1") key && strle key (lit "4")); [|eauto].
  destruct (parseInt key) as [n|]; [|eauto].
  destruct (1 <=? n)%Z; [|eauto].
  destruct (navigationOk_onDigitKey (Z.to_nat (n - 1)) s1 Hok1) as (s2 & -> & Hok2).
  eauto.
Qed.

Lemma navigationOk_handleResize w s :
  navigationOk h s →
  ∃ s', dispatch (handleResize w) s = Normal tt s' ∧ navigationOk h s'.
Proof.
  intros Hok. unfold dispatch, handleResize, when, ret.
  destruct (768 <? w); [|eauto].
  destruct (navigationOk_closeOpenMenu s Hok) as [(s1 & -> & Hok1)| ->]; eauto.
Qed.

Lemma navigationOk_handleScroll y s :
  navigationOk h s →
  ∃ s', dispatch (handleScroll y) s = Normal tt s' ∧ navigationOk h s'.
Proof.
  intros Hok. unfold dispatch, handleScroll, bind, gets, modifyDoc, modify, throw.
  destruct (header s) as [n|]; [|eauto].
  assert (lit "active" ≠ lit "scrolled") as Hne by done.
  destruct (negb (Qle_bool y 50)); eexists; (split; [reflexivity|]);
    (apply (navigationOk_frame s); [done|done|..]); cbn.
  - apply skeleton_classListAdd.
  - intros k _. rewrite hasClass_add.
    rewrite (bool_decide_eq_false_2 (_ = _)) by done. by rewrite orb_false_r.
  - destruct Hok as (_ & _ & _ & _ & Hsync & _). unfold menuInSync in *. cbn.
    destruct (mobileToggle s), (navMenu s); try done.
    rewrite !hasClass_add.
    rewrite !(bool_decide_eq_false_2 (lit "active" = lit "scrolled")) by done.
    by rewrite !orb_false_r.
  - apply skeleton_classListRemove.
  - intros k _. rewrite hasClass_remove.
    rewrite (bool_decide_eq_false_2 (_ = _)) by done. by rewrite andb_true_r.
  - destruct Hok as (_ & _ & _ & _ & Hsync & _). unfold menuInSync in *. cbn.
    destruct (mobileToggle s), (navMenu s); try done.
    rewrite !hasClass_remove.
    rewrite !(bool_decide_eq_false_2 (lit "active" = lit "scrolled")) by done.
    by rewrite !andb_true_r.
Qed.

Lemma navigationOk_onNavLinkClick n s :
  navigationOk h s → n ∈ navLinks s →
  ∃ s', onNavLinkClick n s = Normal tt s' ∧ navigationOk h s'.
Proof.
  intros Hok Hn. unfold onNavLinkClick, bind, gets.
  destruct (dataPageOf (doc s) n) as [[|c v]|] eqn:Hd; [by exists s| |by exists s].
  apply navigationOk_navigate; [done|].
  destruct Hok as (_ & Hids & _).
  apply (pageIdsOnly_spec s Hids n); [apply elem_of_app|]; auto.
Qed.

Lemma navigationOk_listenersAt n s :
  navigationOk h s →
  ∃ s', listenersAt n s = Normal tt s' ∧ navigationOk h s'.
Proof.
  intros Hok. unfold listenersAt, bind, gets, when, ret.
  assert (∃ s1, (if bool_decide (mobileToggle s = Some n)
                 then dispatch onToggleClick else λ s0, Normal tt s0) s
                = Normal tt s1 ∧ navigationOk h s1 ∧ navLinks s1 = navLinks s)
    as (s1 & -> & Hok1 & Hl1).
  { destruct (bool_decide _); [|by exists s]. unfold dispatch.
    rewrite onToggleClick_spec. eexists. split; [reflexivity|].
    destruct (navigationOk_toggle s Hok) as (s1 & Hrun & Hok1).
    rewrite onToggleClick_spec in Hrun. injection Hrun as <-.
    split; [done|]. by destruct (mobileToggle s), (navMenu s). }
  rewrite <-Hl1. destruct (bool_decide (n ∈ navLinks s1)) eqn:Hn; [|by exists s1].
  apply bool_decide_eq_true in Hn. unfold dispatch.
  destruct (navigationOk_onNavLinkClick n s1 Hok1 Hn) as (s2 & -> & Hok2).
  by exists s2.
Qed.

Lemma navigationOk_alongPath path s :
  navigationOk h s →
  ∃ s', alongPath path s = Normal tt s' ∧ navigationOk h s'.
Proof.
  revert s. induction path as [|n path IH]; intros s Hok; [by exists s|].
  cbn [alongPath]. unfold bind.
  destruct (navigationOk_listenersAt n s Hok) as (s1 & -> & Hok1).
  by apply IH.
Qed.

Lemma navigationOk_onDocumentClick target s :
  navigationOk h s →
  ∃ s', dispatch (onDocumentClick h target) s = Normal tt s' ∧ navigationOk h s'.
Proof.
  intros Hok. unfold dispatch, onDocumentClick, bind, gets.
  destruct (closestWithDataPage (doc s) target) as [t|] eqn:Hc; [|by exists s].
  destruct (h t) eqn:Hh; [|by exists s].
  unfold closestWithDataPage in Hc.
  apply head_filter_Some in Hc as [Hd _]. apply bool_decide_unpack in Hd.
  destruct Hd as [v Hd]. rewrite Hd. cbn [from_option id].
  destruct (navigationOk_navigate s v Hok) as (s' & -> & Hok'); [|by exists s'].
  destruct Hok as (_ & _ & Hhref & _). unfold hrefsOk in Hhref.
  rewrite forallb_forall in Hhref.
  assert (In t (nodes (doc s))) as Hin.
  { apply list_elem_of_In, elem_of_nodes. unfold dataPageOf in Hd.
    destruct (doc s !! t) eqn:Ht; [|done]. by apply lookup_lt_Some in Ht. }
  apply Hhref in Hin. rewrite Hh, Hd in Hin. cbn in Hin.
  by apply bool_decide_eq_true in Hin.
Qed.

Lemma navigationOk_click target s :
  navigationOk h s →
  ∃ s', click h target s = Normal tt s' ∧ navigationOk h s'.
Proof.
  intros Hok. unfold click, bind, gets.
  destruct (navigationOk_alongPath (target :: ancestors (doc s) target) s Hok)
    as (s1 & -> & Hok1).
  by apply navigationOk_onDocumentClick.
Qed.

(** The state that the [popstate] listener returns when the selector text
    is well formed. *)
Lemma onPopState_state s :
  isPlain (hashOrHome s) = true →
  onPopState s =
  Normal tt
    (setScroll (Some ScrollToTop)
       ((if streq (hashOrHome s) (lit "about")
         then λ s1, setTimers (clock s1)
                      (timers s1 ++ [(clock s1 + 300, AnimateSkills)]) s1
         else λ s1, s1)
        (setDoc (addActive (documentQuerySelector (SelDataPage (hashOrHome s)) (doc s))
                   (addActive (getElementById (hashOrHome s) (doc s))
                      (deactivated s))) s))).
Proof.
  intros Hp.
  pose proof (skeleton_getElementById _ _ (skeleton_deactivated s)
                (hashOrHome s)) as Hg.
  unfold onPopState, deactivateAll, querySelectorText.
  unfold bind, gets, modifyDoc, modify, whenSome, when, ret. cbn.
  rewrite parseSelector_plain by done. cbn.
  fold (deactivated s). rewrite <-Hg.
  destruct (getElementById (hashOrHome s) (doc s)) as [p|]; cbn;
  [change (classListAdd (lit "active") p (deactivated s))
      with (addActive (Some p) (deactivated s))
  |change (deactivated s) with (addActive None (deactivated s)) at 1];
  rewrite querySelector_dataPage_activated;
    (destruct (documentQuerySelector (SelDataPage (hashOrHome s)) (doc s))
       as [l|]; cbn;
     destruct (streq (hashOrHome s) (lit "about")); cbn; reflexivity).
Qed.

Lemma navigationOk_traverse j s :
  navigationOk h s →
  ∃ s', traverse j s = Normal tt s' ∧ navigationOk h s'.
Proof.
  intros Hok. unfold traverse, bind, gets, modify.
  destruct (historyEntries s !! j) as [f|] eqn:Hj; [|by exists s].
  pose proof Hok as (Hnav & Hids & Hhref & Hrefs & Hsync & Hhist & _).
  apply historyOk_spec in Hhist as [_ Hall].
  set (s0 := setLocation f (historyEntries s) j s).
  set (id := hashOrHome s0).
  assert (id ∈ pageMap) as Hid.
  { unfold id, hashOrHome. rewrite slice1_locationHash. cbn.
    destruct (Hall f) as [->|Hf]; [by eapply list_elem_of_lookup_2|by left|].
    destruct f; [by left|done]. }
  unfold dispatch. rewrite onPopState_state by (by apply isPlain_pageMap).
  fold id. eexists. split; [reflexivity|].
  pose proof Hnav as Hnav'.
  apply navOk_spec in Hnav' as (_ & _ & _ & Hmenu & Hex).
  destruct (Hex id Hid) as (p & l & Hp & Hpin & Hl & Hlin).
  destruct (query_bounds id (doc s)) as [Hb1 Hb2].
  change (doc s0) with (doc s). change (deactivated s0) with (deactivated s).
  rewrite Hp, Hl.
  set (D := addActive (Some l) (addActive (Some p) (deactivated s))).
  assert (Hsk : sameSkeleton (doc s) D) by apply skeleton_activated.
  set (s' := setScroll _ _).
  assert (doc s' = D) as Hdoc.
  { unfold s'. by destruct (streq id (lit "about")). }
  assert (pages s' = pages s ∧ navLinks s' = navLinks s ∧
          mobileToggle s' = mobileToggle s ∧ navMenu s' = navMenu s ∧
          fragment s' = f ∧ historyEntries s' = historyEntries s ∧
          historyIndex s' = j) as (Hps & Hls & Hts & Hms & Hfs & Hes & His).
  { unfold s'. by destruct (streq id (lit "about")). }
  assert (Hcl : ∀ n, hasClass (lit "active") D n =
                     (hasClass (lit "active") (doc s) n
                      && negb (bool_decide (n ∈ pages s))
                      && negb (bool_decide (n ∈ navLinks s)))
                     || bool_decide (Some p = Some n)
                     || bool_decide (Some l = Some n)).
  { intros n. unfold D. rewrite hasClass_activated_any.
    - by rewrite (bool_decide_eq_true_2 (lit "active" = lit "active")).
    - intros m [= <-]. by apply Hb1.
    - intros m [= <-]. by apply Hb2. }
  assert (Houter : ∀ n, mobileToggle s = Some n ∨ navMenu s = Some n →
                        hasClass (lit "active") D n
                        = hasClass (lit "active") (doc s) n).
  { intros n Hn. rewrite Hcl.
    assert (Hout : ∀ k, k ∈ pages s ++ navLinks s → n ≠ k).
    { intros k Hk ->. destruct (Hmenu k Hk) as [Ht Hm]. by destruct Hn. }
    assert (n ∉ pages s) as H1.
    { intros Hin. apply (Hout n); [apply elem_of_app; auto | done]. }
    assert (n ∉ navLinks s) as H2.
    { intros Hin. apply (Hout n); [apply elem_of_app; auto | done]. }
    assert (n ≠ p) as H3 by (apply Hout, elem_of_app; auto).
    assert (n ≠ l) as H4 by (apply Hout, elem_of_app; auto).
    rewrite (bool_decide_eq_false_2 (n ∈ pages s)),
      (bool_decide_eq_false_2 (n ∈ navLinks s)),
      (bool_decide_eq_false_2 (Some p = Some n)),
      (bool_decide_eq_false_2 (Some l = Some n)) by congruence.
    by rewrite !andb_true_r, !orb_false_r. }
  repeat split.
  - rewrite (navOk_ext s s'); try done. by rewrite Hdoc.
  - rewrite (pageIdsOnly_ext s s'); try done. by rewrite Hdoc.
  - rewrite (hrefsOk_ext h s s'); try done. by rewrite Hdoc.
  - rewrite (menuRefsOk_ext s s'); try done. by rewrite Hdoc.
  - unfold menuInSync in *. rewrite Hts, Hms, Hdoc.
    destruct (mobileToggle s) as [t|], (navMenu s) as [m|]; try done.
    rewrite !Houter by auto. done.
  - apply historyOk_intro; rewrite Hes, ?His, ?Hfs; done.
  - assert (hashOrHome s' = id) as ->.
    { unfold id, hashOrHome. rewrite !slice1_locationHash. by rewrite Hfs. }
    apply (activated_onlyActive id s s' p l); try done.
    + by rewrite Hdoc.
    + intros n Hn. rewrite Hdoc. unfold D.
      apply (hasClass_activated (Some p) (Some l) s); [| |done].
      * intros m [= <-]. by apply Hb1.
      * intros m [= <-]. by apply Hb2.
Qed.

Lemma navigationOk_handle ev s :
  navigationOk h s →
  ∃ s', handle h ev s = Normal tt s' ∧ navigationOk h s'.
Proof.
  intros Hok. destruct ev as [target|key|w|y| |]; cbn [handle].
  - by apply navigationOk_click.
  - by apply navigationOk_onKeyDown.
  - by apply navigationOk_handleResize.
  - by apply navigationOk_handleScroll.
  - unfold bind, gets. destruct (historyIndex s) as [|j]; [by exists s|].
    by apply navigationOk_traverse.
  - unfold bind, gets. by apply navigationOk_traverse.
Qed.

Lemma navigationOk_handleAll evs s :
  navigationOk h s →
  ∃ s', handleAll h evs s = Normal tt s' ∧ navigationOk h s'.
Proof.
  revert s. induction evs as [|ev evs IH]; intros s Hok; [by exists s|].
  cbn [handleAll]. unfold bind.
  destruct (navigationOk_handle ev s Hok) as (s1 & -> & Hok1).
  by apply IH.
Qed.

(** X5.  Navigation cannot be broken by using it.
    From a state in which the page that the address names is the one
    shown, any sequence of clicks, key presses, resizes, scrolls and steps
    back and forward in the history is handled without an uncaught
    failure of the model, and leads to a state in which again exactly one
    page and one link are active, namely those that the address names, the
    menu toggle and the menu agree, and the history holds page ids only. *)
Theorem navigation_stays_consistent evs s :
  navigationOk h s →
  ∃ s', handleAll h evs s = Normal tt s' ∧ navigationOk h s' ∧
        onlyActive (hashOrHome s') s' ∧ menuInSync s' = true.
Proof.
  intros Hok.
  destruct (navigationOk_handleAll evs s Hok) as (s' & Hrun & Hok').
  exists s'. split; [done|]. split; [done|].
  by destruct Hok' as (_ & _ & _ & _ & ? & _ & ?).
Qed.

End navigation.

Lemma onDOMContentLoaded_state s p l :
  isPlain (hashOrHome s) = true →
  getElementById (hashOrHome s) (doc s) = Some p →
  documentQuerySelector (SelDataPage (hashOrHome s)) (doc s) = Some l →
  onDOMContentLoaded s =
  Normal tt
    ((if streq (hashOrHome s) (lit "about")
      then λ s1, setTimers (clock s1)
                   (timers s1 ++ [(clock s1 + 500, AnimateSkills)]) s1
      else λ s1, s1)
     (setTimers (clock s) (timers s ++ [(clock s + 100, FadeInBody)])
        (setDoc (addActive (Some l) (addActive (Some p) (deactivated s))) s))).
Proof.
  intros Hp Htarget Hlink.
  pose proof (skeleton_getElementById _ _ (skeleton_deactivated s)) as Hg.
  unfold onDOMContentLoaded, deactivateAll, querySelectorText.
  unfold bind, gets, modifyDoc, modify, whenSome, when, ret, activateOrThrow,
    setTimeout.
  cbn. rewrite parseSelector_plain by done. cbn.
  fold (deactivated s). rewrite <-!Hg, Htarget. cbn.
  change (classListAdd (lit "active") p (deactivated s))
    with (addActive (Some p) (deactivated s)).
  rewrite !querySelector_dataPage_activated, Hlink. cbn.
  by destruct (streq (hashOrHome s) (lit "about")).
Qed.

(** X24.  The [DOMContentLoaded] listener establishes what
    navigation then keeps: when the page is loaded with no fragment or
    with a page id as the fragment, the page that the address names and
    its link become the active ones, whatever the markup has marked as
    active. *)
Theorem onDOMContentLoaded_establishes h s :
  navOk s = true → pageIdsOnly s = true → hrefsOk h s = true →
  menuRefsOk s = true → menuInSync s = true → historyOk s = true →
  ∃ s', onDOMContentLoaded s = Normal tt s' ∧ navigationOk h s'.
Proof.
  intros Hnav Hids Hhref Hrefs Hsync Hhist.
  pose proof (historyOk_spec s Hhist) as [Hcur Hall].
  set (id := hashOrHome s).
  assert (id ∈ pageMap) as Hid.
  { unfold id, hashOrHome. rewrite slice1_locationHash.
    destruct (Hall (fragment s)) as [->|Hf];
      [by eapply list_elem_of_lookup_2|by left|].
    destruct (fragment s); [by left|done]. }
  pose proof Hnav as Hnav'.
  apply navOk_spec in Hnav' as (_ & _ & _ & Hmenu & Hex).
  destruct (Hex id Hid) as (p & l & Hp & Hpin & Hl & Hlin).
  destruct (query_bounds id (doc s)) as [Hb1 Hb2].
  rewrite (onDOMContentLoaded_state s p l) by (done || by apply isPlain_pageMap).
  fold id. eexists. split; [reflexivity|].
  set (D := addActive (Some l) (addActive (Some p) (deactivated s))).
  assert (Hsk : sameSkeleton (doc s) D) by apply skeleton_activated.
  set (s' := (if streq id (lit "about") then _ else _) _).
  assert (doc s' = D ∧ pages s' = pages s ∧ navLinks s' = navLinks s ∧
          mobileToggle s' = mobileToggle s ∧ navMenu s' = navMenu s ∧
          fragment s' = fragment s ∧ historyEntries s' = historyEntries s ∧
          historyIndex s' = historyIndex s)
    as (Hdoc & Hps & Hls & Hts & Hms & Hfs & Hes & His).
  { unfold s'. by destruct (streq id (lit "about")). }
  assert (Houter : ∀ n, mobileToggle s = Some n ∨ navMenu s = Some n →
                        hasClass (lit "active") D n
                        = hasClass (lit "active") (doc s) n).
  { intros n Hn. unfold D. rewrite hasClass_activated_any.
    2:{ intros m [= <-]. by apply Hb1. }
    2:{ intros m [= <-]. by apply Hb2. }
    rewrite (bool_decide_eq_true_2 (lit "active" = lit "active")) by done.
    assert (Hout : ∀ k, k ∈ pages s ++ navLinks s → n ≠ k).
    { intros k Hk ->. destruct (Hmenu k Hk) as [Ht Hm]. by destruct Hn. }
    assert (n ∉ pages s) as H1.
    { intros Hin. apply (Hout n); [apply elem_of_app; auto | done]. }
    assert (n ∉ navLinks s) as H2.
    { intros Hin. apply (Hout n); [apply elem_of_app; auto | done]. }
    assert (n ≠ p) as H3 by (apply Hout, elem_of_app; auto).
    assert (n ≠ l) as H4 by (apply Hout, elem_of_app; auto).
    rewrite (bool_decide_eq_false_2 (n ∈ pages s)),
      (bool_decide_eq_false_2 (n ∈ navLinks s)),
      (bool_decide_eq_false_2 (Some p = Some n)),
      (bool_decide_eq_false_2 (Some l = Some n)) by congruence.
    by rewrite !andb_true_r, !orb_false_r. }
  repeat split.
  - rewrite (navOk_ext s s'); try done. by rewrite Hdoc.
  - rewrite (pageIdsOnly_ext s s'); try done. by rewrite Hdoc.
  - rewrite (hrefsOk_ext h s s'); try done. by rewrite Hdoc.
  - rewrite (menuRefsOk_ext s s'); try done. by rewrite Hdoc.
  - unfold menuInSync in *. rewrite Hts, Hms, Hdoc.
    destruct (mobileToggle s) as [t|], (navMenu s) as [m|]; try done.
    rewrite !Houter by auto. done.
  - apply historyOk_intro; rewrite Hes, ?His, ?Hfs; done.
  - assert (hashOrHome s' = id) as ->.
    { unfold id, hashOrHome. rewrite !slice1_locationHash. by rewrite Hfs. }
    apply (activated_onlyActive id s s' p l); try done.
    + by rewrite Hdoc.
    + intros n Hn. rewrite Hdoc. unfold D.
      apply (hasClass_activated (Some p) (Some l) s); [| |done].
      * intros m [= <-]. by apply Hb1.
      * intros m [= <-]. by apply Hb2.
Qed.

(** ** The further properties on the sample documents *)

Lemma onToggleClick_flips_witness :
  let s := sampleState [] [] [] in
  mobileToggle s = Some 3%nat ∧ navMenu s = Some 4%nat ∧ menuRefsOk s = true ∧
  ∃ s', onToggleClick s = Normal tt s' ∧ sameWindow s s' ∧
        sameSkeleton (doc s) (doc s') ∧
        ∀ c n, hasClass c (doc s') n =
               xorb (hasClass c (doc s) n)
                    (bool_decide (c = lit "active")
                     && (bool_decide (n = 3%nat) || bool_decide (n = 4%nat))).
Proof.
  intros s.
  assert (H1 : mobileToggle s = Some 3%nat) by (vm_compute; reflexivity).
  assert (H2 : navMenu s = Some 4%nat) by (vm_compute; reflexivity).
  assert (H3 : menuRefsOk s = true) by (vm_compute; reflexivity).
  split; [exact H1|]. split; [exact H2|]. split; [exact H3|].
  exact (onToggleClick_flips s 3 4 H1 H2 H3).
Defined.

Lemma navigateToPage_closes_menu_witness :
  let s := stateAfter onToggleClick (sampleState [] [] []) in
  isPlain (lit "contact") = true ∧
  mobileToggle s = Some 3%nat ∧ navMenu s = Some 4%nat ∧
  hasClass (lit "active") (doc s) 4 = true ∧
  ∃ s', navigateToPage (lit "contact") s = Normal tt s' ∧
        hasClass (lit "active") (doc s') 3 = false ∧
        hasClass (lit "active") (doc s') 4 = false ∧
        scroll s' = Some ScrollToTop.
Proof.
  intros s.
  assert (H1 : isPlain (lit "contact") = true) by (vm_compute; reflexivity).
  assert (H2 : mobileToggle s = Some 3%nat) by (vm_compute; reflexivity).
  assert (H3 : navMenu s = Some 4%nat) by (vm_compute; reflexivity).
  split; [exact H1|]. split; [exact H2|]. split; [exact H3|].
  split; [vm_compute; reflexivity|].
  exact (navigateToPage_closes_menu (lit "contact") s 3 4 H1 H2 H3).
Defined.

Lemma navigateToPage_twice_witness :
  lit "about" ∈ pageMap ∧
  ∃ s1 s2, navigateToPage (lit "about") (sampleState [] [] []) = Normal tt s1 ∧
           navigateToPage (lit "about") s1 = Normal tt s2 ∧
           (∀ c n, hasClass c (doc s2) n = hasClass c (doc s1) n) ∧
           sameSkeleton (doc s1) (doc s2) ∧
           fragment s2 = fragment s1 ∧
           historyEntries s2 = historyEntries s1 ∧
           historyIndex s2 = historyIndex s1 ∧
           timers s2 = (if streq (lit "about") (lit "about")
                        then timers s1 ++ [(clock s1 + 300, AnimateSkills)]
                        else timers s1).
Proof.
  assert (H1 : lit "about" ∈ pageMap).
  { apply (bool_decide_unpack (lit "about" ∈ pageMap)). vm_compute. exact I. }
  split; [exact H1|].
  exact (navigateToPage_twice (lit "about") (sampleState [] [] []) H1).
Defined.


Lemma close_menu_without_toggle_witness :
  let s := load menuOnlyPage [] in
  navMenu s = Some 1%nat ∧ mobileToggle s = None ∧
  hasClass (lit "active") (doc s) 1 = true ∧ 768 < 1024 ∧
  onKeyDown (lit "Escape") s = Thrown TypeError s ∧
  handleResize 1024 s = Thrown TypeError s.
Proof.
  intros s.
  assert (H1 : navMenu s = Some 1%nat) by (vm_compute; reflexivity).
  assert (H2 : mobileToggle s = None) by (vm_compute; reflexivity).
  assert (H3 : hasClass (lit "active") (doc s) 1 = true)
    by (vm_compute; reflexivity).
  assert (H4 : 768 < 1024) by lia.
  split; [exact H1|]. split; [exact H2|]. split; [exact H3|]. split; [exact H4|].
  exact (close_menu_without_toggle s 1 1024 H1 H2 H3 H4).
Defined.

Lemma handleResize_closes_menu_witness :
  let s := stateAfter onToggleClick (sampleState [] [] []) in
  mobileToggle s = Some 3%nat ∧ navMenu s = Some 4%nat ∧
  ∃ s', handleResize 1024 s = Normal tt s' ∧ sameWindow s s' ∧
        (768 < 1024 → hasClass (lit "active") (doc s') 4 = false ∧
                      hasClass (lit "active") (doc s') 3 =
                      hasClass (lit "active") (doc s) 3
                      && negb (hasClass (lit "active") (doc s) 4)) ∧
        (1024 ≤ 768 → s' = s).
Proof.
  intros s.
  assert (H1 : mobileToggle s = Some 3%nat) by (vm_compute; reflexivity).
  assert (H2 : navMenu s = Some 4%nat) by (vm_compute; reflexivity).
  split; [exact H1|]. split; [exact H2|].
  exact (handleResize_closes_menu s 3 4 1024 H1 H2).
Defined.

Lemma onKeyDown_digit_witness :
  let s := setFocused (Some 17%nat) (sampleState [] [] []) in
  navOk s = true ∧ pageMap !! 2%nat = Some (lit "projects") ∧
  ∃ s', onKeyDown [0x31 + N.of_nat 2] s = Normal tt s' ∧
        onlyActive (lit "projects") s' ∧
        slice1 (locationHash s') = lit "projects".
Proof.
  intros s.
  assert (H1 : navOk s = true) by (vm_compute; reflexivity).
  assert (H2 : pageMap !! 2%nat = Some (lit "projects")) by reflexivity.
  split; [exact H1|]. split; [exact H2|].
  exact (onKeyDown_digit s 2 (lit "projects") H1 H2).
Defined.


Lemma handleScroll_without_header_witness :
  let s := load (bareForm []) [] in
  header s = None ∧ handleScroll 120 s = Thrown TypeError s.
Proof.
  intros s.
  assert (H1 : header s = None) by (vm_compute; reflexivity).
  split; [exact H1|].
  exact (handleScroll_without_header s 120 H1).
Defined.

Lemma isInViewport_oversized_witness :
  let rect := mkDOMRect 0 0 2000 300 in
  ((orElse 800 0 < rect_bottom rect - rect_top rect)%Q ∨
   (orElse 1200 0 < rect_right rect - rect_left rect)%Q) ∧
  isInViewport rect 800 1200 0 0 = false.
Proof.
  intros rect.
  assert (H1 : (orElse 800 0 < rect_bottom rect - rect_top rect)%Q ∨
               (orElse 1200 0 < rect_right rect - rect_left rect)%Q)
    by (left; vm_compute; reflexivity).
  split; [exact H1|].
  exact (isInViewport_oversized rect 800 1200 0 0 H1).
Defined.

Lemma getCurrentPage_after_navigation_witness :
  let s := sampleState [] [] [] in
  navOk s = true ∧ pagesCurrent s = true ∧ lit "contact" ∈ pageMap ∧
  ∃ s', navigateToPage (lit "contact") s = Normal tt s' ∧
        getCurrentPage (doc s') = lit "contact".
Proof.
  intros s.
  assert (H1 : navOk s = true) by (vm_compute; reflexivity).
  assert (H2 : pagesCurrent s = true) by (vm_compute; reflexivity).
  assert (H3 : lit "contact" ∈ pageMap).
  { apply (bool_decide_unpack (lit "contact" ∈ pageMap)). vm_compute. exact I. }
  split; [exact H1|]. split; [exact H2|]. split; [exact H3|].
  exact (getCurrentPage_after_navigation (lit "contact") s H1 H2 H3).
Defined.

Lemma getCurrentPage_nothing_active_witness :
  let s := sampleState [] [] [] in
  pageIdsOnly s = true ∧ pagesCurrent s = true ∧
  (lit "blog" ∉ pageMap) ∧ isPlain (lit "blog") = true ∧
  ∃ s', navigateToPage (lit "blog") s = Normal tt s' ∧ activePages s' = [] ∧
        getCurrentPage (doc s') = lit "home".
Proof.
  intros s.
  assert (H1 : pageIdsOnly s = true) by (vm_compute; reflexivity).
  assert (H2 : pagesCurrent s = true) by (vm_compute; reflexivity).
  assert (H3 : lit "blog" ∉ pageMap).
  { apply (proj1 (bool_decide_eq_false (lit "blog" ∈ pageMap))).
    vm_compute. reflexivity. }
  assert (H4 : isPlain (lit "blog") = true) by (vm_compute; reflexivity).
  split; [exact H1|]. split; [exact H2|]. split; [exact H3|]. split; [exact H4|].
  exact (getCurrentPage_nothing_active (lit "blog") s H1 H2 H3 H4).
Defined.

Lemma validateField_prototype_name_witness :
  let s := load (singleFieldForm "constructor" (lit "abc")) [] in
  groupOf (doc s) 3 = Some 2%nat ∧ errorOf (doc s) 3 = Some 4%nat ∧
  nameOf (doc s) 3 ∈ objectPrototypeKeys ∧ trim (valueOf (doc s) 3) ≠ [] ∧
  validateField 3 s = Thrown TypeError s.
Proof.
  intros s.
  assert (H1 : groupOf (doc s) 3 = Some 2%nat) by (vm_compute; reflexivity).
  assert (H2 : errorOf (doc s) 3 = Some 4%nat) by (vm_compute; reflexivity).
  assert (H3 : nameOf (doc s) 3 ∈ objectPrototypeKeys).
  { apply (bool_decide_unpack (nameOf (doc s) 3 ∈ objectPrototypeKeys)).
    vm_compute. exact I. }
  assert (H4 : trim (valueOf (doc s) 3) ≠ []) by (vm_compute; discriminate).
  split; [exact H1|]. split; [exact H2|]. split; [exact H3|]. split; [exact H4|].
  exact (validateField_prototype_name 3 s 2 4 H1 H2 H3 H4).
Defined.

Lemma validateField_no_rule_witness :
  let s := load (singleFieldForm "phone" (lit "call me")) [] in
  groupOf (doc s) 3 = Some 2%nat ∧ errorOf (doc s) 3 = Some 4%nat ∧
  validationRules (nameOf (doc s) 3) = NoRule ∧
  ∃ s', validateField 3 s
        = Normal (negb (forallb isSpace (valueOf (doc s) 3))) s'.
Proof.
  intros s.
  assert (H1 : groupOf (doc s) 3 = Some 2%nat) by (vm_compute; reflexivity).
  assert (H2 : errorOf (doc s) 3 = Some 4%nat) by (vm_compute; reflexivity).
  assert (H3 : validationRules (nameOf (doc s) 3) = NoRule)
    by (vm_compute; reflexivity).
  split; [exact H1|]. split; [exact H2|]. split; [exact H3|].
  exact (validateField_no_rule 3 s 2 4 H1 H2 H3).
Defined.

Lemma validateField_required_iff_blank_witness :
  let s := sampleState [0x20; 0x0A; 0x3000] [] [] in
  groupOf (doc s) 17 = Some 16%nat ∧ errorOf (doc s) 17 = Some 18%nat ∧
  checkField (doc s) 17 ≠ Raises ∧
  ∃ b s', validateField 17 s = Normal b s' ∧
          (textOf (doc s') 18 = lit "This field is required"
           ↔ forallb isSpace (valueOf (doc s) 17) = true).
Proof.
  intros s.
  assert (H1 : groupOf (doc s) 17 = Some 16%nat) by (vm_compute; reflexivity).
  assert (H2 : errorOf (doc s) 17 = Some 18%nat) by (vm_compute; reflexivity).
  assert (H3 : checkField (doc s) 17 ≠ Raises) by (vm_compute; discriminate).
  split; [exact H1|]. split; [exact H2|]. split; [exact H3|].
  exact (validateField_required_iff_blank 17 s 16 18 H1 H2 H3).
Defined.


Lemma validateField_twice_witness :
  let s := sampleState (lit "John Doe") (lit "not-an-email") [] in
  fieldOk (doc s) 20 = true ∧
  ∃ b s', validateField 20 s = Normal b s' ∧ validateField 20 s' = Normal b s'.
Proof.
  intros s.
  assert (H1 : fieldOk (doc s) 20 = true) by (vm_compute; reflexivity).
  split; [exact H1|].
  exact (validateField_twice 20 s H1).
Defined.

Lemma onInput_flagged_witness :
  let s := typeInto 17 (lit "John Doe")
             (stateAfter (validateField 17) (sampleState (lit "J") [] [])) in
  groupOf (doc s) 17 = Some 16%nat ∧ errorOf (doc s) 17 = Some 18%nat ∧
  hasClass (lit "error") (doc s) 16 = true ∧ checkField (doc s) 17 ≠ Raises ∧
  ∃ s', onInput 17 s = Normal tt s' ∧ sameWindow s s' ∧
        hasClass (lit "error") (doc s') 16
          = negb (passes (checkField (doc s) 17)) ∧
        textOf (doc s') 18 = errorText (checkField (doc s) 17).
Proof.
  intros s.
  assert (H1 : groupOf (doc s) 17 = Some 16%nat) by (vm_compute; reflexivity).
  assert (H2 : errorOf (doc s) 17 = Some 18%nat) by (vm_compute; reflexivity).
  assert (H3 : hasClass (lit "error") (doc s) 16 = true)
    by (vm_compute; reflexivity).
  assert (H4 : checkField (doc s) 17 ≠ Raises) by (vm_compute; discriminate).
  split; [exact H1|]. split; [exact H2|]. split; [exact H3|]. split; [exact H4|].
  exact (onInput_flagged 17 s 16 18 H1 H2 H3 H4).
Defined.

Lemma onInput_after_valid_witness :
  let s := sampleState (lit "John Doe") [] [] in
  let s' := stateAfter (validateField 17) s in
  equipped (doc s) 17 = true ∧ validateField 17 s = Normal true s' ∧
  onInput 17 (typeInto 17 (lit "J0hn") s')
  = Normal tt (typeInto 17 (lit "J0hn") s').
Proof.
  intros s s'.
  assert (H1 : equipped (doc s) 17 = true) by (vm_compute; reflexivity).
  assert (H2 : validateField 17 s = Normal true s') by (vm_compute; reflexivity).
  split; [exact H1|]. split; [exact H2|].
  exact (onInput_after_valid 17 s s' (lit "J0hn") H1 H2).
Defined.

Lemma resetFormCallback_clears_witness :
  let s := stateAfter (validateField 17) (sampleState (lit "J") [] []) in
  contactForm s = Some 15%nat ∧ tagOf (doc s) 15 = lit "form" ∧
  hasClass (lit "error") (doc s) 16 = true ∧
  ∃ s', resetFormCallback s = Normal tt s' ∧ sameWindow s s' ∧
        (∀ g, g ∈ documentQuerySelectorAll formGroupSel (doc s') →
              hasClass (lit "error") (doc s') g = false) ∧
        (∀ e, e ∈ documentQuerySelectorAll (SelClass (lit "error-message")) (doc s') →
              textOf (doc s') e = []).
Proof.
  intros s.
  assert (H1 : contactForm s = Some 15%nat) by (vm_compute; reflexivity).
  assert (H2 : tagOf (doc s) 15 = lit "form") by (vm_compute; reflexivity).
  split; [exact H1|]. split; [exact H2|]. split; [vm_compute; reflexivity|].
  exact (resetFormCallback_clears s 15 H1 H2).
Defined.


Lemma onDOMContentLoaded_without_home_witness :
  let s := load (bareForm []) [] in
  getElementById (hashOrHome s) (doc s) = None ∧
  getElementById (lit "home") (doc s) = None ∧
  ∃ s', onDOMContentLoaded s = Thrown TypeError s' ∧
        activePages s' = [] ∧ activeLinks s' = [] ∧ timers s' = timers s.
Proof.
  intros s.
  assert (H1 : getElementById (hashOrHome s) (doc s) = None)
    by (vm_compute; reflexivity).
  assert (H2 : getElementById (lit "home") (doc s) = None)
    by (vm_compute; reflexivity).
  split; [exact H1|]. split; [exact H2|].
  exact (onDOMContentLoaded_without_home s H1 H2).
Defined.

Lemma onDOMContentLoaded_establishes_witness :
  let s := load (samplePage [] [] []) (lit "projects") in
  navOk s = true ∧ pageIdsOnly s = true ∧ hrefsOk sampleHrefs s = true ∧
  menuRefsOk s = true ∧ menuInSync s = true ∧ historyOk s = true ∧
  activePages s = [9%nat] ∧
  ∃ s', onDOMContentLoaded s = Normal tt s' ∧ navigationOk sampleHrefs s'.
Proof.
  intros s.
  assert (H1 : navOk s = true) by (vm_compute; reflexivity).
  assert (H2 : pageIdsOnly s = true) by (vm_compute; reflexivity).
  assert (H3 : hrefsOk sampleHrefs s = true) by (vm_compute; reflexivity).
  assert (H4 : menuRefsOk s = true) by (vm_compute; reflexivity).
  assert (H5 : menuInSync s = true) by (vm_compute; reflexivity).
  assert (H6 : historyOk s = true) by (vm_compute; reflexivity).
  split; [exact H1|]. split; [exact H2|]. split; [exact H3|]. split; [exact H4|].
  split; [exact H5|]. split; [exact H6|]. split; [vm_compute; reflexivity|].
  exact (onDOMContentLoaded_establishes sampleHrefs s H1 H2 H3 H4 H5 H6).
Defined.

Lemma onPopState_page_witness :
  let s := stateAfter onToggleClick (sampleState [] [] []) in
  navOk s = true ∧ lit "about" ∈ pageMap ∧
  hasClass (lit "active") (doc s) 4 = true ∧
  ∃ s', onPopState (withFragment (lit "about") s) = Normal tt s' ∧
        onlyActive (lit "about") s' ∧
        historyEntries s' = historyEntries s ∧
        historyIndex s' = historyIndex s ∧ fragment s' = lit "about" ∧
        ∀ n, mobileToggle s = Some n ∨ navMenu s = Some n →
             hasClass (lit "active") (doc s') n = hasClass (lit "active") (doc s) n.
Proof.
  intros s.
  assert (H1 : navOk s = true) by (vm_compute; reflexivity).
  assert (H2 : lit "about" ∈ pageMap).
  { apply (bool_decide_unpack (lit "about" ∈ pageMap)). vm_compute. exact I. }
  split; [exact H1|]. split; [exact H2|]. split; [vm_compute; reflexivity|].
  exact (onPopState_page s (lit "about") H1 H2).
Defined.

Lemma debounce_burst_witness :
  let calls := [(0, 3%nat); (4, 7%nat); (9, 12%nat)] in
  burst 10 (calls ++ [(15, 20%nat)]) = true ∧ 15 + 10 ≤ 100 ∧
  db_calls (debouncedAt 100 (debouncedRun 10 (calls ++ [(15, 20%nat)]) debounce))
  = [(15 + 10, 20%nat)].
Proof.
  intros calls.
  assert (H1 : burst 10 (calls ++ [(15, 20%nat)]) = true) by reflexivity.
  assert (H2 : 15 + 10 ≤ 100) by lia.
  split; [exact H1|]. split; [exact H2|].
  exact (debounce_burst 10 calls 15 20%nat 100 H1 H2).
Defined.

Lemma navigation_stays_consistent_witness :
  let s := sampleState [] [] [] in
  let evs := [Click 3; KeyDown (lit "2"); Click 10; Back; KeyDown (lit "Escape");
              Resize 1024; Scroll 120; Forward; Click 8] in
  navigationOk sampleHrefs s ∧
  ∃ s', handleAll sampleHrefs evs s = Normal tt s' ∧ navigationOk sampleHrefs s' ∧
        onlyActive (hashOrHome s') s' ∧ menuInSync s' = true.
Proof.
  intros s evs.
  assert (H1 : navigationOk sampleHrefs s).
  { repeat split; try (vm_compute; reflexivity).
    exists 9%nat, 5%nat. repeat split; vm_compute; reflexivity. }
  split; [exact H1|].
  exact (navigation_stays_consistent sampleHrefs evs s H1).
Defined.
